(** * Prometheus Edge Hub: the hub store, its handlers and the distributor

    A shallow embedding of [hub/hub.go] and [distributor/distributor.go].
    Go values are embedded as follows:
    - [int] and [int64] are [Z]; additions wrap at 64 bits ([int_add]);
    - a pointer to a scalar ([*string], [*int64]) is an [option]; reading
      through a nil pointer panics;
    - a Go map is a [gmap]; a slice of metric pointers is a header
      (pointer, length, capacity) into a memory of backing arrays, so that
      two headers over one array alias as they do in Go;
    - a function that can panic, or that writes memory or the hub, runs in
      the monad [M S A := S -> Res A * S]; the state reached at a panic is
      kept, as the Go heap is. *)

From Stdlib Require Import ZArith List String Ascii Lia Permutation Sorted.
From Stdlib Require Import OrderedTypeEx DecimalString.
From stdpp Require Import base option list gmap strings sorting.
From Equations Require Import Equations.

Set Default Proof Using "Type".

(** ** The Go runtime, as far as the hub uses it *)

Module Go.

(** Outcome of a call: a value, or a run-time panic. *)
Inductive Res (A : Type) : Type :=
| Ok (a : A)
| Panic (why : string).
Arguments Ok {A} a.
Arguments Panic {A} why.

Definition is_ok {A} (r : Res A) : bool :=
  match r with Ok _ => true | Panic _ => false end.

(** State-and-panic monad. *)
Definition M (S A : Type) : Type := S -> Res A * S.

Definition ret {S A} (a : A) : M S A := fun s => (Ok a, s).

Definition bind {S A B} (c : M S A) (k : A -> M S B) : M S B :=
  fun s => match c s with
           | (Ok a, s') => k a s'
           | (Panic w, s') => (Panic w, s')
           end.

Definition panic {S A} (why : string) : M S A := fun s => (Panic why, s).
Definition get {S} : M S S := fun s => (Ok s, s).
Definition gets {S A} (f : S -> A) : M S A := fun s => (Ok (f s), s).
Definition modify {S} (f : S -> S) : M S unit := fun s => (Ok tt, f s).

(** [for _, x := range l { body x }] *)
Fixpoint for_each {S A} (l : list A) (body : A -> M S unit) : M S unit :=
  match l with
  | [] => ret tt
  | x :: l' => bind (body x) (fun _ => for_each l' body)
  end.

(** Reading through a pointer. *)
Definition deref {S A} (p : option A) : M S A :=
  match p with
  | Some a => ret a
  | None => panic "invalid memory address or nil pointer dereference"
  end.

(** 64-bit two's complement wrap-around of [int] arithmetic. *)
Definition wrap64 (z : Z) : Z := ((z + 2 ^ 63) mod 2 ^ 64 - 2 ^ 63)%Z.
Definition int_add (a b : Z) : Z := wrap64 (a + b).

(** [len] of a list-shaped Go value, as an [int]. *)
Definition len {A} (l : list A) : Z := Z.of_nat (length l).

End Go.

Import Go.

Declare Scope go_scope.
Delimit Scope go_scope with go.
Notation "x <- c ;; k" := (bind c (fun x => k))
  (at level 100, c at next level, right associativity) : go_scope.
Notation "c ;; k" := (bind c (fun _ => k))
  (at level 100, right associativity) : go_scope.
Local Open Scope go_scope.

(** ** The client model types ([dto]) *)

Module dto.

Inductive MetricType : Type :=
| COUNTER | GAUGE | SUMMARY | UNTYPED | HISTOGRAM.

Record LabelPair : Type := mkLabelPair {
  lp_Name : option string;
  lp_Value : option string
}.

(** The payload of a sample.  The hub never computes with the observed
    value; it is kept as its 64-bit pattern. *)
Inductive Payload : Type :=
| NoPayload
| CounterValue (bits : Z)
| GaugeValue (bits : Z)
| UntypedValue (bits : Z)
| SummaryValue (count : Z) (sum_bits : Z)
| HistogramValue (count : Z) (sum_bits : Z).

Record Metric : Type := mkMetric {
  Label : list LabelPair;
  Value : Payload;
  TimestampMs : option Z
}.

Record MetricFamily : Type := mkMetricFamily {
  Name : option string;
  Help : option string;
  Type_ : option MetricType;
  Metrics : list Metric
}.

(** The generated getters are nil-safe. *)
Definition GetName (f : MetricFamily) : string := default ""%string (Name f).
Definition lp_GetName (l : LabelPair) : string := default ""%string (lp_Name l).
Definition lp_GetValue (l : LabelPair) : string := default ""%string (lp_Value l).

(** [&dto.Metric{}] *)
Definition emptyMetric : Metric := mkMetric [] NoPayload None.

End dto.

Import dto.

(** ** Label canonicalisation *)

(** [sort.Slice(labels, less)] with [less i j := name i < name j].  The
    library does not promise which of two labels with equal names comes
    first; the embedding runs the library's insertion sort, and
    [sorted_by_name_unique] shows that every sorting procedure returns the
    same slice when the names are distinct. *)
Definition label_less (a b : LabelPair) : bool :=
  String.ltb (lp_GetName a) (lp_GetName b).

(** One pass of the inner loop: [x] moves left over the elements it is
    less than.  The prefix is held reversed, nearest element first. *)
Fixpoint sink (x : LabelPair) (rev_prefix : list LabelPair) : list LabelPair :=
  match rev_prefix with
  | [] => [x]
  | y :: r => if label_less x y then y :: sink x r else x :: y :: r
  end.

Definition sortSlice (labels : list LabelPair) : list LabelPair :=
  rev (fold_left (fun acc x => sink x acc) labels []).

Definition segment (l : LabelPair) : string :=
  "_" +:+ lp_GetName l +:+ "_" +:+ lp_GetValue l.

(** [makeLabeledName] sorts the label slice of the metric it is given in
    place, so it returns the metric as it is afterwards together with the
    name. *)
Definition makeLabeledName (metric : Metric) (metricName : string)
  : string * Metric :=
  let labels := sortSlice (Label metric) in
  (fold_left (fun acc l => acc +:+ segment l) labels metricName,
   mkMetric labels (Value metric) (TimestampMs metric)).

(** ** Slices of metric pointers

    A queue is a [[]*dto.Metric]: a header over a backing array that lives
    in memory.  [append] writes in place when the capacity allows it and
    moves to a new array otherwise; how much room a new array gets is the
    runtime's choice ([growcap]), and nothing below depends on it. *)

Class Runtime : Type := growcap : nat -> nat -> nat.

(** Doubling, the runtime's policy for short slices. *)
Definition doubling : Runtime := fun old_cap needed => Nat.max needed (2 * old_cap).

(** A cell holds a [*dto.Metric]; [None] is the nil pointer. *)
Abbreviation Cell := (option Metric).
Abbreviation Mem := (list (list Cell)).

Record slice : Type := mkSlice {
  s_ptr : nat;
  s_len : nat;
  s_cap : nat
}.

Definition load (p : nat) : M Mem (list Cell) :=
  fun m => match m !! p with
           | Some a => (Ok a, m)
           | None => (Panic "dangling array pointer", m)
           end.

Definition store (p : nat) (a : list Cell) : M Mem unit :=
  modify (fun m => <[p := a]> m).

Definition alloc (a : list Cell) : M Mem nat :=
  fun m => (Ok (length m), m ++ [a]).

(** [[]*dto.Metric{metric}] *)
Definition slice_of_one (metric : Metric) : M Mem slice :=
  p <- alloc [Some metric];;
  ret (mkSlice p 1 1).

(** [*s[i]]: the metric the [i]-th pointer points to. *)
Definition index (s : slice) (i : nat) : M Mem Metric :=
  if i <? s_len s then
    a <- load (s_ptr s);;
    match a !! i with
    | Some c => deref c
    | None => panic "index out of range"
    end
  else panic "index out of range".

(** [s[i] = c] *)
Definition set_index (s : slice) (i : nat) (c : Cell) : M Mem unit :=
  if i <? s_len s then
    a <- load (s_ptr s);;
    store (s_ptr s) (<[i := c]> a)
  else panic "index out of range".

(** [append(s, c)] *)
Definition append `{Runtime} (s : slice) (c : Cell) : M Mem slice :=
  a <- load (s_ptr s);;
  if s_len s <? s_cap s then
    store (s_ptr s) (<[s_len s := c]> a);;
    ret (mkSlice (s_ptr s) (S (s_len s)) (s_cap s))
  else
    let newcap := Nat.max (S (s_len s)) (growcap (s_cap s) (S (s_len s))) in
    p <- alloc (take (s_len s) a ++ c :: replicate (newcap - S (s_len s)) None);;
    ret (mkSlice p (S (s_len s)) newcap).

(** [copy(s[i+1:], s[i:])]: the cells from [i] on move up by one, inside
    the backing array. *)
Definition copy_up (s : slice) (i : nat) : M Mem unit :=
  if S i <=? s_len s then
    a <- load (s_ptr s);;
    store (s_ptr s)
          (take (S i) a ++ take (s_len s - S i) (drop i a) ++ drop (s_len s) a)
  else panic "slice bounds out of range".

(** What a header shows: the first [s_len] cells of its array. *)
Definition view (m : Mem) (s : slice) : list Cell :=
  take (s_len s) (default [] (m !! s_ptr s)).

(** [sort.Search(n, f)]: binary search for the least index in [0, n) at
    which [f] holds, [n] when there is none. *)
Equations? Search_loop {St : Type} (f : nat -> M St bool) (i j : nat)
  : M St nat by wf (j - i) lt :=
  Search_loop f i j with lt_dec i j := {
    | left _ =>
        bind (f ((i + j) / 2))
             (fun b => if negb b
                       then Search_loop f (S ((i + j) / 2)) j
                       else Search_loop f i ((i + j) / 2))
    | right _ => ret i }.
Proof.
  all: assert (i <= (i + j) / 2 < j) as Hm
    by (split; [apply Nat.div_le_lower_bound | apply Nat.Div0.div_lt_upper_bound]; lia);
    change ((i + j) / 2) with (fst (Nat.divmod (i + j) 1 0 1)) in Hm; lia.
Qed.

Definition Search {St : Type} (n : nat) (f : nat -> M St bool) : M St nat :=
  Search_loop f 0 n.

(** The test that [sortedInsert] hands to the search:
    [*data[i].TimestampMs > *el.TimestampMs]. *)
Definition later_than (data : slice) (el : Metric) (i : nat) : M Mem bool :=
  di <- index data i;;
  ti <- deref (TimestampMs di);;
  te <- deref (TimestampMs el);;
  ret (ti >? te)%Z.

(** [sortedInsert] *)
Definition sortedInsert `{Runtime} (data : slice) (el : Metric) : M Mem slice :=
  index_ <- Search (s_len data) (later_than data el);;
  data <- append data (Some emptyMetric);;
  copy_up data index_;;
  set_index data index_ (Some el);;
  ret data.

(** ** The family-and-series store *)

(** [f.metrics], a [map[string][]*dto.Metric]. *)
Abbreviation Queues := (gmap string slice).

Record familyAndMetrics : Type := mkFam {
  family : MetricFamily;
  metrics : Queues
}.

(** A memory operation, run where the state has more than the memory. *)
Definition in_mem {T A : Type} (c : M Mem A) : M (Mem * T) A :=
  fun st => let '(r, m') := c (fst st) in (r, (m', snd st)).

Definition lookup_queue (name : string) : M (Mem * Queues) (option slice) :=
  gets (fun st => snd st !! name).

Definition store_queue (name : string) (q : slice) : M (Mem * Queues) unit :=
  modify (fun st => (fst st, <[name := q]> (snd st))).

(** [*queue[len(queue)-1]] *)
Definition last_of (queue : slice) : M Mem Metric :=
  match s_len queue with
  | O => panic "index out of range [-1]"
  | S n => index queue n
  end.

(** The body of the loop of [newFamilyAndMetrics], on the local map. *)
Definition newFamily_step `{Runtime} (familyName : string) (metric : Metric)
  : M (Mem * Queues) unit :=
  let (name, metric) := makeLabeledName metric familyName in
  found <- lookup_queue name;;
  match found with
  | Some metricQueue =>
      t <- deref (TimestampMs metric);;
      last <- in_mem (last_of metricQueue);;
      tl <- deref (TimestampMs last);;
      if (t >=? tl)%Z then
        q <- in_mem (append metricQueue (Some metric));;
        store_queue name q
      else
        q <- in_mem (sortedInsert metricQueue metric);;
        store_queue name q
  | None =>
      q <- in_mem (slice_of_one metric);;
      store_queue name q
  end.

(** [newFamilyAndMetrics]: the queues are built in a fresh map; the family
    is kept with its metric list cleared. *)
Definition newFamilyAndMetrics `{Runtime} (fam : MetricFamily)
  : M Mem familyAndMetrics :=
  fun m =>
    match for_each (Metrics fam) (newFamily_step (GetName fam)) (m, ∅) with
    | (Ok _, (m', queues)) =>
        (Ok (mkFam (mkMetricFamily (Name fam) (Help fam) (Type_ fam) []) queues), m')
    | (Panic why, (m', _)) => (Panic why, m')
    end.

(** The body of the loop of [addMetrics], on [f.metrics].  In the last
    branch the result of [sortedInsert] is assigned to the local variable
    [queue] only: the map keeps the header it had. *)
Definition addMetrics_step `{Runtime} (familyName : string) (metric : Metric)
  : M (Mem * Queues) unit :=
  let (metricName, metric) := makeLabeledName metric familyName in
  found <- lookup_queue metricName;;
  match found with
  | Some queue =>
      t <- deref (TimestampMs metric);;
      last <- in_mem (last_of queue);;
      tl <- deref (TimestampMs last);;
      if (t >=? tl)%Z then
        q <- in_mem (append queue (Some metric));;
        store_queue metricName q
      else
        queue <- in_mem (sortedInsert queue metric);;
        ret tt
  | None =>
      q <- in_mem (slice_of_one metric);;
      store_queue metricName q
  end.

(** [f.addMetrics(newMetrics)], the state being the memory and [f.metrics];
    [fam] is [f.family]. *)
Definition addMetrics `{Runtime} (fam : MetricFamily) (newMetrics : list Metric)
  : M (Mem * Queues) unit :=
  for_each newMetrics (addMetrics_step (GetName fam)).

(** [f.copyFamily()] *)
Definition copyFamily (f : familyAndMetrics) : MetricFamily := family f.

(** [f.popDatapoints()]: a copy of the family with every queue appended to
    its metric list.  (Go visits the queues in an unspecified order; here
    it is the order of the map's enumeration.  A nil pointer, which the
    hub never queues, would not be read.) *)
Definition popDatapoints (m : Mem) (f : familyAndMetrics) : MetricFamily :=
  let pullFamily := copyFamily f in
  mkMetricFamily (Name pullFamily) (Help pullFamily) (Type_ pullFamily)
    (Metrics pullFamily ++
     concat ((fun kq => omap id (view m (snd kq))) <$> map_to_list (metrics f))).

(** ** The hub *)

Record hubStats : Type := mkStats {
  lastScrapeTime : Z;
  lastScrapeSize : Z;
  lastScrapeNumFamilies : Z;
  lastReceiveTime : Z;
  lastReceiveSize : Z;
  lastReceiveNumFamilies : Z;
  currentCountFamilies : Z;
  currentCountSeries : Z;
  currentCountDatapoints : Z
}.

Record MetricHub : Type := mkHub {
  metricFamiliesByName : gmap string familyAndMetrics;
  limit : Z;
  stats : hubStats;
  scrapeTimeout : Z
}.

Inductive LogEntry : Type :=
| LogCreated (limit : Z)
| LogOverfill (newDatapoints limit current : Z)
| LogDropped (name : string)
| LogTimeout.

(** The process: the memory of backing arrays, the hub, the two gauges
    [hub_size] and [hub_limit], and what was logged (latest first). *)
Record World : Type := mkWorld {
  mem : Mem;
  hub : MetricHub;
  hubSize : Z;
  hubLimit : Z;
  logged : list LogEntry
}.

Definition set_mem (m : Mem) (w : World) : World :=
  mkWorld m (hub w) (hubSize w) (hubLimit w) (logged w).
Definition set_hub (c : MetricHub) (w : World) : World :=
  mkWorld (mem w) c (hubSize w) (hubLimit w) (logged w).
Definition set_hubSize (v : Z) (w : World) : World :=
  mkWorld (mem w) (hub w) v (hubLimit w) (logged w).
Definition add_log (e : LogEntry) (w : World) : World :=
  mkWorld (mem w) (hub w) (hubSize w) (hubLimit w) (e :: logged w).

Definition set_families (fs : gmap string familyAndMetrics) (c : MetricHub)
  : MetricHub :=
  mkHub fs (limit c) (stats c) (scrapeTimeout c).
Definition set_stats (st : hubStats) (c : MetricHub) : MetricHub :=
  mkHub (metricFamiliesByName c) (limit c) st (scrapeTimeout c).

Definition zeroStats : hubStats := mkStats 0 0 0 0 0 0 0 0 0.

(** [NewMetricHub(limit, scrapeTimeout)], in a process with memory [m]. *)
Definition NewMetricHub (limit scrapeTimeout : Z) : World :=
  mkWorld [] (mkHub ∅ limit zeroStats scrapeTimeout) 0 limit [LogCreated limit].

(** One turn of the loop of [hubMetrics].  The receiver of [addMetrics] is
    the object the map points to, so what it does to [f.metrics] is seen
    through the map, also when it panics half way. *)
Definition hubMetrics_step `{Runtime} (fam : MetricFamily) : M World unit :=
  fun w =>
    let byName := metricFamiliesByName (hub w) in
    match byName !! GetName fam with
    | Some families =>
        let '(r, (m', queues)) :=
          addMetrics (family families) (Metrics fam) (mem w, metrics families) in
        (r, set_hub (set_families
                       (<[GetName fam := mkFam (family families) queues]> byName)
                       (hub w))
                    (set_mem m' w))
    | None =>
        match newFamilyAndMetrics fam (mem w) with
        | (Ok f, m') =>
            (Ok tt, set_hub (set_families (<[GetName fam := f]> byName) (hub w))
                            (set_mem m' w))
        | (Panic why, m') => (Panic why, set_mem m' w)
        end
    end.

(** [c.hubMetrics(families)]; the batch is given in the order in which the
    loop visits it. *)
Definition hubMetrics `{Runtime} (families : list MetricFamily) : M World unit :=
  for_each families hubMetrics_step.

(** *** Rendering *)

(** [expfmt.MetricFamilyToText], the exposition encoder of the Prometheus
    client library: the text of one family, or an error. *)
Class Expfmt : Type := MetricFamilyToText : MetricFamily -> string + string.

Definition scrapeWorkerPoolSize : nat := 100.

Definition familyToString `{Expfmt} (fam : MetricFamily) : string + string :=
  match MetricFamilyToText fam with
  | inl err => inl ("error writing family string: " +:+ err)
  | inr text => inr text
  end.

(** What the Go scheduler decides during a render: the order in which the
    families' results reach the aggregator (the families are named by
    their keys in the snapshot), and which case of the final [select]
    fires. *)
Record Schedule : Type := mkSchedule {
  arrival : list string;
  timer_first : bool
}.

(** A schedule visits every family of the snapshot once. *)
Definition fair {V : Type} (snapshot : gmap string V) (sch : Schedule) : Prop :=
  arrival sch ≡ₚ (map_to_list snapshot).*1.

(** The families of a snapshot in the order in which their results
    arrive. *)
Definition arrived (snapshot : gmap string familyAndMetrics) (sch : Schedule)
  : list familyAndMetrics :=
  omap (fun k => snapshot !! k) (arrival sch).

(** [processFamilyWorker], for the families [fams] taken from the channel:
    the strings sent to [results].  A family the encoder refuses is logged
    and skipped; the warning reads the family's name through its pointer.
    (The pool's workers run this loop side by side; the embedding runs it
    once, over the families in the order of arrival.) *)
Fixpoint processFamilyWorker `{Expfmt} (fams : list familyAndMetrics)
  : M World (list string) :=
  match fams with
  | [] => ret []
  | fam :: fams' =>
      m <- gets mem;;
      let pullFamily := popDatapoints m fam in
      match familyToString pullFamily with
      | inl err =>
          name <- deref (Name pullFamily);;
          modify (add_log (LogDropped name));;
          processFamilyWorker fams'
      | inr familyStr =>
          results <- processFamilyWorker fams';;
          ret (familyStr :: results)
      end
  end.

(** [processFamilyStringsWorker]: the results written to the builder one
    after the other. *)
Definition processFamilyStringsWorker (results : list string) : string :=
  fold_left String.append results ""%string.

(** [c.exposeMetrics(metricFamiliesByName, workers)].  The number of
    workers bounds how many families are rendered at once, nothing else;
    every caller passes [scrapeWorkerPoolSize]. *)
Definition exposeMetrics `{Expfmt}
    (metricFamiliesByName : gmap string familyAndMetrics) (workers : nat)
    (sch : Schedule) : M World string :=
  results <- processFamilyWorker (arrived metricFamiliesByName sch);;
  let resp := processFamilyStringsWorker results in
  if timer_first sch then
    modify (add_log LogTimeout);;
    ret ""%string
  else ret resp.

(** *** Handlers *)

Inductive Body : Type :=
| NoContent
| Text (s : string)
| ParseErrorText (err : string)
| OverfillText (newDatapoints limit current : Z)
| DebugText (hostname : string) (limitValue : option Z)
            (utilization : option (Z * Z)) (st : hubStats)
            (exposition : option string).

Record Response : Type := mkResponse {
  status : Z;
  body : Body
}.

Definition StatusOK : Z := 200.
Definition StatusBadRequest : Z := 400.
Definition StatusNotAcceptable : Z := 406.

Definition modify_stats (f : hubStats -> hubStats) : M World unit :=
  modify (fun w => set_hub (set_stats (f (stats (hub w))) (hub w)) w).

Definition received (now size families newDatapoints : Z) (s : hubStats)
  : hubStats :=
  mkStats (lastScrapeTime s) (lastScrapeSize s) (lastScrapeNumFamilies s)
          now size families
          (currentCountFamilies s) (currentCountSeries s)
          (int_add (currentCountDatapoints s) newDatapoints).

Definition scraped (now size families : Z) (s : hubStats) : hubStats :=
  mkStats now size families
          (lastReceiveTime s) (lastReceiveSize s) (lastReceiveNumFamilies s)
          (currentCountFamilies s) (currentCountSeries s) 0.

Definition counted (families series datapoints : Z) (s : hubStats) : hubStats :=
  mkStats (lastScrapeTime s) (lastScrapeSize s) (lastScrapeNumFamilies s)
          (lastReceiveTime s) (lastReceiveSize s) (lastReceiveNumFamilies s)
          families series datapoints.

(** The number of samples of a parsed push. *)
Definition count_new (parsedFamilies : list MetricFamily) : Z :=
  fold_left (fun n fam => int_add n (len (Metrics fam))) parsedFamilies 0%Z.

(** [c.Receive(ctx)].  [parsed] is what the text parser made of the request
    body (an error, or the families in the order the handler visits them),
    [contentLength] the length of the request and [now] the clock. *)
Definition Receive `{Runtime} (parsed : string + list MetricFamily)
    (contentLength now : Z) : M World Response :=
  match parsed with
  | inl err => ret (mkResponse StatusBadRequest (ParseErrorText err))
  | inr parsedFamilies =>
      let newDatapoints := count_new parsedFamilies in
      c <- gets hub;;
      let current := currentCountDatapoints (stats c) in
      if (limit c >? 0)%Z && (int_add current newDatapoints >? limit c)%Z then
        modify (add_log (LogOverfill newDatapoints (limit c) current));;
        ret (mkResponse StatusNotAcceptable
                        (OverfillText newDatapoints (limit c) current))
      else
        hubMetrics parsedFamilies;;
        modify_stats (received now contentLength (len parsedFamilies) newDatapoints);;
        c <- gets hub;;
        modify (set_hubSize (currentCountDatapoints (stats c)));;
        ret (mkResponse StatusOK NoContent)
  end.

(** [c.clearMetrics()] *)
Definition clearMetrics : M World unit :=
  modify (fun w => set_hub (set_families ∅ (hub w)) w).

(** [c.Scrape(ctx)] *)
Definition Scrape `{Expfmt} (sch : Schedule) (now : Z) : M World Response :=
  c <- gets hub;;
  let scrapeMetrics := metricFamiliesByName c in
  clearMetrics;;
  expositionString <- exposeMetrics scrapeMetrics scrapeWorkerPoolSize sch;;
  modify_stats (scraped now (Z.of_nat (String.length expositionString))
                        (Z.of_nat (size scrapeMetrics)));;
  modify (set_hubSize 0);;
  ret (mkResponse StatusOK (Text expositionString)).

(** The sum of the queue lengths of one family, and of a whole store. *)
Definition family_datapoints (f : familyAndMetrics) : Z :=
  map_fold (fun _ series n => int_add n (Z.of_nat (s_len series))) 0%Z (metrics f).

Definition store_series (fs : gmap string familyAndMetrics) : Z :=
  map_fold (fun _ f n => int_add n (Z.of_nat (size (metrics f)))) 0%Z fs.

Definition store_datapoints (fs : gmap string familyAndMetrics) : Z :=
  map_fold (fun _ f n => int_add n (family_datapoints f)) 0%Z fs.

(** [c.updateCountStats()] *)
Definition updateCountStats : M World unit :=
  c <- gets hub;;
  let fs := metricFamiliesByName c in
  modify_stats (counted (Z.of_nat (size fs)) (store_series fs) (store_datapoints fs)).

(** [c.Debug(ctx)]; the utilisation is kept as the fraction it prints. *)
Definition Debug `{Expfmt} (verbose hostname : string) (sch : Schedule)
  : M World Response :=
  updateCountStats;;
  c <- gets hub;;
  let '(limitValue, utilizationValue) :=
    if (limit c <=? 0)%Z then (None, None)
    else (Some (limit c),
          Some ((currentCountDatapoints (stats c) * 100)%Z, limit c)) in
  exposition <-
    (if String.eqb verbose "" then ret None
     else text <- exposeMetrics (metricFamiliesByName c) scrapeWorkerPoolSize sch;;
          ret (Some text));;
  ret (mkResponse StatusOK
         (DebugText hostname limitValue utilizationValue (stats c) exposition)).

(** *** Internal metrics *)

(** [prometheus.DefaultGatherer.Gather()], the registry of the process's
    own metrics: the families gathered, and an error or none.  (The
    library may return families together with an error.) *)
Class Gatherer : Type := Gather : list MetricFamily * option string.

(** The loop of [WriteInternalMetrics]: [str] is the builder. *)
Fixpoint writeFamilies `{Expfmt} (metrics : list MetricFamily) (str : string)
  : string + string :=
  match metrics with
  | [] => inr str
  | fam :: rest =>
      match MetricFamilyToText fam with
      | inl err => inl err
      | inr text => writeFamilies rest (str +:+ text)
      end
  end.

(** [WriteInternalMetrics()]: an error, or the text. *)
Definition WriteInternalMetrics `{Gatherer} `{Expfmt} : string + string :=
  let '(metrics, err) := Gather in
  match err with
  | Some e => inl e
  | None => writeFamilies metrics ""
  end.

Definition StatusInternalServerError : Z := 500.

(** [serveInternalMetrics(ctx)] of the command package, the handler of
    [GET /internal]. *)
Definition serveInternalMetrics `{Gatherer} `{Expfmt} : Response :=
  match WriteInternalMetrics with
  | inl _ => mkResponse StatusInternalServerError NoContent
  | inr text => mkResponse StatusOK (Text text)
  end.

(** ** The distributor *)

Module distributor.

(** [hashring.New(nodes)] of the consistent-hash library, as the lookup
    function [GetNode] of the ring it builds: the node that owns a key,
    or nothing. *)
Class HashRing : Type := hashring_New : list string -> string -> option string.

Record Distributor : Type := mkDistributor {
  keyLabel : string;
  edgeHubArray : list string;
  ring : string -> option string
}.

Definition NewDistributor `{HashRing} (keyLabel : string)
    (edgeHubArray : list string) : Distributor :=
  mkDistributor keyLabel edgeHubArray (hashring_New edgeHubArray).

Inductive DistLog : Type :=
| HashPositionNotFound (met : Metric).

(** [distSet]: for every hub a map from family name to the family
    gathered for it.  A hub without an entry reads as the nil map. *)
Abbreviation DistSet := (gmap string (gmap string MetricFamily)).

Record DistState : Type := mkDistState {
  distSet : DistSet;
  dist_logged : list DistLog
}.

(** [getKeyLabelValue(metric, keyLabel)], on the labels of the metric. *)
Fixpoint getKeyLabelValue {St : Type} (labels : list LabelPair)
    (keyLabel : string) : M St string :=
  match labels with
  | [] => ret ""%string
  | label :: rest =>
      name <- deref (lp_Name label);;
      if String.eqb name keyLabel then ret (lp_GetValue label)
      else getKeyLabelValue rest keyLabel
  end.

(** The body of the inner loop of [ReceiveGRPC].  After a failed lookup
    the loop body goes on with the hub name the lookup returned, the empty
    string. *)
Definition route (d : Distributor) (fam : MetricFamily) (met : Metric)
  : M DistState unit :=
  let name := GetName fam in
  labelVal <- getKeyLabelValue (Label met) (keyLabel d);;
  let '(hub, ok) := match ring d labelVal with
                    | Some node => (node, true)
                    | None => (""%string, false)
                    end in
  (if ok then ret tt
   else modify (fun s => mkDistState (distSet s)
                           (HashPositionNotFound met :: dist_logged s)));;
  ds <- gets distSet;;
  match ds !! hub with
  | Some inHub =>
      match inHub !! name with
      | Some f =>
          let f' := mkMetricFamily (Name f) (Help f) (Type_ f) (Metrics f ++ [met]) in
          modify (fun s => mkDistState (<[hub := <[name := f']> inHub]> (distSet s))
                                       (dist_logged s))
      | None =>
          let f' := mkMetricFamily (Name fam) (Help fam) (Type_ fam) [met] in
          modify (fun s => mkDistState (<[hub := <[name := f']> inHub]> (distSet s))
                                       (dist_logged s))
      end
  | None => panic "assignment to entry in nil map"
  end.

(** [d.ReceiveGRPC(families)], up to the call of [sendToHubs]: the batches
    handed over for sending. *)
Definition ReceiveGRPC (d : Distributor) (families : list MetricFamily)
  : M DistState DistSet :=
  modify (fun s => mkDistState
                     (foldr (fun hub ds => <[hub := ∅]> ds) ∅ (edgeHubArray d))
                     (dist_logged s));;
  for_each families
    (fun fam => for_each (Metrics fam) (route d fam));;
  gets distSet.

End distributor.

Import distributor.

(** * Vocabulary of the statements

    Predicates, drivers and example data used by the properties below;
    none of them is part of the program. *)

(** ** Labels and names *)

(** [a] may stand before [b]. *)
Definition name_le (a b : LabelPair) : Prop := label_less b a = false.

Definition canonical (metric : Metric) : Metric :=
  mkMetric (sortSlice (Label metric)) (Value metric) (TimestampMs metric).

(** The strings of a list, one after the other. *)
Definition join (l : list string) : string := foldr String.append ""%string l.

(** ** Sequences of operations *)

(** A push as the handler sees it. *)
Record Push : Type := mkPush {
  parsed : string + list MetricFamily;
  contentLength : Z;
  at_time : Z
}.

Definition push `{Runtime} (p : Push) (w : World) : World :=
  snd (Receive (parsed p) (contentLength p) (at_time p) w).

Definition pushes `{Runtime} (ps : list Push) (w : World) : World :=
  fold_left (fun w p => push p w) ps w.

(** The number of samples of a batch, as a number. *)
Definition sample_count (fams : list MetricFamily) : Z :=
  foldr (fun fam n => (len (Metrics fam) + n)%Z) 0%Z fams.

(** What can be done to a hub. *)
Inductive Op : Type :=
| OpPush (p : Push)
| OpScrape (sch : Schedule) (now : Z)
| OpDebug (verbose hostname : string) (sch : Schedule).

Definition run_op `{Runtime} `{Expfmt} (o : Op) (w : World) : World :=
  match o with
  | OpPush p => push p w
  | OpScrape sch now => snd (Scrape sch now w)
  | OpDebug verbose hostname sch => snd (Debug verbose hostname sch w)
  end.

Definition run_ops `{Runtime} `{Expfmt} (ops : list Op) (w : World) : World :=
  fold_left (fun w o => run_op o w) ops w.

(** ** What an operation leaves alone *)

(** Merging touches the memory and the family map only. *)
Definition same_settings (w w' : World) : Prop :=
  limit (hub w') = limit (hub w) /\ stats (hub w') = stats (hub w) /\
  scrapeTimeout (hub w') = scrapeTimeout (hub w) /\
  hubSize w' = hubSize w /\ hubLimit w' = hubLimit w /\ logged w' = logged w.

(** The state after an accepted push, from the state after its merge. *)
Definition accepted_state (fams : list MetricFamily) (size now : Z) (w1 : World)
  : World :=
  let w2 := set_hub (set_stats (received now size (len fams) (count_new fams)
                                         (stats (hub w1))) (hub w1)) w1 in
  set_hubSize (currentCountDatapoints (stats (hub w2))) w2.

(** The counter and the gauge never pass a positive limit. *)
Definition within_limit (L : Z) (w : World) : Prop :=
  limit (hub w) = L /\ (currentCountDatapoints (stats (hub w)) <= L)%Z /\
  (hubSize w <= L)%Z.

(** The text the workers produce for a family, if the encoder accepts it. *)
Definition rendered `{Expfmt} (m : Mem) (f : familyAndMetrics) : option string :=
  match familyToString (popDatapoints m f) with
  | inr text => Some text
  | inl _ => None
  end.

(** The warning a family leaves when the encoder refuses it. *)
Definition warning `{Expfmt} (m : Mem) (f : familyAndMetrics) : option LogEntry :=
  match familyToString (popDatapoints m f) with
  | inr _ => None
  | inl _ => Some (LogDropped (GetName (family f)))
  end.

Definition with_logs (es : list LogEntry) (w : World) : World :=
  mkWorld (mem w) (hub w) (hubSize w) (hubLimit w) (es ++ logged w).

(** Rendering writes the log only. *)
Definition same_but_log (w w' : World) : Prop :=
  mem w' = mem w /\ hub w' = hub w /\ hubSize w' = hubSize w /\
  hubLimit w' = hubLimit w.

(** ** Queues in memory

    The conditions under which the headers of the store and the memory
    fit together: every header points to an array of its capacity, and no
    two headers share an array. *)

Definition wf_slice (m : Mem) (q : slice) : Prop :=
  exists a, m !! s_ptr q = Some a /\ length a = s_cap q /\ s_len q <= s_cap q.

Definition writes_only (p : nat) (m m' : Mem) : Prop :=
  length m <= length m' /\
  forall i a, m !! i = Some a ->
    exists a', m' !! i = Some a' /\ length a' = length a /\ (i <> p -> a' = a).

Definition wf_queues (m : Mem) (qs : Queues) : Prop :=
  (forall k q, qs !! k = Some q -> wf_slice m q) /\
  (forall k1 k2 q1 q2, qs !! k1 = Some q1 -> qs !! k2 = Some q2 ->
                       s_ptr q1 = s_ptr q2 -> k1 = k2).

Definition owns (qs : Queues) (p : nat) : Prop :=
  exists k q, qs !! k = Some q /\ s_ptr q = p.

(** How the memory and the queues of one family may differ after some
    of the samples [new] have been merged. *)
Definition evolves (m : Mem) (qs : Queues) (m' : Mem) (qs' : Queues)
    (new : list Metric) : Prop :=
  length m <= length m' /\
  (forall i a, m !! i = Some a -> ~ owns qs i -> m' !! i = Some a) /\
  (forall i a, m !! i = Some a -> exists a', m' !! i = Some a' /\ length a' = length a) /\
  (forall p, owns qs' p -> owns qs p \/ length m <= p) /\
  (forall k q' c, qs' !! k = Some q' -> c ∈ view m' q' ->
     (exists x, x ∈ new /\ c = Some (canonical x)) \/
     (exists q, qs !! k = Some q /\ c ∈ view m q)).

(** One sample merged, by the loop of [newFamilyAndMetrics] or by the
    loop of [addMetrics]. *)
Definition merge_step `{Runtime} (fresh_family : bool)
  : string -> Metric -> M (Mem * Queues) unit :=
  if fresh_family then newFamily_step else addMetrics_step.

Definition wf_store (m : Mem) (fs : gmap string familyAndMetrics) : Prop :=
  (forall fk f, fs !! fk = Some f -> wf_queues m (metrics f)) /\
  (forall fk1 fk2 f1 f2 p, fs !! fk1 = Some f1 -> fs !! fk2 = Some f2 ->
     owns (metrics f1) p -> owns (metrics f2) p -> fk1 = fk2).

Definition stored (m : Mem) (fs : gmap string familyAndMetrics) (x : Metric) : Prop :=
  exists fk f k q, fs !! fk = Some f /\ metrics f !! k = Some q /\ Some x ∈ view m q.

Definition wf_world (w : World) : Prop :=
  wf_store (mem w) (metricFamiliesByName (hub w)).

(** ** Batches of the distributor *)

(** The value of the key label of a sample, the empty string when the
    sample does not carry the label. *)
Definition key_of (d : Distributor) (met : Metric) : string :=
  from_option lp_GetValue ""%string
    (find (fun l => String.eqb (lp_GetName l) (keyLabel d)) (Label met)).

(** The samples gathered for a hub under a family name. *)
Definition placed (ds : DistSet) (hub name : string) : list Metric :=
  from_option Metrics [] (ds !! hub ≫= fun inHub => inHub !! name).

(** The samples of a batch that the ring gives to [hub] under [name]. *)
Definition owed (d : Distributor) (families : list MetricFamily)
    (hub name : string) : list Metric :=
  concat ((fun fam =>
             if decide (GetName fam = name)
             then filter (fun met => ring d (key_of d met) = Some hub) (Metrics fam)
             else []) <$> families).

(** Every label of the sample has a name. *)
Definition named (met : Metric) : Prop :=
  Forall (fun l => is_Some (lp_Name l)) (Label met).

(** Every family gathered for a hub carries the name, help and type of a
    family of the batch, and is filed under that name. *)
Definition from_batch (families : list MetricFamily) (ds : DistSet) : Prop :=
  forall h inHub n f, ds !! h = Some inHub -> inHub !! n = Some f ->
    exists fam, fam ∈ families /\ GetName fam = n /\
                Name f = Name fam /\ Help f = Help fam /\ Type_ f = Type_ fam.

(** ** A stand-in for the encoder

    To run examples, [text_encoder] plays the part of the library's
    encoder: like it, it refuses a family without a name or without
    metrics, and writes the [HELP] and [TYPE] comments and one line per
    sample.  Observed values are printed as integers. *)

Definition nl : string := String (ascii_of_nat 10) "".
Definition quote : string := String (ascii_of_nat 34) "".
Definition show_int (z : Z) : string := NilZero.string_of_int (Z.to_int z).

Definition show_type (t : option MetricType) : string :=
  match default COUNTER t with
  | COUNTER => "counter"
  | GAUGE => "gauge"
  | SUMMARY => "summary"
  | UNTYPED => "untyped"
  | HISTOGRAM => "histogram"
  end.

Definition show_value (v : Payload) : string :=
  match v with
  | CounterValue n | GaugeValue n | UntypedValue n => show_int n
  | _ => "0"
  end.

Definition show_pair (l : LabelPair) : string :=
  lp_GetName l +:+ "=" +:+ quote +:+ lp_GetValue l +:+ quote.

Fixpoint show_pairs (ls : list LabelPair) : string :=
  match ls with
  | [] => ""
  | [l] => show_pair l
  | l :: ls' => show_pair l +:+ "," +:+ show_pairs ls'
  end.

Definition show_sample (name : string) (m : Metric) : string :=
  name
  +:+ match Label m with [] => "" | ls => "{" +:+ show_pairs ls +:+ "}" end
  +:+ " " +:+ show_value (Value m)
  +:+ match TimestampMs m with Some t => " " +:+ show_int t | None => "" end
  +:+ nl.

Definition text_encoder : Expfmt := fun fam =>
  if String.eqb (GetName fam) "" then inl "MetricFamily has no name"%string
  else match Metrics fam with
       | [] => inl "MetricFamily has no metrics"%string
       | ms =>
           inr (match Help fam with
                | Some h => "# HELP " +:+ GetName fam +:+ " " +:+ h +:+ nl
                | None => ""
                end
                +:+ "# TYPE " +:+ GetName fam +:+ " " +:+ show_type (Type_ fam) +:+ nl
                +:+ join (show_sample (GetName fam) <$> ms))
       end.

(** ** Example data, after the tests of the repository *)

Definition counter (v t : Z) : Metric := mkMetric [] (CounterValue v) (Some t).

(** The family of [assertTimestampsSortedProperly], and the family with
    the blank name of [assertWorkerPoolHandlesError]. *)
Definition mf : MetricFamily :=
  mkMetricFamily (Some "mf1"%string) None None
                 [counter 456 3; counter 123 1; counter 234 2].
Definition errorFamily : MetricFamily :=
  mkMetricFamily (Some ""%string) None None
                 [counter 456 3; counter 123 1; counter 234 2].

Definition expectedExpositionText : string :=
  "# TYPE mf1 counter" +:+ nl +:+ "mf1 123 1" +:+ nl +:+ "mf1 234 2" +:+ nl
  +:+ "mf1 456 3" +:+ nl.

(** The hub of [assertWorkerPoolHandlesError] after its push. *)
Definition hub_with_error_family : World :=
  snd (@hubMetrics doubling [mf; errorFamily] (NewMetricHub 0 10)).

Definition mf1 (timestamps : list Z) : MetricFamily :=
  mkMetricFamily (Some "mf1"%string) None (Some COUNTER)
                 ((fun t => counter t t) <$> timestamps).

(** The timestamps a queue of the hub shows. *)
Definition shown (w : World) (familyName seriesName : string) : list (option Z) :=
  match metricFamiliesByName (hub w) !! familyName with
  | Some f =>
      match metrics f !! seriesName with
      | Some q => (fun c => c ≫= TimestampMs) <$> view (mem w) q
      | None => []
      end
  | None => []
  end.

(** ** Vocabulary of the further properties *)

(** [a] may be queued before [b]: both carry a timestamp, and that of [a]
    is not the later one. *)
Definition before (a b : Metric) : Prop :=
  exists ta tb, TimestampMs a = Some ta /\ TimestampMs b = Some tb /\ (ta <= tb)%Z.

(** A queue in timestamp order.  It is never empty; a queue of one sample
    is in order whether or not the sample carries a timestamp. *)
Definition chronological (xs : list Metric) : Prop :=
  xs <> [] /\ StronglySorted before xs.

(** [x] carries a later timestamp than [el]. *)
Definition later (x el : Metric) : bool :=
  match TimestampMs x, TimestampMs el with
  | Some a, Some b => (a >? b)%Z
  | _, _ => false
  end.

(** [el] put in front of the first sample that is later than it, at the
    end when there is none. *)
Fixpoint place (el : Metric) (xs : list Metric) : list Metric :=
  match xs with
  | [] => [el]
  | x :: xs' => if later x el then el :: xs else x :: place el xs'
  end.

(** The samples the queues of a family show, series by series. *)
Abbreviation Contents := (gmap string (list Metric)).

Definition shows (m : Mem) (qs : Queues) (aq : Contents) : Prop :=
  forall k, view m <$> qs !! k = fmap Some <$> aq !! k.

Definition nil_dereference : string :=
  "invalid memory address or nil pointer dereference".

(** What merging one sample [el] under the series name [name] does to the
    contents of a family whose queues are in timestamp order. *)
Definition merged (fresh_family : bool) (name : string) (el : Metric)
    (aq : Contents) (r : Res unit) (aq' : Contents) : Prop :=
  match aq !! name with
  | None => r = Ok tt /\ aq' = <[name := [el]]> aq
  | Some xs =>
      match TimestampMs el with
      | None => r = Panic nil_dereference /\ aq' = aq
      | Some t =>
          match last xs with
          | None => r = Panic "index out of range [-1]" /\ aq' = aq
          | Some l =>
              match TimestampMs l with
              | None => r = Panic nil_dereference /\ aq' = aq
              | Some tl =>
                  r = Ok tt /\
                  if fresh_family || (t >=? tl)%Z
                  then aq' = <[name := place el xs]> aq
                  else aq' = aq \/ aq' = <[name := removelast (place el xs)]> aq
              end
          end
      end
  end.

(** What merging the samples [new], one after the other, does to the
    contents of a family. *)
Fixpoint merged_all (fresh_family : bool) (familyName : string)
    (new : list Metric) (aq : Contents) (r : Res unit) (aq' : Contents) : Prop :=
  match new with
  | [] => r = Ok tt /\ aq' = aq
  | x :: new' =>
      exists r1 aq1,
        merged fresh_family (fst (makeLabeledName x familyName)) (canonical x)
               aq r1 aq1 /\
        match r1 with
        | Ok _ => merged_all fresh_family familyName new' aq1 r aq'
        | Panic why => r = Panic why /\ aq' = aq1
        end
  end.

(** The samples a family's queues show, nil pointers left out. *)
Definition contents_of (m : Mem) (qs : Queues) : Contents :=
  (fun q => omap id (view m q)) <$> qs.

(** Every family of the store is filed under its own name and keeps its
    samples in the queues only. *)
Definition keyed (fs : gmap string familyAndMetrics) : Prop :=
  forall fk f, fs !! fk = Some f ->
    GetName (family f) = fk /\ Metrics (family f) = [].

(** Every queue of the store shows samples, no nil pointer, of which [P]
    holds. *)
Definition queues_are (P : list Metric -> Prop) (m : Mem)
    (fs : gmap string familyAndMetrics) : Prop :=
  forall fk f k q, fs !! fk = Some f -> metrics f !! k = Some q ->
    exists xs, view m q = Some <$> xs /\ P xs.

Definition hub_inv (w : World) : Prop :=
  wf_world w /\ keyed (metricFamiliesByName (hub w)) /\
  queues_are chronological (mem w) (metricFamiliesByName (hub w)).

Definition timestamped (x : Metric) : Prop := is_Some (TimestampMs x).

(** The samples of a batch that belong to the series [k] of the family. *)
Definition series (familyName k : string) (new : list Metric) : list Metric :=
  filter (fun x => fst (makeLabeledName x familyName) = k) new.

(** Samples placed one after the other into an empty queue. *)
Definition sort_by_time (queue new : list Metric) : list Metric :=
  fold_left (fun acc x => place (canonical x) acc) new queue.

(** The samples a hub shows for the series [k] of the family [fk]. *)
Definition queue_of (w : World) (fk k : string) : option (list Metric) :=
  metricFamiliesByName (hub w) !! fk ≫= fun f => contents_of (mem w) (metrics f) !! k.

(** The contents of a family of the hub, empty when it has none. *)
Definition family_contents (w : World) (fk : string) : Contents :=
  from_option (fun f => contents_of (mem w) (metrics f)) ∅
              (metricFamiliesByName (hub w) !! fk).

(** Every sample of every push of the run carries a timestamp. *)
Definition timestamped_op (o : Op) : Prop :=
  match o with
  | OpPush p =>
      match parsed p with
      | inr fams => Forall (fun fam => Forall timestamped (Metrics fam)) fams
      | inl _ => True
      end
  | _ => True
  end.

(** Every sample the hub holds carries a timestamp. *)
Definition all_timestamped (w : World) : Prop :=
  forall fk k xs, family_contents w fk !! k = Some xs -> Forall timestamped xs.

Definition is_debug (o : Op) : bool :=
  match o with OpDebug _ _ _ => true | _ => false end.

(** The samples a scrape of the hub would hand to the encoder. *)
Definition buffered (w : World) : list Metric :=
  (map_to_list (metricFamiliesByName (hub w))).*2 ≫=
    fun f => Metrics (popDatapoints (mem w) f).

(** The number of series queues of the hub. *)
Definition series_count (w : World) : Z :=
  foldr (fun f n => (Z.of_nat (size (metrics f)) + n)%Z) 0%Z
        (map_to_list (metricFamiliesByName (hub w))).*2.

(** Every family of every push of the run has a name pointer, as the
    families the text parser returns have. *)
Definition named_op (o : Op) : Prop :=
  match o with
  | OpPush p =>
      match parsed p with
      | inr fams => Forall (fun fam => is_Some (Name fam)) fams
      | inl _ => True
      end
  | _ => True
  end.

(** Every family of the store has a name pointer. *)
Definition all_named (fs : gmap string familyAndMetrics) : Prop :=
  forall fk f, fs !! fk = Some f -> is_Some (Name (family f)).

(** All samples a family's queues show, series after series. *)
Definition all_samples (aq : Contents) : list Metric :=
  concat (map_to_list aq).*2.

(** The encoder accepts the family and writes [text] for it. *)
Definition encodes `{Expfmt} (fam : MetricFamily) (text : string) : Prop :=
  MetricFamilyToText fam = inr text.

Definition nil_map_assignment : string := "assignment to entry in nil map".

(** The distributor keeps one slot for every hub it was given, and no
    other. *)
Definition slots_of (d : Distributor) (ds : DistSet) : Prop :=
  forall h, is_Some (ds !! h) <-> h ∈ edgeHubArray d.

(** The ring of the distributor names hubs it was given only. *)
Definition ring_within (d : Distributor) : Prop :=
  forall key hub, ring d key = Some hub -> hub ∈ edgeHubArray d.

(** A label that has a name, other than [keyLabel]. *)
Definition other_label (keyLabel : string) (l : LabelPair) : Prop :=
  exists n, lp_Name l = Some n /\ n <> keyLabel.

(** A string without the underscore. *)
Fixpoint plain (s : string) : bool :=
  match s with
  | EmptyString => true
  | String c s' => negb (Ascii.eqb c "_") && plain s'
  end.

(** The names and values of labels, as the getters read them. *)
Definition pairs (labels : list LabelPair) : list (string * string) :=
  (fun l => (lp_GetName l, lp_GetValue l)) <$> labels.

Definition plain_labels (metric : Metric) : Prop :=
  Forall (fun l => plain (lp_GetName l) = true /\ plain (lp_GetValue l) = true)
         (Label metric).

(** A push of the families [fams], as the examples need it. *)
Definition pushed (fams : list MetricFamily) : Op :=
  OpPush (mkPush (inr fams) 64 1559953047).

(** A sample without a timestamp, as the text parser makes it of a line
    that gives none, and a family of it. *)
Definition untimed : Metric := mkMetric [] (GaugeValue 7) None.
Definition untimedFamily : MetricFamily :=
  mkMetricFamily (Some "up"%string) None (Some GAUGE) [untimed].

(** A family whose name pointer is nil. *)
Definition unnamedFamily : MetricFamily :=
  mkMetricFamily None None None [counter 1 1].

(** The family and the sample of the README of the distributor's tests,
    and a distributor with one hub that owns every key. *)
Definition hostA : Metric :=
  mkMetric [mkLabelPair (Some "host"%string) (Some "A"%string)]
           (GaugeValue 1027) (Some 1395066363000%Z).
Definition cpu_usage : MetricFamily :=
  mkMetricFamily (Some "cpu_usage"%string) (Some "The total CPU usage."%string)
                 (Some GAUGE) [hostA].
Definition one_hub : Distributor :=
  mkDistributor "host" ["hub1:9092"%string] (fun _ => Some "hub1:9092"%string).
Definition no_hub : Distributor := mkDistributor "host" [] (fun _ => None).

(** * Properties *)

(** ** Strings in byte order *)

Section string_order.

Lemma ltb_lt (a b : string) : String.ltb a b = true <-> String_as_OT.lt a b.
Proof.
  rewrite <- String_as_OT.cmp_lt. unfold String.ltb, String_as_OT.cmp.
  destruct (String.compare a b); split; congruence.
Qed.

Lemma ltb_irrefl (a : string) : String.ltb a a = false.
Proof.
  destruct (String.ltb a a) eqn:E; [|done].
  apply ltb_lt in E. by apply String_as_OT.lt_not_eq in E.
Qed.

Lemma ltb_trans (a b c : string) :
  String.ltb a b = true -> String.ltb b c = true -> String.ltb a c = true.
Proof. rewrite !ltb_lt. apply String_as_OT.lt_trans. Qed.

Lemma ltb_asym (a b : string) : String.ltb a b = true -> String.ltb b a = false.
Proof.
  intros Hab. destruct (String.ltb b a) eqn:E; [|done].
  pose proof (ltb_trans _ _ _ Hab E) as Haa. by rewrite ltb_irrefl in Haa.
Qed.

Lemma ltb_total (a b : string) :
  String.ltb a b = false -> String.ltb b a = false -> a = b.
Proof.
  unfold String.ltb. rewrite (String.compare_antisym a b).
  destruct (String.compare b a) eqn:E; simpl; try congruence.
  intros _ _. symmetry. by apply String.compare_eq_iff.
Qed.

End string_order.

(** ** Sorting the labels *)

Section labels.

Lemma name_le_trans (a b c : LabelPair) : name_le a b -> name_le b c -> name_le a c.
Proof.
  unfold name_le, label_less. intros Hab Hbc.
  destruct (String.ltb (lp_GetName c) (lp_GetName a)) eqn:Hca; [|done].
  destruct (String.ltb (lp_GetName c) (lp_GetName b)) eqn:Hcb; [congruence|].
  destruct (String.ltb (lp_GetName b) (lp_GetName c)) eqn:Hbc'.
  - pose proof (ltb_trans _ _ _ Hbc' Hca). congruence.
  - pose proof (ltb_total _ _ Hcb Hbc') as Heq. rewrite Heq in Hca. congruence.
Qed.

Lemma sink_perm (x : LabelPair) (r : list LabelPair) : sink x r ≡ₚ x :: r.
Proof.
  induction r as [|y r IH]; simpl; [done|].
  destruct (label_less x y); [|done].
  rewrite IH. apply Permutation_swap.
Qed.

Lemma sink_sorted (x : LabelPair) (r : list LabelPair) :
  StronglySorted (flip name_le) r -> StronglySorted (flip name_le) (sink x r).
Proof.
  induction 1 as [|y r Hr IH Hy]; simpl.
  - repeat constructor.
  - destruct (label_less x y) eqn:Hxy.
    + constructor; [done|].
      rewrite sink_perm. constructor; [|done].
      unfold flip, name_le, label_less in *. by apply ltb_asym.
    + constructor; [by constructor|].
      constructor; [exact Hxy|].
      eapply Forall_impl; [exact Hy|].
      intros z Hz. unfold flip in *. by eapply name_le_trans.
Qed.

Lemma fold_sink_perm (l acc : list LabelPair) :
  fold_left (fun acc x => sink x acc) l acc ≡ₚ l ++ acc.
Proof.
  revert acc. induction l as [|x l IH]; intros acc; simpl; [done|].
  rewrite IH, sink_perm. by rewrite Permutation_middle.
Qed.

Lemma fold_sink_sorted (l acc : list LabelPair) :
  StronglySorted (flip name_le) acc ->
  StronglySorted (flip name_le) (fold_left (fun acc x => sink x acc) l acc).
Proof.
  revert acc. induction l as [|x l IH]; intros acc Hacc; simpl; [done|].
  by apply IH, sink_sorted.
Qed.

Lemma rev_sorted (r : list LabelPair) :
  StronglySorted (flip name_le) r -> StronglySorted name_le (rev r).
Proof.
  induction 1 as [|y r Hr IH Hy]; simpl; [constructor|].
  apply StronglySorted_app_2; [|done|repeat constructor].
  intros x1 x2 Hx1 Hx2. apply list_elem_of_singleton in Hx2 as ->.
  rewrite Forall_forall in Hy. apply Hy.
  by apply list_elem_of_In, in_rev, list_elem_of_In.
Qed.

Lemma sortSlice_perm (labels : list LabelPair) : sortSlice labels ≡ₚ labels.
Proof.
  unfold sortSlice. rewrite <- Permutation_rev, fold_sink_perm.
  by rewrite app_nil_r.
Qed.

Lemma sortSlice_sorted (labels : list LabelPair) :
  StronglySorted name_le (sortSlice labels).
Proof. apply rev_sorted, fold_sink_sorted. constructor. Qed.

(** With distinct names there is one sorted arrangement of the labels:
    whatever sorting procedure the library runs, the slice it leaves is
    the one computed here. *)
Lemma sorted_by_name_unique (l1 l2 : list LabelPair) :
  NoDup (lp_GetName <$> l1) ->
  StronglySorted name_le l1 -> StronglySorted name_le l2 -> l1 ≡ₚ l2 ->
  l1 = l2.
Proof.
  intros Hnd H1 H2 Hp.
  apply (StronglySorted_unique_strong name_le); [|done..].
  intros x1 x2 Hx1 Hx2 H12 H21.
  rewrite <- Hp in Hx2.
  assert (lp_GetName x1 = lp_GetName x2) as Hn by (by apply ltb_total).
  clear -Hnd Hx1 Hx2 Hn.
  induction l1 as [|y l IH]; [by apply elem_of_nil in Hx1|].
  simpl in Hnd. apply NoDup_cons in Hnd as [Hy Hnd].
  apply elem_of_cons in Hx1 as [->|Hx1]; apply elem_of_cons in Hx2 as [->|Hx2];
    try done.
  - exfalso. apply Hy. rewrite Hn. by apply list_elem_of_fmap_2.
  - exfalso. apply Hy. rewrite <- Hn. by apply list_elem_of_fmap_2.
  - by apply IH.
Qed.

Lemma sortSlice_permutation_invariant (l1 l2 : list LabelPair) :
  NoDup (lp_GetName <$> l1) -> l1 ≡ₚ l2 -> sortSlice l1 = sortSlice l2.
Proof.
  intros Hnd Hp. apply sorted_by_name_unique.
  - by rewrite sortSlice_perm.
  - apply sortSlice_sorted.
  - apply sortSlice_sorted.
  - by rewrite !sortSlice_perm.
Qed.

End labels.

(** ** Running the monad *)

Ltac mrun := cbv beta iota zeta delta
  [bind ret gets get modify panic deref lookup_queue store_queue in_mem
   slice_of_one alloc load store last_of index set_index copy_up append].

Lemma run_bind {St A B : Type} (c : M St A) (k : A -> M St B) (s : St) :
  bind c k s = match c s with
               | (Ok a, s') => k a s'
               | (Panic w, s') => (Panic w, s')
               end.
Proof. reflexivity. Qed.

Lemma for_each_app {St A : Type} (l1 l2 : list A) (body : A -> M St unit) (s : St) :
  for_each (l1 ++ l2) body s =
  match for_each l1 body s with
  | (Ok _, s') => for_each l2 body s'
  | (Panic w, s') => (Panic w, s')
  end.
Proof.
  revert s. induction l1 as [|x l1 IH]; intros s; simpl; [done|].
  rewrite !run_bind. destruct (body x s) as [[[]|w] s']; [apply IH|done].
Qed.

(** ** The canonical labeled name *)

Section canonical_name.

Lemma append_assoc (a b c : string) : (a +:+ b) +:+ c = a +:+ (b +:+ c).
Proof.
  induction a as [|x a IH]; [done|].
  change (String x ((a +:+ b) +:+ c) = String x (a +:+ b +:+ c)).
  by rewrite IH.
Qed.

Lemma append_empty_r (a : string) : a +:+ "" = a.
Proof.
  induction a as [|x a IH]; [done|].
  change (String x (a +:+ "") = String x a). by rewrite IH.
Qed.

Lemma fold_segments (labels : list LabelPair) (init : string) :
  fold_left (fun acc l => acc +:+ segment l) labels init
  = init +:+ join (segment <$> labels).
Proof.
  revert init. induction labels as [|l labels IH]; intros init.
  - simpl. by rewrite append_empty_r.
  - rewrite fmap_cons. cbn [fold_left join foldr].
    rewrite IH. apply append_assoc.
Qed.

Lemma makeLabeledName_fst (metric : Metric) (metricName : string) :
  fst (makeLabeledName metric metricName)
  = metricName +:+ join (segment <$> sortSlice (Label metric)).
Proof. unfold makeLabeledName. simpl. apply fold_segments. Qed.

Lemma makeLabeledName_snd (metric : Metric) (metricName : string) :
  snd (makeLabeledName metric metricName)
  = mkMetric (sortSlice (Label metric)) (Value metric) (TimestampMs metric).
Proof. reflexivity. Qed.

Lemma makeLabeledName_eta (metric : Metric) (metricName : string) :
  makeLabeledName metric metricName
  = (fst (makeLabeledName metric metricName),
     mkMetric (sortSlice (Label metric)) (Value metric) (TimestampMs metric)).
Proof. reflexivity. Qed.

End canonical_name.

Section canonicalisation_claims.

Context `{Runtime}.

(** C5.  The canonical labeled name is the family name followed by one
    [_name_value] segment per label pair, the pairs taken in the byte
    order of their names; it does not depend on the order in which a
    sample carries its label pairs (label names within a sample being
    distinct), and so two pushes of samples with the same label pairs in
    different orders leave the hub with one family holding one queue. *)
Theorem label_canonicalisation (fam1 fam2 : MetricFamily) (m1 m2 : Metric)
    (t1 t2 limit timeout : Z) :
  NoDup (lp_GetName <$> Label m1) ->
  Label m1 ≡ₚ Label m2 ->
  TimestampMs m1 = Some t1 -> TimestampMs m2 = Some t2 ->
  GetName fam1 = GetName fam2 -> Metrics fam1 = [m1] -> Metrics fam2 = [m2] ->
  let name := GetName fam1 +:+ join (segment <$> sortSlice (Label m1)) in
  sortSlice (Label m1) ≡ₚ Label m1 /\
  StronglySorted name_le (sortSlice (Label m1)) /\
  fst (makeLabeledName m1 (GetName fam1)) = name /\
  fst (makeLabeledName m2 (GetName fam2)) = name /\
  exists w f,
    (hubMetrics [fam1];; hubMetrics [fam2]) (NewMetricHub limit timeout) = (Ok tt, w) /\
    metricFamiliesByName (hub w) = {[ GetName fam1 := f ]} /\
    dom (metrics f) = {[ name ]}.
Proof.
  intros Hnd Hp T1 T2 Hfam HM1 HM2 name.
  assert (fst (makeLabeledName m2 (GetName fam1)) = name) as Hn2.
  { rewrite makeLabeledName_fst. unfold name.
    by rewrite (sortSlice_permutation_invariant _ _ Hnd Hp). }
  split; [apply sortSlice_perm|]. split; [apply sortSlice_sorted|].
  split; [apply makeLabeledName_fst|]. split; [by rewrite <- Hfam|].
  unfold hubMetrics. simpl for_each. rewrite !run_bind.
  unfold hubMetrics_step at 1. simpl. rewrite lookup_empty.
  unfold newFamilyAndMetrics. rewrite HM1. simpl for_each.
  unfold newFamily_step. rewrite (makeLabeledName_eta m1), makeLabeledName_fst.
  fold name. mrun. simpl. rewrite lookup_empty. simpl.
  unfold hubMetrics_step. simpl. rewrite <- Hfam, lookup_insert_eq. simpl.
  unfold addMetrics. rewrite HM2. simpl for_each. unfold addMetrics_step.
  rewrite (makeLabeledName_eta m2).
  change (GetName (mkMetricFamily (Name fam1) (Help fam1) (Type_ fam1) []))
    with (GetName fam1).
  rewrite Hn2. mrun. simpl. rewrite lookup_insert_eq, T1, T2. simpl.
  destruct (t2 >=? t1)%Z eqn:Hge.
  - simpl. eexists _, _. split; [reflexivity|]. simpl.
    rewrite insert_insert_eq. split; [reflexivity|].
    simpl. by rewrite insert_insert_eq, dom_insert_L, dom_empty_L, (right_id_L ∅ (∪)).
  - assert ((t1 >? t2)%Z = true) as Hgt by lia.
    unfold sortedInsert, Search, later_than. simp Search_loop. simpl. mrun. simpl.
    rewrite Hgt. simpl. simp Search_loop. simpl.
    eexists _, _. split; [reflexivity|]. simpl.
    rewrite insert_insert_eq. split; [reflexivity|].
    simpl. by rewrite dom_insert_L, dom_empty_L, (right_id_L ∅ (∪)).
Qed.

(** C10.  The canonical labeled name does not determine the label set:
    the samples [{a="b_c"}] and [{a_b="c"}] of one family have different
    labels and the same canonical name, and the hub puts both in one
    queue. *)
Theorem labeled_name_not_injective :
  let s1 := mkMetric [mkLabelPair (Some "a") (Some "b_c")] (GaugeValue 1) (Some 1%Z) in
  let s2 := mkMetric [mkLabelPair (Some "a_b") (Some "c")] (GaugeValue 2) (Some 2%Z) in
  let push s := [mkMetricFamily (Some "m") (Some "help") (Some GAUGE) [s]] in
  Label s1 <> Label s2 /\
  (forall x : LabelPair, x ∈ Label s1 -> x ∉ Label s2) /\
  fst (makeLabeledName s1 "m") = "m_a_b_c"%string /\
  fst (makeLabeledName s2 "m") = "m_a_b_c"%string /\
  exists w f q,
    (hubMetrics (push s1);; hubMetrics (push s2)) (NewMetricHub 0 10) = (Ok tt, w) /\
    metricFamiliesByName (hub w) = {[ "m"%string := f ]} /\
    metrics f = {[ "m_a_b_c"%string := q ]} /\
    view (mem w) q = [Some s1; Some s2].
Proof.
  intros s1 s2 push. split; [discriminate|]. split.
  { intros x Hx Hx'. apply list_elem_of_singleton in Hx, Hx'. congruence. }
  split; [reflexivity|]. split; [reflexivity|].
  eexists _, _, _. split; [vm_compute; reflexivity|].
  split; [reflexivity|]. split; reflexivity.
Qed.

End canonicalisation_claims.

Lemma label_canonicalisation_witness :
  fst (makeLabeledName
         (mkMetric [mkLabelPair (Some "code") (Some "400");
                    mkLabelPair (Some "method") (Some "post")]
                   (CounterValue 3) (Some 1395066363010%Z))
         "http_requests_total")
  = "http_requests_total_code_400_method_post"%string.
Proof.
  pose (m1 := mkMetric [mkLabelPair (Some "method") (Some "post");
                        mkLabelPair (Some "code") (Some "400")]
                       (CounterValue 3) (Some 1395066363021%Z)).
  pose (m2 := mkMetric [mkLabelPair (Some "code") (Some "400");
                        mkLabelPair (Some "method") (Some "post")]
                       (CounterValue 3) (Some 1395066363010%Z)).
  pose (fam := fun m => mkMetricFamily (Some "http_requests_total"%string)
                          (Some "The total number of HTTP requests."%string)
                          (Some COUNTER) [m]).
  assert (NoDup (lp_GetName <$> Label m1)) as Hnd
    by (refine (bool_decide_unpack _ _); vm_compute; exact I).
  assert (Label m1 ≡ₚ Label m2) as Hp by apply perm_swap.
  exact (proj1 (proj2 (proj2 (proj2
    (@label_canonicalisation doubling (fam m1) (fam m2) m1 m2 _ _ 0%Z 10%Z
       Hnd Hp eq_refl eq_refl eq_refl eq_refl eq_refl))))).
Defined.

(** ** Admission control *)

Section admission.

Context `{Runtime}.

Lemma for_each_preserves {St A : Type} (P : St -> Prop) (l : list A)
    (body : A -> M St unit) :
  (forall x s, P s -> P (snd (body x s))) ->
  forall s, P s -> P (snd (for_each l body s)).
Proof.
  intros Hbody. induction l as [|x l IH]; intros s Hs; simpl; [done|].
  rewrite run_bind. specialize (Hbody x s Hs).
  destruct (body x s) as [[[]|why] s']; simpl in *; [by apply IH|done].
Qed.

Lemma wrap64_small (z : Z) : (- 2 ^ 63 <= z < 2 ^ 63)%Z -> wrap64 z = z.
Proof. intros Hz. unfold wrap64. rewrite Z.mod_small; lia. Qed.

Lemma sample_count_nonneg (fams : list MetricFamily) : (0 <= sample_count fams)%Z.
Proof. induction fams as [|fam fams IH]; simpl; unfold len; lia. Qed.

Lemma count_new_exact (fams : list MetricFamily) :
  (sample_count fams < 2 ^ 63)%Z -> count_new fams = sample_count fams.
Proof.
  unfold count_new.
  assert (forall acc, (0 <= acc)%Z -> (acc + sample_count fams < 2 ^ 63)%Z ->
          fold_left (fun n fam => int_add n (len (Metrics fam))) fams acc
          = (acc + sample_count fams)%Z) as Hgen.
  { induction fams as [|fam fams IH]; intros acc Hacc Hsum; simpl in *; [lia|].
    pose proof (sample_count_nonneg fams).
    assert (0 <= len (Metrics fam))%Z by (unfold len; lia).
    unfold int_add at 2. rewrite wrap64_small by lia.
    rewrite IH by lia. lia. }
  intros Hs. rewrite Hgen; lia.
Qed.

Lemma hubMetrics_step_settings (fam : MetricFamily) (w : World) :
  same_settings w (snd (hubMetrics_step fam w)).
Proof.
  unfold hubMetrics_step, same_settings.
  destruct (metricFamiliesByName (hub w) !! GetName fam) as [f|].
  - destruct (addMetrics _ _ _) as [r [m' queues]]. simpl. done.
  - destruct (newFamilyAndMetrics fam (mem w)) as [[f|why] m']; simpl; done.
Qed.

Lemma hubMetrics_settings (fams : list MetricFamily) (w : World) :
  same_settings w (snd (hubMetrics fams w)).
Proof.
  unfold hubMetrics.
  apply (for_each_preserves (same_settings w)); [|by repeat split].
  intros fam s (?&?&?&?&?&?).
  destruct (hubMetrics_step_settings fam s) as (?&?&?&?&?&?).
  repeat split; congruence.
Qed.

Lemma Receive_eq (fams : list MetricFamily) (size now : Z) (w : World) :
  Receive (inr fams) size now w =
  let cur := currentCountDatapoints (stats (hub w)) in
  if (limit (hub w) >? 0)%Z && (int_add cur (count_new fams) >? limit (hub w))%Z then
    (Ok (mkResponse StatusNotAcceptable
                    (OverfillText (count_new fams) (limit (hub w)) cur)),
     add_log (LogOverfill (count_new fams) (limit (hub w)) cur) w)
  else
    match hubMetrics fams w with
    | (Ok _, w1) => (Ok (mkResponse StatusOK NoContent), accepted_state fams size now w1)
    | (Panic why, w1) => (Panic why, w1)
    end.
Proof.
  unfold Receive. rewrite run_bind. unfold gets at 1. cbv beta iota zeta.
  destruct (_ && _); [reflexivity|].
  rewrite run_bind. destruct (hubMetrics fams w) as [[[]|?] ?]; reflexivity.
Qed.

Lemma push_within_limit (L : Z) (p : Push) (w : World) :
  (0 < L)%Z -> within_limit L w -> within_limit L (push p w).
Proof.
  intros HL (Hlim & Hcur & Hsize). unfold push.
  destruct (parsed p) as [err|fams]; [done|].
  rewrite Receive_eq. cbv zeta.
  destruct (_ && _) eqn:Hfull; [done|].
  pose proof (hubMetrics_settings fams w) as (Hlim' & Hstats & _ & Hsize' & _).
  destruct (hubMetrics fams w) as [[[]|why] w1]; simpl in *.
  - unfold within_limit. simpl. rewrite Hlim', Hstats, Hlim.
    apply andb_false_iff in Hfull as [Hf|Hf]; [lia|].
    rewrite Hlim in Hf. repeat split; lia.
  - unfold within_limit. by rewrite Hlim', Hstats, Hsize'.
Qed.


End admission.


(** ** Rendering and scraping *)

Section rendering.

Context `{Expfmt}.

Lemma processFamilyWorker_frame (fams : list familyAndMetrics) (w : World) :
  same_but_log w (snd (processFamilyWorker fams w)).
Proof.
  revert w. induction fams as [|f fams IH]; intros w; simpl; [done|].
  rewrite run_bind. unfold gets at 1. cbv beta iota.
  destruct (familyToString _).
  - rewrite run_bind. destruct (Name _); simpl; [|done].
    rewrite run_bind. unfold modify at 1. cbv beta iota. apply (IH (add_log _ w)).
  - rewrite run_bind. specialize (IH w).
    destruct (processFamilyWorker fams w) as [[results|why] w1]; done.
Qed.

Lemma exposeMetrics_frame (snapshot : gmap string familyAndMetrics)
    (workers : nat) (sch : Schedule) (w : World) :
  same_but_log w (snd (exposeMetrics snapshot workers sch w)).
Proof.
  unfold exposeMetrics. rewrite run_bind.
  pose proof (processFamilyWorker_frame (arrived snapshot sch) w) as Hf.
  destruct (processFamilyWorker _ _) as [[results|why] w1]; simpl in *; [|done].
  destruct (timer_first sch); done.
Qed.

(** Nothing to render: nothing rendered, nothing logged. *)
Lemma arrived_empty (sch : Schedule) : arrived ∅ sch = [].
Proof.
  unfold arrived. induction (arrival sch) as [|k keys IH]; simpl; [done|].
  by rewrite lookup_empty.
Qed.

Lemma Scrape_eq (sch : Schedule) (now : Z) (w : World) :
  Scrape sch now w =
  let snapshot := metricFamiliesByName (hub w) in
  match exposeMetrics snapshot scrapeWorkerPoolSize sch
                      (set_hub (set_families ∅ (hub w)) w) with
  | (Ok text, w1) =>
      (Ok (mkResponse StatusOK (Text text)),
       set_hubSize 0
         (set_hub (set_stats (scraped now (Z.of_nat (String.length text))
                                      (Z.of_nat (size snapshot))
                                      (stats (hub w1))) (hub w1)) w1))
  | (Panic why, w1) => (Panic why, w1)
  end.
Proof.
  unfold Scrape. rewrite run_bind. unfold gets at 1. cbv beta iota zeta.
  rewrite run_bind. unfold clearMetrics, modify at 1. cbv beta iota.
  rewrite run_bind.
  destruct (exposeMetrics _ _ _ _) as [[text|why] w1]; reflexivity.
Qed.

(** C2.  When a scrape has completed, the hub's family map is empty and
    the buffered-sample counter and the [hub_size] gauge are zero; a
    second scrape, whatever its schedule, then completes with status 200
    and an empty body, and leaves the hub in the same condition. *)
Theorem drain_on_scrape (w w' : World) (sch sch2 : Schedule) (now now2 : Z)
    (r : Response) :
  Scrape sch now w = (Ok r, w') ->
  status r = StatusOK /\
  metricFamiliesByName (hub w') = ∅ /\
  currentCountDatapoints (stats (hub w')) = 0%Z /\
  hubSize w' = 0%Z /\
  exists w'',
    Scrape sch2 now2 w' = (Ok (mkResponse StatusOK (Text "")), w'') /\
    metricFamiliesByName (hub w'') = ∅ /\
    currentCountDatapoints (stats (hub w'')) = 0%Z /\
    hubSize w'' = 0%Z.
Proof.
  intros Hscrape. rewrite Scrape_eq in Hscrape. cbv zeta in Hscrape.
  pose proof (exposeMetrics_frame (metricFamiliesByName (hub w))
                scrapeWorkerPoolSize sch (set_hub (set_families ∅ (hub w)) w))
    as (_ & Hhub & _).
  destruct (exposeMetrics _ _ _ _) as [[text|why] w1]; [|done].
  simpl in Hhub. injection Hscrape as <- <-. simpl.
  rewrite Hhub. simpl. repeat (split; [done|]).
  rewrite Scrape_eq. cbv zeta. simpl.
  unfold exposeMetrics. rewrite run_bind, arrived_empty. simpl.
  destruct (timer_first sch2); simpl; eexists; (split; [reflexivity|done]).
Qed.

(** When the timer's case of the final [select] fires, the text built so
    far is dropped: the scrape, if it completes, answers 200 with an empty
    body, and the store is empty by then.  (Whether the timer fires is for
    the scheduler and the clock to decide; here it is an input.) *)
Lemma scrape_when_timer_fires (w w' : World) (sch : Schedule) (now : Z)
    (r : Response) :
  timer_first sch = true ->
  Scrape sch now w = (Ok r, w') ->
  r = mkResponse StatusOK (Text "") /\
  metricFamiliesByName (hub w') = ∅ /\
  LogTimeout ∈ logged w'.
Proof.
  intros Htimer Hscrape. rewrite Scrape_eq in Hscrape. cbv zeta in Hscrape.
  unfold exposeMetrics in Hscrape. rewrite run_bind, Htimer in Hscrape.
  pose proof (processFamilyWorker_frame (arrived (metricFamiliesByName (hub w)) sch)
                (set_hub (set_families ∅ (hub w)) w)) as (_ & Hhub & _).
  destruct (processFamilyWorker _ _) as [[results|why] w1]; [|done].
  simpl in *. injection Hscrape as <- <-. simpl. rewrite Hhub.
  split; [done|]. split; [done|]. apply elem_of_cons. by left.
Qed.

Lemma join_app (l1 l2 : list string) : join (l1 ++ l2) = join l1 +:+ join l2.
Proof.
  induction l1 as [|a l1 IH]; [done|].
  change (a +:+ join (l1 ++ l2) = (a +:+ join l1) +:+ join l2).
  by rewrite IH, append_assoc.
Qed.

Lemma with_logs_nil (w : World) : with_logs [] w = w.
Proof. by destruct w. Qed.

Lemma with_logs_add (es : list LogEntry) (e : LogEntry) (w : World) :
  with_logs es (add_log e w) = with_logs (es ++ [e]) w.
Proof. unfold with_logs, add_log. simpl. by rewrite <- app_assoc. Qed.

(** What a render returns and logs when no family lacks its name pointer:
    the blocks of the families the encoder accepts, in the order of
    arrival, and a warning for each family it refuses. *)
Lemma processFamilyWorker_eq (fams : list familyAndMetrics) (w : World) :
  Forall (fun f => is_Some (Name (family f))) fams ->
  processFamilyWorker fams w =
  (Ok (omap (rendered (mem w)) fams),
   with_logs (reverse (omap (warning (mem w)) fams)) w).
Proof.
  intros Hnames. revert w.
  induction Hnames as [|f fams [n Hn] _ IH]; intros w; simpl.
  { by rewrite with_logs_nil. }
  rewrite run_bind. unfold gets at 1. cbv beta iota.
  unfold rendered at 1, warning at 1.
  destruct (familyToString (popDatapoints (mem w) f)) as [err|text].
  - rewrite run_bind. unfold popDatapoints, copyFamily at 1. simpl. rewrite Hn. simpl.
    rewrite run_bind. unfold modify at 1. cbv beta iota.
    rewrite IH. simpl. f_equal.
    rewrite reverse_cons, with_logs_add. unfold GetName. by rewrite Hn.
  - rewrite run_bind, IH. done.
Qed.

Lemma processFamilyStringsWorker_eq (results : list string) :
  processFamilyStringsWorker results = join results.
Proof.
  unfold processFamilyStringsWorker.
  assert (forall init, fold_left String.append results init = init +:+ join results)
    as Hgen; [|apply Hgen].
  induction results as [|r results IH]; intros init; simpl.
  - by rewrite append_empty_r.
  - rewrite IH. apply append_assoc.
Qed.

Lemma arrived_names (snapshot : gmap string familyAndMetrics) (sch : Schedule) :
  (forall k f, snapshot !! k = Some f -> is_Some (Name (family f))) ->
  Forall (fun f => is_Some (Name (family f))) (arrived snapshot sch).
Proof.
  intros Hnames. apply Forall_forall. intros f Hf.
  apply list_elem_of_omap in Hf as (k & _ & Hk). by eapply Hnames.
Qed.

(** A scrape completes when no family of the store lacks its name
    pointer. *)
Lemma Scrape_completes (w : World) (sch : Schedule) (now : Z) :
  (forall k f, metricFamiliesByName (hub w) !! k = Some f -> is_Some (Name (family f))) ->
  exists r w', Scrape sch now w = (Ok r, w').
Proof.
  intros Hnames. rewrite Scrape_eq. cbv zeta. unfold exposeMetrics.
  rewrite run_bind, (processFamilyWorker_eq _ _ (arrived_names _ _ Hnames)).
  cbv beta iota. destruct (timer_first sch); simpl; eauto.
Qed.


End rendering.

Section examples.

#[local] Instance example_runtime : Runtime := doubling.
#[local] Instance example_encoder : Expfmt := text_encoder.

Example timestamps_sorted_properly :
  let w := snd (hubMetrics [mf] (NewMetricHub 0 10)) in
  fst (exposeMetrics (metricFamiliesByName (hub w)) 1
                     (mkSchedule ["mf1"%string] false) w)
  = Ok expectedExpositionText.
Proof. vm_compute. reflexivity. Qed.

Lemma drain_on_scrape_witness :
  hubSize hub_with_error_family = 0%Z /\
  exists w'',
    Scrape (mkSchedule [] true) 1559953050
           (snd (Scrape (mkSchedule ["mf1"; ""]%string false) 1559953049
                        hub_with_error_family))
    = (Ok (mkResponse StatusOK (Text "")), w'').
Proof.
  split; [reflexivity|].
  pose (first := Scrape (mkSchedule ["mf1"; ""]%string false) 1559953049
                        hub_with_error_family).
  assert (first = (Ok (mkResponse StatusOK (Text expectedExpositionText)), snd first))
    as Hfirst by (vm_compute; reflexivity).
  destruct (drain_on_scrape _ _ _ (mkSchedule [] true) _ 1559953050 _ Hfirst)
    as (_ & _ & _ & _ & w'' & Hsecond & _).
  exists w''. exact Hsecond.
Defined.


End examples.

(** ** The out-of-order path of [addMetrics] *)

Section lost_samples.

(** C1, where the code departs from it.  A sample that arrives for a
    series of a family the hub already holds, with a timestamp below the
    last queued one, does not get into the queue.  Whatever the runtime's
    growth policy, after the pushes [5] and [3] the queue holds [5] alone.
    When the backing array has room (here after [5; 7], [8] with
    doubling), the sample [6] is written into the array and the queue,
    whose header keeps its length, shows [5; 6; 7]: the sample [8] is
    gone.  In a single push the same samples are queued in order by
    [newFamilyAndMetrics]. *)
Theorem out_of_order_sample_lost :
  (forall rt : Runtime,
     let w := snd ((@hubMetrics rt [mf1 [5%Z]];; @hubMetrics rt [mf1 [3%Z]])
                     (NewMetricHub 0 10)) in
     shown w "mf1" "mf1" = [Some 5%Z]) /\
  (let w := snd ((@hubMetrics doubling [mf1 [5; 7]%Z];;
                  @hubMetrics doubling [mf1 [8%Z]];;
                  @hubMetrics doubling [mf1 [6%Z]]) (NewMetricHub 0 10)) in
   shown w "mf1" "mf1" = [Some 5; Some 6; Some 7]%Z) /\
  (let w := snd (@hubMetrics doubling [mf1 [5; 7; 8; 6]%Z] (NewMetricHub 0 10)) in
   shown w "mf1" "mf1" = [Some 5; Some 6; Some 7; Some 8]%Z).
Proof.
  split; [|split].
  - intros rt. vm_compute. reflexivity.
  - vm_compute. reflexivity.
  - vm_compute. reflexivity.
Qed.

(** C4, where the code departs from it.  After the pushes [5] and [3] of
    one series both are accepted with status 200, the buffered-sample
    counter and the [hub_size] gauge are 2, and the one queue of the hub
    holds one sample. *)
Theorem counter_exceeds_queue_lengths :
  forall rt : Runtime,
    let first := @Receive rt (inr [mf1 [5%Z]]) 20 1559953047 (NewMetricHub 0 10) in
    let second := @Receive rt (inr [mf1 [3%Z]]) 20 1559953048 (snd first) in
    fst first = Ok (mkResponse StatusOK NoContent) /\
    fst second = Ok (mkResponse StatusOK NoContent) /\
    currentCountDatapoints (stats (hub (snd second))) = 2%Z /\
    hubSize (snd second) = 2%Z /\
    store_datapoints (metricFamiliesByName (hub (snd second))) = 1%Z.
Proof. intros rt. vm_compute. repeat split; reflexivity. Qed.

End lost_samples.

(** ** Routing in the distributor *)

Section routing.

Lemma getKeyLabelValue_eq {St : Type} (d : Distributor) (met : Metric) (s : St) :
  named met ->
  getKeyLabelValue (Label met) (keyLabel d) s = (Ok (key_of d met), s).
Proof.
  unfold named, key_of. induction 1 as [|l ls [n Hn] _ IH]; simpl; [done|].
  rewrite run_bind, Hn. simpl. unfold lp_GetName at 1. rewrite Hn. simpl.
  destruct (String.eqb n (keyLabel d)); [done|apply IH].
Qed.

Lemma placed_insert (ds : DistSet) (hub name h n : string)
    (inHub : gmap string MetricFamily) (f : MetricFamily) :
  ds !! hub = Some inHub ->
  placed (<[hub := <[name := f]> inHub]> ds) h n
  = if decide (h = hub /\ n = name) then Metrics f else placed ds h n.
Proof.
  intros Hhub. unfold placed.
  destruct (decide (h = hub)) as [->|Hne].
  - rewrite lookup_insert_eq. simpl. destruct (decide (n = name)) as [->|Hnn].
    + rewrite lookup_insert_eq. simpl. by rewrite decide_True.
    + rewrite lookup_insert_ne by done. rewrite Hhub. simpl.
      by rewrite decide_False by tauto.
  - rewrite lookup_insert_ne by done. by rewrite decide_False by tauto.
Qed.

(** A sample whose lookup succeeds is filed under the hub the ring names
    and the name of its family, behind the samples already there. *)
Lemma route_success (d : Distributor) (fam : MetricFamily) (met : Metric)
    (s : DistState) (hub : string) :
  named met -> ring d (key_of d met) = Some hub -> is_Some (distSet s !! hub) ->
  exists s',
    route d fam met s = (Ok tt, s') /\
    dist_logged s' = dist_logged s /\
    (forall h, is_Some (distSet s' !! h) <-> is_Some (distSet s !! h)) /\
    (forall h n, placed (distSet s') h n
                 = placed (distSet s) h n ++
                   (if decide (h = hub /\ n = GetName fam) then [met] else [])).
Proof.
  intros Hnamed Hring [inHub Hhub]. unfold route.
  rewrite run_bind, getKeyLabelValue_eq by done. cbv beta iota. rewrite Hring.
  cbv beta iota. rewrite run_bind. unfold ret at 1. cbv beta iota.
  rewrite run_bind. unfold gets at 1. cbv beta iota. rewrite Hhub.
  assert (forall f, forall h,
            is_Some (<[hub := <[GetName fam := f]> inHub]> (distSet s) !! h)
            <-> is_Some (distSet s !! h)) as Hdom.
  { intros f h. destruct (decide (h = hub)) as [->|Hne].
    - rewrite lookup_insert_eq, Hhub. split; eauto.
    - by rewrite lookup_insert_ne. }
  destruct (inHub !! GetName fam) as [f|] eqn:Hfam; unfold modify; cbv beta iota;
    eexists; (split; [reflexivity|]); simpl; (split; [done|]);
    (split; [apply Hdom|]); intros h n; rewrite placed_insert by done;
    destruct (decide (h = hub /\ n = GetName fam)) as [[-> ->]|Hne];
    rewrite ?app_nil_r; try done; unfold placed; rewrite Hhub; simpl; by rewrite Hfam.
Qed.


Lemma route_batch (d : Distributor) (fam : MetricFamily) (mets : list Metric)
    (s : DistState) :
  Forall named mets ->
  (forall key, exists hub, ring d key = Some hub /\ is_Some (distSet s !! hub)) ->
  exists s',
    for_each mets (route d fam) s = (Ok tt, s') /\
    dist_logged s' = dist_logged s /\
    (forall h, is_Some (distSet s' !! h) <-> is_Some (distSet s !! h)) /\
    (forall h n, placed (distSet s') h n
                 = placed (distSet s) h n ++
                   (if decide (GetName fam = n)
                    then filter (fun met => ring d (key_of d met) = Some h) mets
                    else [])).
Proof.
  intros Hnamed. revert s.
  induction Hnamed as [|met mets Hmet _ IH]; intros s Hring.
  - exists s. repeat split; try done. intros h n.
    destruct (decide (GetName fam = n)); by rewrite ?filter_nil, app_nil_r.
  - destruct (Hring (key_of d met)) as (hub & Hhub & Hin).
    destruct (route_success d fam met s hub Hmet Hhub Hin)
      as (s1 & Hrun & Hlog & Hdom & Hplaced).
    destruct (IH s1) as (s2 & Hrun2 & Hlog2 & Hdom2 & Hplaced2).
    { intros key. destruct (Hring key) as (hub' & ? & ?).
      exists hub'. split; [done|]. by apply Hdom. }
    exists s2. split; [|split; [congruence|split]].
    + simpl. by rewrite run_bind, Hrun.
    + intros h. by rewrite Hdom2.
    + intros h n. rewrite Hplaced2, Hplaced, <- app_assoc. f_equal.
      destruct (decide (GetName fam = n)) as [<-|Hne].
      * rewrite filter_cons.
        destruct (decide (h = hub /\ GetName fam = GetName fam)) as [[-> _]|Hno].
        -- by rewrite decide_True.
        -- rewrite decide_False; [done|]. intros Heq. apply Hno. split; congruence.
      * rewrite decide_False; [done|]. by intros [_ ->].
Qed.

Lemma owed_app (d : Distributor) (fs gs : list MetricFamily) (h n : string) :
  owed d (fs ++ gs) h n = owed d fs h n ++ owed d gs h n.
Proof. unfold owed. by rewrite fmap_app, concat_app. Qed.

Lemma route_batches (d : Distributor) (families : list MetricFamily)
    (s : DistState) :
  Forall (fun fam => Forall named (Metrics fam)) families ->
  (forall key, exists hub, ring d key = Some hub /\ is_Some (distSet s !! hub)) ->
  exists s',
    for_each families (fun fam => for_each (Metrics fam) (route d fam)) s
      = (Ok tt, s') /\
    dist_logged s' = dist_logged s /\
    (forall h, is_Some (distSet s' !! h) <-> is_Some (distSet s !! h)) /\
    (forall h n, placed (distSet s') h n
                 = placed (distSet s) h n ++ owed d families h n).
Proof.
  intros Hnamed. revert s.
  induction Hnamed as [|fam fams Hfam _ IH]; intros s Hring.
  - exists s. repeat split; try done. intros h n. by rewrite app_nil_r.
  - destruct (route_batch d fam (Metrics fam) s Hfam Hring)
      as (s1 & Hrun & Hlog & Hdom & Hplaced).
    destruct (IH s1) as (s2 & Hrun2 & Hlog2 & Hdom2 & Hplaced2).
    { intros key. destruct (Hring key) as (hub' & ? & ?).
      exists hub'. split; [done|]. by apply Hdom. }
    exists s2. split; [|split; [congruence|split]].
    + simpl. by rewrite run_bind, Hrun.
    + intros h. by rewrite Hdom2.
    + intros h n. rewrite Hplaced2, Hplaced, <- app_assoc.
      rewrite (owed_app d [fam] fams). do 2 f_equal.
      unfold owed. simpl. by rewrite app_nil_r.
Qed.

Lemma distSet_init (hubs : list string) (h : string) :
  is_Some (foldr (fun hub (ds : DistSet) => <[hub := ∅]> ds) ∅ hubs !! h)
  <-> h ∈ hubs.
Proof.
  induction hubs as [|hub hubs IH]; simpl.
  - rewrite lookup_empty. split; [by intros [? ?]|by intros ?%elem_of_nil].
  - rewrite elem_of_cons. destruct (decide (h = hub)) as [->|Hne].
    + rewrite lookup_insert_eq. split; eauto.
    + rewrite lookup_insert_ne by done. rewrite IH. tauto.
Qed.

Lemma placed_init (hubs : list string) (h n : string) :
  placed (foldr (fun hub (ds : DistSet) => <[hub := ∅]> ds) ∅ hubs) h n = [].
Proof.
  unfold placed. induction hubs as [|hub hubs IH]; simpl.
  - by rewrite lookup_empty.
  - destruct (decide (h = hub)) as [->|Hne].
    + rewrite lookup_insert_eq. simpl. by rewrite lookup_empty.
    + by rewrite lookup_insert_ne.
Qed.

(** Where the ring finds a hub of the distributor for every key, a batch is
    split without loss: the call returns, logs nothing, keeps one entry per
    hub, and every hub gets, under each family name, exactly the samples
    the ring gives it, in the order of the batch. *)
Lemma ReceiveGRPC_places (d : Distributor) (families : list MetricFamily)
    (s : DistState) :
  Forall (fun fam => Forall named (Metrics fam)) families ->
  (forall key, exists hub, ring d key = Some hub /\ hub ∈ edgeHubArray d) ->
  exists ds,
    ReceiveGRPC d families s = (Ok ds, mkDistState ds (dist_logged s)) /\
    (forall h, is_Some (ds !! h) <-> h ∈ edgeHubArray d) /\
    (forall h n, placed ds h n = owed d families h n).
Proof.
  intros Hnamed Hring. unfold ReceiveGRPC.
  rewrite run_bind. unfold modify at 1. cbv beta iota.
  set (s0 := mkDistState _ _).
  destruct (route_batches d families s0 Hnamed) as (s' & Hrun & Hlog & Hdom & Hplaced).
  { intros key. destruct (Hring key) as (hub & ? & ?). exists hub.
    split; [done|]. subst s0. simpl. by apply distSet_init. }
  rewrite run_bind, Hrun. cbv beta iota. unfold gets.
  exists (distSet s'). split; [|split].
  - destruct s' as [ds lg]. simpl in *. by rewrite Hlog.
  - intros h. rewrite Hdom. subst s0. simpl. apply distSet_init.
  - intros h n. rewrite Hplaced. subst s0. simpl. by rewrite placed_init.
Qed.

Lemma for_each_preserves_in {St A : Type} (P : St -> Prop) (l : list A)
    (body : A -> M St unit) :
  (forall x s, x ∈ l -> P s -> P (snd (body x s))) ->
  forall s, P s -> P (snd (for_each l body s)).
Proof.
  induction l as [|x l IH]; intros Hbody s Hs; simpl; [done|].
  rewrite run_bind. pose proof (Hbody x s (list_elem_of_here _ _) Hs) as Hx.
  destruct (body x s) as [[[]|why] s']; simpl in *; [|done].
  apply IH; [|done]. intros y s0 Hy. apply Hbody. by apply list_elem_of_further.
Qed.

Lemma route_metadata (d : Distributor) (families : list MetricFamily)
    (fam : MetricFamily) (met : Metric) (s : DistState) :
  fam ∈ families -> from_batch families (distSet s) ->
  from_batch families (distSet (snd (route d fam met s))).
Proof.
  intros Hfam Hinv. unfold route. rewrite run_bind.
  destruct (getKeyLabelValue (Label met) (keyLabel d) s) as [[labelVal|why] s1] eqn:Hkey.
  - assert (s1 = s) as ->.
    { clear -Hkey. revert Hkey. induction (Label met) as [|l ls IH]; simpl.
      - by intros [= _ <-].
      - rewrite run_bind. destruct (lp_Name l) as [nm|]; simpl; [|done].
        destruct (String.eqb nm (keyLabel d)); [by intros [= _ <-]|apply IH]. }
    set (hubok := match ring d labelVal with
                  | Some node => (node, true) | None => (""%string, false) end).
    destruct hubok as [hub ok]. rewrite run_bind.
    set (s2 := snd ((if ok then ret tt
                     else modify (fun s => mkDistState (distSet s)
                            (HashPositionNotFound met :: dist_logged s))) s)).
    assert (distSet s2 = distSet s) as Hds by (subst s2; by destruct ok).
    assert ((if ok then ret tt
             else modify (fun s => mkDistState (distSet s)
                    (HashPositionNotFound met :: dist_logged s))) s = (Ok tt, s2)) as ->
      by (subst s2; by destruct ok).
    rewrite run_bind. unfold gets at 1. cbv beta iota.
    destruct (distSet s2 !! hub) as [inHub|] eqn:Hhub; [|simpl; by rewrite Hds].
    assert (forall f',
              (exists fam0, fam0 ∈ families /\ GetName fam0 = GetName fam /\
                 Name f' = Name fam0 /\ Help f' = Help fam0 /\ Type_ f' = Type_ fam0) ->
              from_batch families (<[hub := <[GetName fam := f']> inHub]> (distSet s2)))
      as Hins.
    { intros f' Hf' h inHub' n f Hh Hn.
      destruct (decide (h = hub)) as [->|Hne].
      - rewrite lookup_insert_eq in Hh. injection Hh as <-.
        destruct (decide (n = GetName fam)) as [->|Hnn].
        + rewrite lookup_insert_eq in Hn. by injection Hn as <-.
        + rewrite lookup_insert_ne in Hn by done.
          rewrite Hds in Hhub. by apply (Hinv hub inHub).
      - rewrite lookup_insert_ne in Hh by done. rewrite Hds in Hh.
        by apply (Hinv h inHub'). }
    destruct (inHub !! GetName fam) as [f|] eqn:Hf; unfold modify; simpl;
      apply Hins.
    + rewrite Hds in Hhub. apply (Hinv hub inHub (GetName fam) f Hhub Hf).
    + by exists fam.
  - simpl. revert Hkey.
    assert (forall r, getKeyLabelValue (Label met) (keyLabel d) s = r -> snd r = s) as Hsame.
    { intros r <-. induction (Label met) as [|l ls IH]; simpl; [done|].
      rewrite run_bind. destruct (lp_Name l) as [nm|]; simpl; [|done].
      destruct (String.eqb nm (keyLabel d)); [done|apply IH]. }
    intros Hkey. apply Hsame in Hkey. simpl in Hkey. by subst s1.
Qed.

(** The batches handed over for sending keep the metadata of the source:
    a family gathered for a hub has the name, help and type of a family of
    the batch received. *)
Lemma ReceiveGRPC_metadata (d : Distributor) (families : list MetricFamily)
    (s s' : DistState) (ds : DistSet) :
  ReceiveGRPC d families s = (Ok ds, s') -> from_batch families ds.
Proof.
  unfold ReceiveGRPC. rewrite run_bind. unfold modify at 1. cbv beta iota.
  set (s0 := mkDistState _ _). rewrite run_bind.
  pose proof (for_each_preserves_in
    (fun st => from_batch families (distSet st)) families
    (fun fam => for_each (Metrics fam) (route d fam))) as Hloop.
  specialize (Hloop (fun fam st Hfam Hst =>
    for_each_preserves (fun st => from_batch families (distSet st)) (Metrics fam)
      (route d fam) (fun met st0 => route_metadata d families fam met st0 Hfam) st Hst) s0).
  destruct (for_each families _ s0) as [[[]|why] s1]; [|done].
  unfold gets. intros [= <- <-]. apply Hloop.
  subst s0. simpl. clear. intros h inHub n f Hh Hn.
  induction (edgeHubArray d) as [|hub hubs IH]; simpl in Hh; [done|].
  destruct (decide (h = hub)) as [->|Hne].
  - rewrite lookup_insert_eq in Hh. injection Hh as <-. done.
  - rewrite lookup_insert_ne in Hh by done. by apply IH.
Qed.

(** C6, where the code departs from it.  A distributor started without
    downstream hubs has a ring without nodes, on which every lookup
    fails.  For a batch with one sample, [ReceiveGRPC] logs that no hash
    position was found and then, instead of dropping the sample, goes on
    to file it under the hub named by the empty string and panics on the
    write to the missing map: nothing is handed over for sending. *)
Theorem lookup_failure_panics :
  let d := mkDistributor "host" [] (fun _ => None) in
  let met := mkMetric [mkLabelPair (Some "host"%string) (Some "A"%string)]
                      (GaugeValue 1027) (Some 1395066363000%Z) in
  let cpu := mkMetricFamily (Some "cpu_usage"%string)
                            (Some "The total CPU usage."%string) (Some GAUGE) [met] in
  ReceiveGRPC d [cpu] (mkDistState ∅ [])
  = (Panic "assignment to entry in nil map",
     mkDistState ∅ [HashPositionNotFound met]).
Proof. reflexivity. Qed.

End routing.

(** ** Samples in the store *)

Section memory.
Context `{Runtime}.

(** A search whose test only reads the state leaves the state as it is
    and returns an index of the range searched. *)
Lemma Search_loop_readonly {St : Type} (f : nat -> M St bool) (i j : nat) (s : St) :
  (forall h s', snd (f h s') = s') ->
  snd (Search_loop f i j s) = s /\
  (forall r, fst (Search_loop f i j s) = Ok r -> i <= j -> i <= r <= j).
Proof.
  intros Hf. revert s.
  funelim (Search_loop f i j); intros s.
  - assert (i <= (i + j) / 2 < j) as Hm
      by (split; [apply Nat.div_le_lower_bound | apply Nat.Div0.div_lt_upper_bound]; lia).
    set (h := (i + j) / 2) in *. clearbody h.
    rewrite run_bind. pose proof (Hf h s) as Hfs.
    destruct (f h s) as [[b|why] s1]; simpl in *; subst s1; [|done].
    destruct b; simpl.
    + destruct (H1 true s Hf s) as [Hs Hr]. split; [done|].
      intros r Hr' _. specialize (Hr r Hr'). lia.
    + destruct (H0 false s Hf s) as [Hs Hr]. split; [done|].
      intros r Hr' _. specialize (Hr r Hr'). lia.
  - simpl. split; [done|]. intros r [= <-] ?. lia.
Qed.

Lemma writes_only_refl (p : nat) (m : Mem) : writes_only p m m.
Proof. split; [done|]. intros i a Hi. eauto. Qed.

Lemma writes_only_trans (p : nat) (m1 m2 m3 : Mem) :
  writes_only p m1 m2 -> writes_only p m2 m3 -> writes_only p m1 m3.
Proof.
  intros [Hl1 H1] [Hl2 H2]. split; [lia|].
  intros i a Hi. destruct (H1 i a Hi) as (a' & Hi' & Hlen & Heq).
  destruct (H2 i a' Hi') as (a'' & Hi'' & Hlen' & Heq').
  exists a''. split; [done|]. split; [congruence|].
  intros Hne. rewrite Heq', Heq; done.
Qed.

Lemma writes_only_alloc (p : nat) (m : Mem) (a : list Cell) :
  writes_only p m (m ++ [a]).
Proof.
  split; [rewrite length_app; lia|].
  intros i b Hi. exists b. split; [by apply lookup_app_l_Some|done].
Qed.

Lemma writes_only_store (p : nat) (m : Mem) (a a' : list Cell) :
  m !! p = Some a -> length a' = length a -> writes_only p m (<[p := a']> m).
Proof.
  intros Hp Hlen. split; [by rewrite length_insert|].
  intros i b Hi. destruct (decide (i = p)) as [->|Hne].
  - exists a'. rewrite list_lookup_insert_eq by (by eapply lookup_lt_Some).
    split; [done|]. split; [congruence|done].
  - exists b. rewrite list_lookup_insert_ne by done. done.
Qed.

Lemma wf_slice_writes (p : nat) (m m' : Mem) (q : slice) :
  writes_only p m m' -> wf_slice m q -> wf_slice m' q.
Proof.
  intros [_ Hw] (a & Ha & Hcap & Hlen).
  destruct (Hw _ _ Ha) as (a' & Ha' & Hlen' & _).
  exists a'. split; [done|]. split; [congruence|done].
Qed.

Lemma view_writes (p : nat) (m m' : Mem) (q : slice) :
  writes_only p m m' -> wf_slice m q -> s_ptr q <> p -> view m' q = view m q.
Proof.
  intros [_ Hw] (a & Ha & _) Hne. unfold view.
  destruct (Hw _ _ Ha) as (a' & Ha' & _ & Heq).
  rewrite Ha, Ha'. simpl. by rewrite Heq.
Qed.

Lemma append_spec (q : slice) (c : Cell) (m : Mem) :
  wf_slice m q ->
  exists q' m',
    append q c m = (Ok q', m') /\
    writes_only (s_ptr q) m m' /\ view m' q = view m q /\
    wf_slice m' q' /\ (s_ptr q' = s_ptr q \/ s_ptr q' = length m) /\
    s_len q' = S (s_len q) /\ view m' q' = view m q ++ [c].
Proof.
  intros (a & Ha & Hcap & Hlen). unfold append. mrun. rewrite Ha.
  destruct (s_len q <? s_cap q) eqn:Hroom.
  - apply Nat.ltb_lt in Hroom. eexists _, _. split; [reflexivity|].
    split; [apply (writes_only_store _ _ a); [done|by rewrite length_insert]|].
    assert (<[s_ptr q := <[s_len q := c]> a]> m !! s_ptr q = Some (<[s_len q := c]> a))
      as Hnew by (apply list_lookup_insert_eq; by eapply lookup_lt_Some).
    unfold view, wf_slice. simpl. rewrite Hnew, Ha. simpl.
    split; [by rewrite take_insert_ge|].
    split. { eexists. split; [done|]. rewrite length_insert. split; [done|lia]. }
    split; [by left|]. split; [done|].
    rewrite (take_S_r _ _ c) by (apply list_lookup_insert_eq; lia).
    by rewrite take_insert_ge.
  - apply Nat.ltb_ge in Hroom. assert (s_len q = length a) as Hfull by lia.
    eexists _, _. split; [reflexivity|].
    split; [apply writes_only_alloc|].
    unfold view, wf_slice. simpl.
    rewrite (lookup_app_l_Some _ _ _ _ Ha), list_lookup_middle by done. simpl.
    rewrite Ha. simpl. split; [done|].
    split. { eexists. split; [done|]. 
             rewrite length_app, length_take. simpl. rewrite length_replicate. lia. }
    split; [by right|]. split; [done|].
    rewrite Hfull, firstn_all.
    change (a ++ c :: ?r) with (a ++ [c] ++ r). 
    rewrite (app_assoc a [c]). rewrite take_app_length'; [done|]. rewrite length_app. simpl. lia.
Qed.

(** Making room at [length v1] and writing [el] there. *)
Lemma shift_insert_lists (v1 v2 rest : list Cell) (ph el : Cell) :
  <[length v1 := el]>
    (take (S (length v1)) (v1 ++ v2 ++ ph :: rest) ++
     take (length v2) (drop (length v1) (v1 ++ v2 ++ ph :: rest)) ++
     drop (S (length v1 + length v2)) (v1 ++ v2 ++ ph :: rest))
  = v1 ++ el :: v2 ++ rest.
Proof.
  rewrite drop_app_length, take_app_length.
  assert (drop (S (length v1 + length v2)) (v1 ++ v2 ++ ph :: rest) = rest) as ->.
  { rewrite app_assoc.
    replace (S (length v1 + length v2)) with (length (v1 ++ v2) + 1)
      by (rewrite length_app; lia).
    by rewrite drop_app_add. }
  assert (exists x, take (S (length v1)) (v1 ++ v2 ++ ph :: rest) = v1 ++ [x]) as [x ->].
  { replace (S (length v1)) with (length v1 + 1) by lia.
    rewrite take_app_add. destruct v2; simpl; eauto. }
  rewrite <- app_assoc.
  replace (length v1) with (length v1 + 0) at 1 by lia.
  by rewrite insert_app_r.
Qed.

Lemma elem_of_take_drop_insert (v : list Cell) (i : nat) (x c : Cell) :
  c ∈ take i v ++ x :: drop i v -> c ∈ v \/ c = x.
Proof.
  rewrite elem_of_app, elem_of_cons. rewrite <- (take_drop i v) at 3.
  rewrite elem_of_app. tauto.
Qed.

(** The test of the search in [sortedInsert] reads the memory only. *)
Lemma later_than_readonly (data : slice) (el : Metric) (i : nat) (m : Mem) :
  snd (later_than data el i m) = m.
Proof.
  unfold later_than. mrun. destruct (i <? s_len data); [|done].
  destruct (m !! s_ptr data) as [a|]; [|done].
  destruct (a !! i) as [[di|]|]; [|done..].
  destruct (TimestampMs di); [|done]. destruct (TimestampMs el); done.
Qed.

(** The array after the three writes of [sortedInsert], from the array
    [a1] that [append] left under a header of length [S len]. *)
Lemma shift_insert_view (a1 v : list Cell) (i : nat) (ph el : Cell) :
  take (S (length v)) a1 = v ++ [ph] -> i <= length v ->
  let a3 := <[i := el]> (take (S i) a1 ++ take (S (length v) - S i) (drop i a1)
                         ++ drop (S (length v)) a1) in
  length a3 = length a1 /\
  take (S (length v)) a3 = take i v ++ el :: drop i v.
Proof.
  intros Ha1 Hi.
  assert (a1 = take i v ++ drop i v ++ ph :: drop (S (length v)) a1) as Hsplit.
  { rewrite <- (take_drop (S (length v)) a1) at 1. rewrite Ha1.
    rewrite <- (take_drop i v) at 1. by rewrite <- !app_assoc. }
  assert (length (take i v) = i) as Hl1 by (rewrite length_take; lia).
  assert (length (drop i v) = length v - i) as Hl2 by (by rewrite length_drop).
  assert (<[i := el]> (take (S i) a1 ++ take (S (length v) - S i) (drop i a1)
                       ++ drop (S (length v)) a1)
          = take i v ++ el :: drop i v ++ drop (S (length v)) a1) as ->.
  { rewrite <- (shift_insert_lists (take i v) (drop i v) (drop (S (length v)) a1) ph el).
    rewrite <- Hsplit, Hl1, Hl2.
    replace (S (length v) - S i) with (length v - i) by lia.
    replace (S (i + (length v - i))) with (S (length v)) by lia. done. }
  split.
  - rewrite Hsplit at 2. rewrite !length_app. simpl. rewrite !length_app. simpl. lia.
  - rewrite app_comm_cons, app_assoc. apply take_app_length'.
    rewrite length_app. simpl. lia.
Qed.

Lemma writes_only_then_store (p p1 : nat) (m m1 : Mem) (a1 a3 : list Cell) :
  writes_only p m m1 -> m1 !! p1 = Some a1 -> length a3 = length a1 ->
  p1 = p \/ length m <= p1 ->
  writes_only p m (<[p1 := a3]> m1).
Proof.
  intros [Hl Hw] Hp1 Hlen Hcase. split; [by rewrite length_insert|].
  intros i a Hi. destruct (Hw i a Hi) as (a' & Hi' & Hlen' & Heq).
  destruct (decide (i = p1)) as [->|Hne].
  - exists a3. rewrite list_lookup_insert_eq by (by eapply lookup_lt_Some).
    split; [done|]. split; [congruence|].
    intros Hnp. destruct Hcase as [->|Hfresh]; [done|].
    apply lookup_lt_Some in Hi. lia.
  - exists a'. by rewrite list_lookup_insert_ne.
Qed.

Lemma view_length (m : Mem) (q : slice) : wf_slice m q -> length (view m q) = s_len q.
Proof.
  intros (a & Ha & Hcap & Hlen). unfold view. rewrite Ha. simpl.
  rewrite length_take. lia.
Qed.

Lemma sortedInsert_spec (q : slice) (el : Metric) (m : Mem) :
  wf_slice m q ->
  exists r m',
    sortedInsert q el m = (r, m') /\
    writes_only (s_ptr q) m m' /\
    (forall c, c ∈ view m' q -> c ∈ view m q \/ c = Some el) /\
    match r with
    | Ok q' =>
        wf_slice m' q' /\ (s_ptr q' = s_ptr q \/ s_ptr q' = length m) /\
        s_len q' = S (s_len q) /\
        exists i, Search (s_len q) (later_than q el) m = (Ok i, m) /\ i <= s_len q /\
          view m' q' = take i (view m q) ++ Some el :: drop i (view m q)
    | Panic why => m' = m /\ Search (s_len q) (later_than q el) m = (Panic why, m)
    end.
Proof.
  intros Hwf. unfold sortedInsert. rewrite run_bind.
  destruct (Search_loop_readonly (later_than q el) 0 (s_len q) m
              (later_than_readonly q el)) as [Hmem Hidx].
  fold (Search (s_len q) (later_than q el)) in Hmem, Hidx.
  destruct (Search (s_len q) (later_than q el) m) as [[i|why] m0] eqn:Hsearch;
    simpl in Hmem; subst m0.
  2:{ eexists _, _. split; [reflexivity|]. split; [apply writes_only_refl|]. eauto. }
  assert (i <= s_len q) as Hi by (destruct (Hidx i eq_refl); lia). clear Hidx.
  destruct (append_spec q (Some emptyMetric) m Hwf)
    as (q1 & m1 & Happ & Hw1 & Hv1 & Hwf1 & Hptr & Hlen1 & Hview1).
  rewrite run_bind, Happ. destruct Hwf1 as (a1 & Ha1 & Hcap1 & Hle1).
  pose proof (view_length m q Hwf) as Hvlen.
  assert (take (S (length (view m q))) a1 = view m q ++ [Some emptyMetric]) as Htake.
  { rewrite Hvlen, <- Hview1. unfold view. by rewrite Ha1, Hlen1. }
  destruct (shift_insert_view a1 (view m q) i (Some emptyMetric) (Some el) Htake)
    as [Hlen3 Hview3]; [lia|].
  rewrite Hvlen in Hlen3, Hview3. simpl in Hlen3, Hview3.
  unfold copy_up, set_index. mrun. rewrite Hlen1.
  assert ((S i <=? S (s_len q)) = true) as -> by (apply Nat.leb_le; lia).
  assert ((i <? S (s_len q)) = true) as -> by (apply Nat.ltb_lt; lia).
  rewrite Ha1. simpl.
  rewrite list_lookup_insert_eq by (by eapply lookup_lt_Some). simpl.
  rewrite list_insert_insert_eq.
  eexists _, _. split; [reflexivity|].
  assert (s_ptr q1 = s_ptr q \/ length m <= s_ptr q1) as Hptr' by (destruct Hptr; [by left|right; lia]).
  split; [by eapply writes_only_then_store|].
  match goal with |- context [<[s_ptr q1 := ?a]> m1] => set (a3 := a) in * end.
  assert (<[s_ptr q1 := a3]> m1 !! s_ptr q1 = Some a3) as Hnew
    by (apply list_lookup_insert_eq; by eapply lookup_lt_Some).
  assert (view (<[s_ptr q1 := a3]> m1) q1
          = take i (view m q) ++ Some el :: drop i (view m q)) as Hq1.
  { unfold view at 1. by rewrite Hnew, Hlen1. }
  split.
  - intros c Hc. destruct Hptr as [Hsame|Hfresh].
    + apply elem_of_take_drop_insert with (i := i). rewrite <- Hq1.
      unfold view in Hc |- *. rewrite <- Hsame, Hnew in Hc. rewrite Hnew, Hlen1.
      simpl in *. apply elem_of_take in Hc as (j & Hj & Hlt).
      apply elem_of_take. exists j. split; [done|lia].
    + left. rewrite <- Hv1.
      destruct Hwf as (a & Ha & _). apply lookup_lt_Some in Ha.
      unfold view in Hc |- *. rewrite list_lookup_insert_ne in Hc by lia. done.
  - split. { exists a3. split; [done|]. split; [congruence|lia]. }
    split; [done|]. split; [done|]. exists i. done.
Qed.
(** On a test that reads the state only, answers [p] on the range, and
    stays true once it is true, the search returns the least index at
    which the test holds, or the end of the range. *)
Lemma Search_loop_least {St : Type} (f : nat -> M St bool) (p : nat -> bool)
    (i j : nat) (s : St) :
  i <= j ->
  (forall h, i <= h < j -> f h s = (Ok (p h), s)) ->
  (forall a b, i <= a <= b -> b < j -> p a = true -> p b = true) ->
  exists r, Search_loop f i j s = (Ok r, s) /\ i <= r <= j /\
            (forall h, i <= h < r -> p h = false) /\ (r < j -> p r = true).
Proof.
  funelim (Search_loop f i j); intros Hij Hf Hmono.
  - assert (i <= (i + j) / 2 < j) as Hm
      by (split; [apply Nat.div_le_lower_bound | apply Nat.Div0.div_lt_upper_bound]; lia).
    set (h := (i + j) / 2) in *. clearbody h.
    rewrite run_bind, (Hf h) by lia. destruct (p h) eqn:Hph; simpl.
    + destruct (H1 true s p s) as (r & Hr & Hrange & Hbelow & Hat); [lia| | |].
      { intros k Hk. apply Hf. lia. }
      { intros a b Hab Hb. apply Hmono; lia. }
      exists r. split; [done|]. split; [lia|]. split; [done|].
      intros _. destruct (decide (r = h)) as [->|]; [done|]. apply Hat. lia.
    + destruct (H0 false s p s) as (r & Hr & Hrange & Hbelow & Hat); [lia| | |].
      { intros k Hk. apply Hf. lia. }
      { intros a b Hab Hb. apply Hmono; lia. }
      exists r. split; [done|]. split; [lia|]. split; [|done].
      intros k Hk. destruct (decide (k <= h)) as [Hle|Hgt]; [|apply Hbelow; lia].
      destruct (p k) eqn:Hpk; [|done].
      rewrite <- Hph. symmetry. apply (Hmono k h); [lia|lia|done].
  - exists i. split; [done|]. split; [lia|]. split; intros; lia.
Qed.

Lemma sorted_lookup_le (ts : list Z) (a b : nat) (x y : Z) :
  StronglySorted Z.le ts -> a <= b -> ts !! a = Some x -> ts !! b = Some y ->
  (x <= y)%Z.
Proof.
  intros Hs. revert a b. induction Hs as [|t ts Hs IH Hall]; intros a b Hab Ha Hb.
  { by rewrite lookup_nil in Ha. }
  destruct a as [|a], b as [|b]; simpl in *; try lia.
  - injection Ha as <-. injection Hb as <-. lia.
  - injection Ha as <-. rewrite Forall_forall in Hall. apply Hall.
    by eapply list_elem_of_lookup_2.
  - eapply IH; [|done..]. lia.
Qed.

(** What the test of [sortedInsert] answers on a queue whose samples all
    carry a timestamp. *)
Lemma later_than_eq (q : slice) (el : Metric) (m : Mem) (xs : list Metric)
    (ts : list Z) (te : Z) (h : nat) :
  view m q = Some <$> xs -> TimestampMs <$> xs = Some <$> ts ->
  TimestampMs el = Some te -> h < length xs -> s_len q = length xs ->
  exists t, ts !! h = Some t /\ later_than q el h m = (Ok (t >? te)%Z, m).
Proof.
  intros Hview Hts Hte Hh Hlen.
  destruct (lookup_lt_is_Some_2 xs h Hh) as [x Hx].
  assert (TimestampMs x ∈ TimestampMs <$> xs) as Hin
    by (apply list_elem_of_fmap_2; by eapply list_elem_of_lookup_2).
  assert ((TimestampMs <$> xs) !! h = Some (TimestampMs x)) as Htsx
    by (by rewrite list_lookup_fmap, Hx).
  rewrite Hts, list_lookup_fmap in Htsx.
  destruct (ts !! h) as [t|] eqn:Ht; [|done]. simpl in Htsx. injection Htsx as Htx.
  exists t. split; [done|].
  assert (view m q !! h = Some (Some x)) as Hcell
    by (by rewrite Hview, list_lookup_fmap, Hx).
  unfold view in Hcell. unfold later_than. mrun.
  assert ((h <? s_len q) = true) as -> by (apply Nat.ltb_lt; lia).
  destruct (m !! s_ptr q) as [a|]; simpl in Hcell; [|by rewrite take_nil, lookup_nil in Hcell].
  apply lookup_take_Some in Hcell as [Hcell _]. rewrite Hcell. simpl.
  by rewrite <- Htx, Hte.
Qed.

(** On a queue in timestamp order whose samples all carry a timestamp,
    [sortedInsert] puts the sample at the first index whose timestamp is
    strictly greater, or at the end, and the queue it returns is in
    timestamp order. *)
Lemma sortedInsert_sorted (q : slice) (el : Metric) (m : Mem) (xs : list Metric)
    (ts : list Z) (te : Z) :
  wf_slice m q ->
  view m q = Some <$> xs -> TimestampMs <$> xs = Some <$> ts ->
  StronglySorted Z.le ts -> TimestampMs el = Some te ->
  exists q' m' i,
    sortedInsert q el m = (Ok q', m') /\
    view m' q' = Some <$> (take i xs ++ el :: drop i xs) /\
    Forall (fun t => (t <= te)%Z) (take i ts) /\
    Forall (fun t => (te < t)%Z) (drop i ts) /\
    StronglySorted Z.le (take i ts ++ te :: drop i ts).
Proof.
  intros Hwf Hview Hts Hsorted Hte.
  assert (s_len q = length xs) as Hlen
    by (rewrite <- (view_length m q Hwf), Hview; apply length_fmap).
  assert (length ts = length xs) as Hlts
    by (rewrite <- (length_fmap Some ts), <- Hts; apply length_fmap).
  set (p := fun h => from_option (fun t => (t >? te)%Z) false (ts !! h)).
  destruct (Search_loop_least (later_than q el) p 0 (s_len q) m)
    as (i & Hsearch & Hrange & Hbelow & Hat); [lia| | |].
  { intros h Hh. destruct (later_than_eq q el m xs ts te h) as (t & Ht & ->);
      [done..|lia|done|]. unfold p. by rewrite Ht. }
  { intros a b Hab Hb. unfold p.
    destruct (lookup_lt_is_Some_2 ts a) as [x Hx]; [lia|].
    destruct (lookup_lt_is_Some_2 ts b) as [y Hy]; [lia|].
    rewrite Hx, Hy. simpl.
    pose proof (sorted_lookup_le ts a b x y Hsorted ltac:(lia) Hx Hy). lia. }
  fold (Search (s_len q) (later_than q el)) in Hsearch.
  destruct (sortedInsert_spec q el m Hwf) as (r & m' & Hrun & _ & _ & Hr).
  destruct r as [q'|why]; [|destruct Hr as [_ Hp]; congruence].
  destruct Hr as (_ & _ & _ & i' & Hsearch' & _ & Hview').
  assert (i' = i) as -> by congruence.
  assert (Forall (fun t => (t <= te)%Z) (take i ts)) as Hle.
  { apply Forall_forall. intros t Ht. apply elem_of_take in Ht as (h & Hh & Hhi).
    specialize (Hbelow h ltac:(lia)). unfold p in Hbelow. rewrite Hh in Hbelow.
    simpl in Hbelow. lia. }
  assert (Forall (fun t => (te < t)%Z) (drop i ts)) as Hgt.
  { apply Forall_forall. intros t Ht. apply list_elem_of_lookup in Ht as (h & Hh).
    rewrite lookup_drop in Hh.
    assert (i + h < length ts) as Hb by (by eapply lookup_lt_Some).
    destruct (lookup_lt_is_Some_2 ts i) as [ti Hti]; [lia|].
    specialize (Hat ltac:(lia)). unfold p in Hat. rewrite Hti in Hat. simpl in Hat.
    pose proof (sorted_lookup_le ts i (i + h) ti t Hsorted ltac:(lia) Hti Hh). lia. }
  exists q', m', i. split; [done|]. split.
  { rewrite Hview', Hview. by rewrite fmap_app, fmap_cons, fmap_take, fmap_drop. }
  split; [done|]. split; [done|].
  rewrite <- (take_drop i ts) in Hsorted.
  apply StronglySorted_app in Hsorted as (Hcross & Hs1 & Hs2).
  apply StronglySorted_app_2; [|done|].
  - intros x1 x2 Hx1 Hx2. rewrite Forall_forall in Hle, Hgt.
    apply elem_of_cons in Hx2 as [->|Hx2]; [by apply Hle|].
    specialize (Hle x1 Hx1). specialize (Hgt x2 Hx2). lia.
  - constructor; [done|]. eapply Forall_impl; [exact Hgt|]. intros; simpl in *; lia.
Qed.
End memory.

Section queues.
Context `{Runtime}.

Lemma owns_valid (m : Mem) (qs : Queues) (p : nat) :
  wf_queues m qs -> owns qs p -> p < length m.
Proof.
  intros [Hwf _] (k & q & Hk & <-).
  destruct (Hwf k q Hk) as (a & Ha & _). by eapply lookup_lt_Some.
Qed.

Lemma evolves_refl (m : Mem) (qs : Queues) : evolves m qs m qs [].
Proof.
  repeat split; eauto.
Qed.

Lemma evolves_trans (m m1 m2 : Mem) (qs qs1 qs2 : Queues) (new1 new2 : list Metric) :
  wf_queues m qs ->
  evolves m qs m1 qs1 new1 -> evolves m1 qs1 m2 qs2 new2 ->
  evolves m qs m2 qs2 (new1 ++ new2).
Proof.
  intros Hwf (Hl1 & Hf1 & Ha1 & Ho1 & Hv1) (Hl2 & Hf2 & Ha2 & Ho2 & Hv2).
  split; [lia|]. split; [|split; [|split]].
  - intros i a Hi Hown. apply Hf2; [by apply Hf1|].
    intros Hown1. destruct (Ho1 i Hown1) as [?|Hfresh]; [done|].
    apply lookup_lt_Some in Hi. lia.
  - intros i a Hi. destruct (Ha1 i a Hi) as (a1 & Hi1 & Hlen1).
    destruct (Ha2 i a1 Hi1) as (a2 & Hi2 & Hlen2). exists a2. split; [done|congruence].
  - intros p Hp. destruct (Ho2 p Hp) as [Hp1|Hfresh]; [|right; lia].
    destruct (Ho1 p Hp1) as [?|?]; [by left|by right].
  - intros k q2 c Hk Hc. destruct (Hv2 k q2 c Hk Hc) as [(x & Hx & ->)|(q1 & Hk1 & Hc1)].
    + left. exists x. split; [|done]. apply elem_of_app. by right.
    + destruct (Hv1 k q1 c Hk1 Hc1) as [(x & Hx & ->)|Hold]; [|by right].
      left. exists x. split; [|done]. apply elem_of_app. by left.
Qed.

(** The first sample of a series. *)
Lemma evolves_fresh (m : Mem) (qs : Queues) (name : string) (el : Metric) :
  wf_queues m qs -> qs !! name = None ->
  wf_queues (m ++ [[Some (canonical el)]]) (<[name := mkSlice (length m) 1 1]> qs) /\
  evolves m qs (m ++ [[Some (canonical el)]]) (<[name := mkSlice (length m) 1 1]> qs) [el].
Proof.
  intros Hwf Hnone. pose proof Hwf as [Hslices Hinj].
  assert (forall q, wf_slice m q -> wf_slice (m ++ [[Some (canonical el)]]) q) as Hkeep.
  { intros q. apply (wf_slice_writes 0), writes_only_alloc. }
  assert (forall q, wf_slice m q ->
                    view (m ++ [[Some (canonical el)]]) q = view m q) as Hview.
  { intros q (a & Ha & _). unfold view. by rewrite (lookup_app_l_Some _ _ _ _ Ha), Ha. }
  split; [split|].
  - intros k q Hk. apply lookup_insert_Some in Hk as [[<- <-]|[Hne Hk]]; [|by eauto].
    exists [Some (canonical el)]. simpl. by rewrite list_lookup_middle.
  - intros k1 k2 q1 q2 Hk1 Hk2 Hptr.
    apply lookup_insert_Some in Hk1 as [[<- <-]|[Hne1 Hk1]];
      apply lookup_insert_Some in Hk2 as [[<- <-]|[Hne2 Hk2]]; try done.
    + simpl in Hptr. destruct (Hslices _ _ Hk2) as (a & Ha & _).
      apply lookup_lt_Some in Ha. lia.
    + simpl in Hptr. destruct (Hslices _ _ Hk1) as (a & Ha & _).
      apply lookup_lt_Some in Ha. lia.
    + by eapply Hinj.
  - split; [rewrite length_app; simpl; lia|]. split; [|split; [|split]].
    + intros i a Hi _. by apply lookup_app_l_Some.
    + intros i a Hi. exists a. split; [by apply lookup_app_l_Some|done].
    + intros p (k & q & Hk & <-).
      apply lookup_insert_Some in Hk as [[<- <-]|[Hne Hk]]; [by right|].
      left. by exists k, q.
    + intros k q' c Hk Hc.
      apply lookup_insert_Some in Hk as [[<- <-]|[Hne Hk]].
      * left. exists el. split; [by apply list_elem_of_singleton|].
        unfold view in Hc. simpl in Hc. rewrite list_lookup_middle in Hc by done.
        simpl in Hc. by apply list_elem_of_singleton in Hc.
      * right. exists q'. split; [done|]. rewrite <- Hview; [done|by eauto].
Qed.

(** A sample for a series that is there: the array of its queue is
    written or a new one is allocated, and the map gets the header [q']
    or keeps its own. *)
Lemma evolves_update (m m' : Mem) (qs : Queues) (name : string)
    (queue : slice) (new_q : option slice) (el : Metric) :
  wf_queues m qs -> qs !! name = Some queue ->
  writes_only (s_ptr queue) m m' ->
  (forall c, c ∈ view m' queue -> c ∈ view m queue \/ c = Some (canonical el)) ->
  match new_q with
  | Some q' =>
      wf_slice m' q' /\ (s_ptr q' = s_ptr queue \/ s_ptr q' = length m) /\
      (forall c, c ∈ view m' q' -> c ∈ view m queue \/ c = Some (canonical el))
  | None => True
  end ->
  let qs' := match new_q with Some q' => <[name := q']> qs | None => qs end in
  wf_queues m' qs' /\ evolves m qs m' qs' [el].
Proof.
  intros Hwf Hname Hw Hold Hnew qs'. pose proof Hwf as [Hslices Hinj].
  assert (forall k q, qs !! k = Some q -> k <> name -> view m' q = view m q) as Hother.
  { intros k q Hk Hne. apply (view_writes (s_ptr queue)); [done|by eauto|].
    intros Hptr. apply Hne. by eapply Hinj. }
  assert (forall k q' c, qs' !! k = Some q' -> c ∈ view m' q' ->
            (exists x, x ∈ [el] /\ c = Some (canonical x)) \/
            (exists q, qs !! k = Some q /\ c ∈ view m q)) as Hviews.
  { intros k q' c Hk Hc. subst qs'. destruct new_q as [q1|].
    - apply lookup_insert_Some in Hk as [[<- <-]|[Hne Hk]].
      + destruct Hnew as (_ & _ & Hv). destruct (Hv c Hc) as [?| ->]; [right; eauto|].
        left. exists el. split; [by apply list_elem_of_singleton|done].
      + right. exists q'. split; [done|]. by rewrite <- (Hother k).
    - destruct (decide (k = name)) as [->|Hne].
      + assert (q' = queue) as -> by congruence.
        destruct (Hold c Hc) as [?| ->]; [right; eauto|].
        left. exists el. split; [by apply list_elem_of_singleton|done].
      + right. exists q'. split; [done|]. by rewrite <- (Hother k). }
  split; [split|].
  - intros k q Hk. subst qs'. destruct new_q as [q1|].
    + apply lookup_insert_Some in Hk as [[<- <-]|[Hne Hk]]; [by destruct Hnew|].
      eapply wf_slice_writes; eauto.
    + eapply wf_slice_writes; eauto.
  - intros k1 k2 q1 q2 Hk1 Hk2 Hptr. subst qs'. destruct new_q as [q'|]; [|by eauto].
    destruct Hnew as (_ & Hp & _).
    assert (forall k q, qs !! k = Some q -> k <> name -> s_ptr q <> s_ptr q') as Hdiff.
    { intros k q Hk Hne Heq. destruct (Hslices _ _ Hk) as (a & Ha & _).
      apply lookup_lt_Some in Ha. destruct Hp as [Hp|Hp]; [|lia].
      apply Hne. eapply Hinj; eauto. congruence. }
    apply lookup_insert_Some in Hk1 as [[<- <-]|[Hne1 Hk1]];
      apply lookup_insert_Some in Hk2 as [[<- <-]|[Hne2 Hk2]]; try done.
    + exfalso. by eapply Hdiff.
    + exfalso. by eapply Hdiff.
    + by eapply Hinj.
  - destruct Hw as [Hlen Hw]. split; [done|]. split; [|split; [|split]]; [| | |done].
    + intros i a Hi Hown. destruct (Hw i a Hi) as (a' & Hi' & _ & Heq).
      rewrite Hi'. f_equal. apply Heq. intros ->. apply Hown. by exists name, queue.
    + intros i a Hi. destruct (Hw i a Hi) as (a' & Hi' & Hl & _). eauto.
    + intros p (k & q & Hk & <-). subst qs'. destruct new_q as [q'|]; [|left; by exists k, q].
      apply lookup_insert_Some in Hk as [[<- <-]|[Hne Hk]]; [|left; by exists k, q].
      destruct Hnew as (_ & [Hp|Hp] & _); [left; exists name, queue; by split|right; lia].
Qed.

Lemma evolves_weaken (m m' : Mem) (qs qs' : Queues) (new new' : list Metric) :
  (forall x, x ∈ new -> x ∈ new') -> evolves m qs m' qs' new -> evolves m qs m' qs' new'.
Proof.
  intros Hsub (Hl & Hf & Ha & Ho & Hv). repeat (split; [done|]).
  intros k q' c Hk Hc. destruct (Hv k q' c Hk Hc) as [(x & Hx & ->)|?]; [|by right].
  left. exists x. split; [by apply Hsub|done].
Qed.

Lemma last_of_readonly (queue : slice) (m : Mem) : snd (last_of queue m) = m.
Proof.
  unfold last_of. destruct (s_len queue) as [|n]; [done|].
  mrun. destruct (n <? _); [|done].
  destruct (m !! s_ptr queue) as [a|]; [|done].
  destruct (a !! n) as [[x|]|]; done.
Qed.

Lemma merge_step_eq (fresh_family : bool) (familyName : string) (metric : Metric)
    (m : Mem) (qs : Queues) :
  merge_step fresh_family familyName metric (m, qs) =
  let name := fst (makeLabeledName metric familyName) in
  match qs !! name with
  | Some queue =>
      match TimestampMs metric with
      | None => (Panic "invalid memory address or nil pointer dereference", (m, qs))
      | Some t =>
          match last_of queue m with
          | (Panic why, m0) => (Panic why, (m0, qs))
          | (Ok last, m0) =>
              match TimestampMs last with
              | None =>
                  (Panic "invalid memory address or nil pointer dereference", (m0, qs))
              | Some tl =>
                  if (t >=? tl)%Z then
                    match append queue (Some (canonical metric)) m0 with
                    | (Ok q, m1) => (Ok tt, (m1, <[name := q]> qs))
                    | (Panic why, m1) => (Panic why, (m1, qs))
                    end
                  else
                    match sortedInsert queue (canonical metric) m0 with
                    | (Ok q, m1) =>
                        (Ok tt, (m1, if fresh_family then <[name := q]> qs else qs))
                    | (Panic why, m1) => (Panic why, (m1, qs))
                    end
              end
          end
      end
  | None => (Ok tt, (m ++ [[Some (canonical metric)]],
                     <[name := mkSlice (length m) 1 1]> qs))
  end.
Proof.
  cbv zeta. unfold merge_step.
  destruct fresh_family; unfold newFamily_step, addMetrics_step;
    rewrite (makeLabeledName_eta metric familyName); fold (canonical metric);
    rewrite run_bind; unfold lookup_queue, gets; cbn [fst snd];
    (destruct (qs !! _) as [queue|]; [|reflexivity]);
    rewrite run_bind; cbn [TimestampMs canonical];
    (destruct (TimestampMs metric) as [t|]; [|reflexivity]);
    unfold deref at 1, ret at 1; cbv beta iota;
    rewrite run_bind; unfold in_mem at 1; cbn [fst snd];
    (destruct (last_of queue m) as [[last|why] m0]; [|reflexivity]);
    rewrite run_bind;
    (destruct (TimestampMs last) as [tl|]; [|reflexivity]);
    unfold deref at 1, ret at 1; cbv beta iota;
    (destruct (t >=? tl)%Z);
    rewrite run_bind; unfold in_mem at 1; cbn [fst snd].
  all: try (destruct (append queue _ m0) as [[q|why] m1]; reflexivity).
  all: destruct (sortedInsert queue _ m0) as [[q|why] m1]; reflexivity.
Qed.

Lemma merge_step_spec (fresh_family : bool) (familyName : string) (metric : Metric)
    (m : Mem) (qs : Queues) :
  wf_queues m qs ->
  exists r m' qs',
    merge_step fresh_family familyName metric (m, qs) = (r, (m', qs')) /\
    wf_queues m' qs' /\ evolves m qs m' qs' [metric].
Proof.
  intros Hwf.
  assert (forall why : string,
            exists (r : Res unit) m' qs', (Panic why, (m, qs)) = (r, (m', qs')) /\
              wf_queues m' qs' /\ evolves m qs m' qs' [metric]) as Hpanic.
  { intros why. exists (Panic why), m, qs. split; [done|]. split; [done|].
    eapply evolves_weaken; [|apply evolves_refl]. intros x Hx. by apply elem_of_nil in Hx. }
  rewrite merge_step_eq. cbv zeta.
  set (name := fst (makeLabeledName metric familyName)).
  destruct (qs !! name) as [queue|] eqn:Hname.
  2:{ destruct (evolves_fresh m qs name metric Hwf Hname). eauto 6. }
  destruct (TimestampMs metric) as [t|]; [|apply Hpanic].
  pose proof (last_of_readonly queue m) as Hro.
  destruct (last_of queue m) as [[last|why] m0]; simpl in Hro; subst m0; [|apply Hpanic].
  destruct (TimestampMs last) as [tl|]; [|apply Hpanic].
  assert (wf_slice m queue) as Hq by (destruct Hwf as [Hs _]; eauto).
  destruct (t >=? tl)%Z.
  - destruct (append_spec queue (Some (canonical metric)) m Hq)
      as (q1 & m1 & -> & Hw & Hv & Hwf1 & Hptr & _ & Hview).
    destruct (evolves_update m m1 qs name queue (Some q1) metric Hwf Hname Hw) as [? ?].
    + intros c Hc. left. by rewrite <- Hv.
    + split; [done|]. split; [done|]. intros c Hc. rewrite Hview in Hc.
      apply elem_of_app in Hc as [?|Hc]; [by left|].
      apply list_elem_of_singleton in Hc. by right.
    + eauto 6.
  - destruct (sortedInsert_spec queue (canonical metric) m Hq)
      as (r & m1 & -> & Hw & Hv & Hr).
    destruct r as [q1|why].
    + destruct Hr as (Hwf1 & Hptr & _ & i & _ & _ & Hview).
      destruct fresh_family.
      * destruct (evolves_update m m1 qs name queue (Some q1) metric Hwf Hname Hw Hv)
          as [? ?]; [|eauto 6].
        split; [done|]. split; [done|]. intros c Hc. rewrite Hview in Hc.
        by apply elem_of_take_drop_insert in Hc.
      * destruct (evolves_update m m1 qs name queue None metric Hwf Hname Hw Hv I)
          as [? ?]. eauto 6.
    + destruct Hr as [-> _]. apply Hpanic.
Qed.

Lemma merge_loop_spec (fresh_family : bool) (familyName : string)
    (new : list Metric) (m : Mem) (qs : Queues) :
  wf_queues m qs ->
  exists r m' qs',
    for_each new (merge_step fresh_family familyName) (m, qs) = (r, (m', qs')) /\
    wf_queues m' qs' /\ evolves m qs m' qs' new.
Proof.
  revert m qs. induction new as [|x new IH]; intros m qs Hwf.
  { exists (Ok tt), m, qs. split; [done|]. split; [done|apply evolves_refl]. }
  destruct (merge_step_spec fresh_family familyName x m qs Hwf)
    as (r1 & m1 & qs1 & Hstep & Hwf1 & Hev1).
  simpl. rewrite run_bind, Hstep. destruct r1 as [[]|why].
  - destruct (IH m1 qs1 Hwf1) as (r & m' & qs' & Hloop & Hwf' & Hev').
    exists r, m', qs'. split; [done|]. split; [done|].
    by apply (evolves_trans m m1 m' qs qs1 qs' [x] new).
  - exists (Panic why), m1, qs1. split; [done|]. split; [done|].
    eapply evolves_weaken; [|exact Hev1].
    intros y Hy. apply elem_of_cons. left. by apply list_elem_of_singleton in Hy.
Qed.

Lemma untouched (m m' : Mem) (qs qs' : Queues) (new : list Metric) (q : slice) :
  evolves m qs m' qs' new -> wf_slice m q -> ~ owns qs (s_ptr q) ->
  wf_slice m' q /\ view m' q = view m q.
Proof.
  intros (_ & Hf & _) (a & Ha & Hcap & Hlen) Hown.
  pose proof (Hf _ _ Ha Hown) as Ha'. split.
  - by exists a.
  - unfold view. by rewrite Ha, Ha'.
Qed.

End queues.

Section store.
Context `{Runtime}.

Lemma wf_queues_empty (m : Mem) : wf_queues m ∅.
Proof. split; intros *; by rewrite lookup_empty. Qed.

Lemma owns_empty (p : nat) : ~ owns ∅ p.
Proof. intros (k & q & Hk & _). by rewrite lookup_empty in Hk. Qed.

(** The queues of the family [name] have evolved, those of the other
    families are as they were. *)
Lemma store_evolves (m m' : Mem) (fs : gmap string familyAndMetrics)
    (name : string) (qs' : Queues) (new : list Metric) (f' : familyAndMetrics) :
  wf_store m fs ->
  evolves m (from_option metrics ∅ (fs !! name)) m' qs' new ->
  wf_queues m' qs' -> metrics f' = qs' ->
  wf_store m' (<[name := f']> fs) /\
  (forall x, stored m' (<[name := f']> fs) x ->
             stored m fs x \/ exists y, y ∈ new /\ x = canonical y).
Proof.
  intros [Hqs Hdisj] Hev Hwf' Hf'.
  set (qs0 := from_option metrics ∅ (fs !! name)) in *.
  assert (forall fk f p, fs !! fk = Some f -> fk <> name -> owns (metrics f) p ->
                         ~ owns qs0 p) as Hnot.
  { intros fk f p Hfk Hne Hown Hown0. subst qs0.
    destruct (fs !! name) as [f0|] eqn:Hname; simpl in Hown0.
    - apply Hne. by eapply (Hdisj fk name).
    - by apply owns_empty in Hown0. }
  assert (forall fk f k q, fs !! fk = Some f -> fk <> name -> metrics f !! k = Some q ->
                           wf_slice m' q /\ view m' q = view m q) as Hsame.
  { intros fk f k q Hfk Hne Hk. eapply untouched; [done| |].
    - destruct (Hqs fk f Hfk) as [Hs _]. eauto.
    - eapply Hnot; [done..|]. by exists k, q. }
  split; [split|].
  - intros fk f Hfk. apply lookup_insert_Some in Hfk as [[<- <-]|[Hne Hfk]].
    { by rewrite Hf'. }
    destruct (Hqs fk f Hfk) as [Hs Hinj]. split; [|done].
    intros k q Hk. by destruct (Hsame fk f k q).
  - intros fk1 fk2 f1 f2 p Hfk1 Hfk2 Hown1 Hown2.
    assert (forall fk f, fs !! fk = Some f -> fk <> name -> owns (metrics f) p ->
                         ~ owns qs' p) as Hnew.
    { intros fk f Hfk Hne Hown Hown'.
      destruct Hev as (_ & _ & _ & Ho & _). destruct (Ho p Hown') as [Hold|Hfresh].
      - by eapply Hnot.
      - pose proof (owns_valid m (metrics f) p (Hqs fk f Hfk) Hown). lia. }
    apply lookup_insert_Some in Hfk1 as [[<- <-]|[Hne1 Hfk1]];
      apply lookup_insert_Some in Hfk2 as [[<- <-]|[Hne2 Hfk2]]; try done.
    + rewrite Hf' in Hown1. exfalso. by eapply Hnew.
    + rewrite Hf' in Hown2. exfalso. by eapply Hnew.
    + by eapply Hdisj.
  - intros x (fk & f & k & q & Hfk & Hk & Hx).
    apply lookup_insert_Some in Hfk as [[<- <-]|[Hne Hfk]].
    + rewrite Hf' in Hk. destruct Hev as (_ & _ & _ & _ & Hv).
      destruct (Hv k q (Some x) Hk Hx) as [(y & Hy & Heq)|(q0 & Hk0 & Hx0)].
      * right. exists y. split; [done|]. congruence.
      * left. subst qs0. destruct (fs !! name) as [f0|] eqn:Hname; simpl in Hk0.
        -- by exists name, f0, k, q0.
        -- by rewrite lookup_empty in Hk0.
    + left. exists fk, f, k, q. split; [done|]. split; [done|].
      destruct (Hsame fk f k q Hfk (not_eq_sym Hne) Hk) as [_ <-]. done.
Qed.

(** Queues were built for a family that is not in the store. *)
Lemma store_frame (m m' : Mem) (fs : gmap string familyAndMetrics)
    (qs' : Queues) (new : list Metric) :
  wf_store m fs -> evolves m ∅ m' qs' new ->
  wf_store m' fs /\ (forall x, stored m' fs x -> stored m fs x).
Proof.
  intros [Hqs Hdisj] Hev.
  assert (forall fk f k q, fs !! fk = Some f -> metrics f !! k = Some q ->
                           wf_slice m' q /\ view m' q = view m q) as Hsame.
  { intros fk f k q Hfk Hk. eapply untouched; [done| |apply owns_empty].
    destruct (Hqs fk f Hfk) as [Hs _]. eauto. }
  split; [split; [|done]|].
  - intros fk f Hfk. destruct (Hqs fk f Hfk) as [Hs Hinj]. split; [|done].
    intros k q Hk. by destruct (Hsame fk f k q).
  - intros x (fk & f & k & q & Hfk & Hk & Hx). exists fk, f, k, q.
    split; [done|]. split; [done|]. by destruct (Hsame fk f k q Hfk Hk) as [_ <-].
Qed.

Lemma hubMetrics_step_spec (fam : MetricFamily) (w : World) :
  wf_world w ->
  wf_world (snd (hubMetrics_step fam w)) /\
  (forall x,
     stored (mem (snd (hubMetrics_step fam w)))
            (metricFamiliesByName (hub (snd (hubMetrics_step fam w)))) x ->
     stored (mem w) (metricFamiliesByName (hub w)) x \/
     exists y, y ∈ Metrics fam /\ x = canonical y).
Proof.
  intros Hwf. unfold wf_world in *. unfold hubMetrics_step.
  destruct (metricFamiliesByName (hub w) !! GetName fam) as [f|] eqn:Hfam.
  - destruct (merge_loop_spec false (GetName (family f)) (Metrics fam) (mem w) (metrics f))
      as (r & m' & qs' & Hloop & Hwf' & Hev).
    { destruct Hwf as [Hqs _]. eauto. }
    unfold addMetrics. change addMetrics_step with (merge_step false).
    rewrite Hloop. simpl.
    eapply store_evolves; [done| |done|done]. by rewrite Hfam.
  - destruct (merge_loop_spec true (GetName fam) (Metrics fam) (mem w) ∅)
      as (r & m' & qs' & Hloop & Hwf' & Hev); [apply wf_queues_empty|].
    unfold newFamilyAndMetrics. change newFamily_step with (merge_step true).
    rewrite Hloop. destruct r as [[]|why]; simpl.
    + eapply store_evolves; [done| |done|done]. by rewrite Hfam.
    + destruct (store_frame _ _ _ _ _ Hwf Hev) as [? Hst]. split; [done|].
      intros x Hx. left. by apply Hst.
Qed.

Lemma hubMetrics_spec (fams : list MetricFamily) (w : World) :
  wf_world w ->
  wf_world (snd (hubMetrics fams w)) /\
  (forall x,
     stored (mem (snd (hubMetrics fams w)))
            (metricFamiliesByName (hub (snd (hubMetrics fams w)))) x ->
     stored (mem w) (metricFamiliesByName (hub w)) x \/
     exists fam y, fam ∈ fams /\ y ∈ Metrics fam /\ x = canonical y).
Proof.
  unfold hubMetrics. revert w. induction fams as [|fam fams IH]; intros w Hwf.
  { simpl. split; [done|]. by left. }
  destruct (hubMetrics_step_spec fam w Hwf) as [Hwf1 Hst1].
  simpl. rewrite run_bind.
  destruct (hubMetrics_step fam w) as [[[]|why] w1]; simpl in *.
  - destruct (IH w1 Hwf1) as [Hwf' Hst']. split; [done|].
    intros x Hx. destruct (Hst' x Hx) as [Hold|(fam' & y & Hfam' & Hy & ->)].
    + destruct (Hst1 x Hold) as [?|(y & Hy & ->)]; [by left|].
      right. exists fam, y. split; [by left|done].
    + right. exists fam', y. split; [by right|done].
  - split; [done|]. intros x Hx.
    destruct (Hst1 x Hx) as [?|(y & Hy & ->)]; [by left|].
    right. exists fam, y. split; [by left|done].
Qed.

End store.

Section immutability.
Context `{Runtime} `{Expfmt}.

Lemma stored_empty (m : Mem) (x : Metric) : ~ stored m ∅ x.
Proof. intros (fk & f & k & q & Hfk & _). by rewrite lookup_empty in Hfk. Qed.

Lemma wf_store_empty (m : Mem) : wf_store m ∅.
Proof. split; intros *; by rewrite lookup_empty. Qed.

(** A push changes the memory and the family map by its merge only. *)
Lemma push_store (p : Push) (w : World) :
  (mem (push p w) = mem w /\
   metricFamiliesByName (hub (push p w)) = metricFamiliesByName (hub w)) \/
  (exists fams, parsed p = inr fams /\
     mem (push p w) = mem (snd (hubMetrics fams w)) /\
     metricFamiliesByName (hub (push p w))
     = metricFamiliesByName (hub (snd (hubMetrics fams w)))).
Proof.
  unfold push. destruct (parsed p) as [err|fams]; [by left|].
  rewrite Receive_eq. cbv zeta. destruct (_ && _); [by left|].
  right. exists fams. split; [done|].
  destruct (hubMetrics fams w) as [[[]|why] w1]; done.
Qed.

Lemma Scrape_mem (sch : Schedule) (now : Z) (w : World) :
  mem (snd (Scrape sch now w)) = mem w /\
  metricFamiliesByName (hub (snd (Scrape sch now w))) = ∅.
Proof.
  rewrite Scrape_eq. cbv zeta.
  pose proof (exposeMetrics_frame (metricFamiliesByName (hub w)) scrapeWorkerPoolSize
                sch (set_hub (set_families ∅ (hub w)) w)) as (Hmem & Hhub & _).
  destruct (exposeMetrics _ _ _ _) as [[text|why] w1]; simpl in *.
  - by rewrite Hhub.
  - by rewrite Hhub.
Qed.

Lemma Debug_eq (verbose hostname : string) (sch : Schedule) (w : World) :
  Debug verbose hostname sch w =
  let fs := metricFamiliesByName (hub w) in
  let w1 := set_hub (set_stats (counted (Z.of_nat (size fs)) (store_series fs)
                                        (store_datapoints fs) (stats (hub w)))
                               (hub w)) w in
  let c := hub w1 in
  let limitValue := if (limit c <=? 0)%Z then None else Some (limit c) in
  let utilizationValue :=
    if (limit c <=? 0)%Z then None
    else Some ((currentCountDatapoints (stats c) * 100)%Z, limit c) in
  if String.eqb verbose "" then
    (Ok (mkResponse StatusOK
           (DebugText hostname limitValue utilizationValue (stats c) None)), w1)
  else
    match exposeMetrics (metricFamiliesByName c) scrapeWorkerPoolSize sch w1 with
    | (Ok text, w2) =>
        (Ok (mkResponse StatusOK
               (DebugText hostname limitValue utilizationValue (stats c) (Some text))),
         w2)
    | (Panic why, w2) => (Panic why, w2)
    end.
Proof.
  unfold Debug. rewrite run_bind.
  unfold updateCountStats. rewrite run_bind. unfold gets at 1. cbv beta iota zeta.
  unfold modify_stats, modify at 1. cbv beta iota.
  rewrite run_bind. unfold gets at 1. cbv beta iota.
  destruct (limit _ <=? 0)%Z; rewrite run_bind;
    (destruct (String.eqb verbose ""); [reflexivity|]);
    rewrite run_bind; destruct (exposeMetrics _ _ _ _) as [[text|why] w2]; reflexivity.
Qed.

Lemma Debug_frame (verbose hostname : string) (sch : Schedule) (w : World) :
  mem (snd (Debug verbose hostname sch w)) = mem w /\
  metricFamiliesByName (hub (snd (Debug verbose hostname sch w)))
  = metricFamiliesByName (hub w).
Proof.
  rewrite Debug_eq. cbv zeta.
  destruct (String.eqb verbose ""); [done|].
  match goal with |- context [exposeMetrics ?s ?n ?c ?w0] =>
    pose proof (exposeMetrics_frame s n c w0) as (Hmem & Hhub & _);
    destruct (exposeMetrics s n c w0) as [[text|why] w1]
  end; simpl in *; by rewrite Hmem, Hhub.
Qed.

Lemma run_op_wf (o : Op) (w : World) : wf_world w -> wf_world (run_op o w).
Proof.
  intros Hwf. unfold wf_world in *. destruct o as [p|sch now|v h sch]; simpl.
  - destruct (push_store p w) as [[-> ->]|(fams & _ & -> & ->)]; [done|].
    by apply hubMetrics_spec.
  - destruct (Scrape_mem sch now w) as [_ ->]. apply wf_store_empty.
  - by destruct (Debug_frame v h sch w) as [-> ->].
Qed.

Lemma reachable_wf (limit timeout : Z) (ops : list Op) :
  wf_world (run_ops ops (NewMetricHub limit timeout)).
Proof.
  unfold run_ops.
  assert (wf_world (NewMetricHub limit timeout)) as Hinit by apply wf_store_empty.
  revert Hinit. generalize (NewMetricHub limit timeout).
  induction ops as [|o ops IH]; intros w Hw; simpl; [done|].
  by apply IH, run_op_wf.
Qed.

(** C9, as the code has it.  In every state a hub can reach: a sample the
    hub holds after a push was held before the push, unchanged, or is a
    sample of the push with its value and timestamp as pushed and its
    label pairs sorted by name (the same pairs, in the order
    [makeLabeledName] left them); and scrape, render and debug leave the
    memory in which the samples are kept as it is. *)
Theorem samples_change_in_label_order_only (limit timeout : Z) (ops : list Op) :
  let w := run_ops ops (NewMetricHub limit timeout) in
  (forall (p : Push) (x : Metric),
     stored (mem (push p w)) (metricFamiliesByName (hub (push p w))) x ->
     stored (mem w) (metricFamiliesByName (hub w)) x \/
     exists fams fam y,
       parsed p = inr fams /\ fam ∈ fams /\ y ∈ Metrics fam /\
       Value x = Value y /\ TimestampMs x = TimestampMs y /\
       Label x = sortSlice (Label y) /\ Label x ≡ₚ Label y) /\
  (forall sch now, mem (snd (Scrape sch now w)) = mem w) /\
  (forall snapshot workers sch,
     mem (snd (exposeMetrics snapshot workers sch w)) = mem w /\
     hub (snd (exposeMetrics snapshot workers sch w)) = hub w) /\
  (forall verbose hostname sch,
     mem (snd (Debug verbose hostname sch w)) = mem w /\
     metricFamiliesByName (hub (snd (Debug verbose hostname sch w)))
     = metricFamiliesByName (hub w)).
Proof.
  intros w. pose proof (reachable_wf limit timeout ops) as Hwf. fold w in Hwf.
  split; [|split; [|split]].
  - intros p x Hx.
    destruct (push_store p w) as [[Hm Hs]|(fams & Hp & Hm & Hs)].
    + left. by rewrite Hm, Hs in Hx.
    + rewrite Hm, Hs in Hx.
      destruct (hubMetrics_spec fams w Hwf) as [_ Hst].
      destruct (Hst x Hx) as [?|(fam & y & Hfam & Hy & ->)]; [by left|].
      right. exists fams, fam, y. simpl.
      do 6 (split; [done|]). apply sortSlice_perm.
  - intros sch now. by destruct (Scrape_mem sch now w).
  - intros snapshot workers sch.
    by destruct (exposeMetrics_frame snapshot workers sch w) as (? & ? & _).
  - intros verbose hostname sch. apply Debug_frame.
Qed.

End immutability.

(** C9 as stated fails on the order of the label pairs.  The sample
    [{method="post",code="200"}] is accepted with status 200, and what
    the hub then holds is the sample with the pairs in the order [code],
    [method]; the sample as it was pushed is not in the store. *)
Lemma stored_labels_reordered :
  let pushed := mkMetric [mkLabelPair (Some "method") (Some "post");
                          mkLabelPair (Some "code") (Some "200")]
                         (CounterValue 1027) (Some 1395066363410%Z) in
  let kept := mkMetric [mkLabelPair (Some "code") (Some "200");
                        mkLabelPair (Some "method") (Some "post")]
                       (CounterValue 1027) (Some 1395066363410%Z) in
  let fam := mkMetricFamily (Some "http_requests_total"%string)
               (Some "The total number of HTTP requests."%string) (Some COUNTER)
               [pushed] in
  let result := @Receive doubling (inr [fam]) 90 1559953047 (NewMetricHub 0 10) in
  fst result = Ok (mkResponse StatusOK NoContent) /\
  stored (mem (snd result)) (metricFamiliesByName (hub (snd result))) kept /\
  ~ stored (mem (snd result)) (metricFamiliesByName (hub (snd result))) pushed.
Proof.
  intros pushed kept fam result. split; [reflexivity|]. split.
  - exists "http_requests_total"%string,
      (mkFam (mkMetricFamily (Some "http_requests_total"%string)
                (Some "The total number of HTTP requests."%string) (Some COUNTER) [])
             {[ "http_requests_total_code_200_method_post"%string := mkSlice 0 1 1 ]}),
      "http_requests_total_code_200_method_post"%string, (mkSlice 0 1 1).
    split; [vm_compute; reflexivity|]. split; [vm_compute; reflexivity|].
    vm_compute. apply list_elem_of_singleton. reflexivity.
  - intros Hst.
    assert (mem (snd result) = mem (snd (@hubMetrics doubling [fam] (NewMetricHub 0 10))))
      as Hm by reflexivity.
    assert (metricFamiliesByName (hub (snd result))
            = metricFamiliesByName (hub (snd (@hubMetrics doubling [fam] (NewMetricHub 0 10)))))
      as Hs by reflexivity.
    rewrite Hm, Hs in Hst.
    destruct (@hubMetrics_spec doubling [fam] (NewMetricHub 0 10)) as [_ Hspec];
      [apply wf_store_empty|].
    destruct (Hspec pushed Hst) as [Hold|(fam' & y & Hfam' & Hy & Heq)].
    + by apply stored_empty in Hold.
    + apply list_elem_of_singleton in Hfam' as ->.
      apply list_elem_of_singleton in Hy as ->. discriminate Heq.
Qed.

(** * Further properties *)

(** ** Queues in timestamp order *)

Section order.
Context `{Runtime}.

Lemma place_split (el : Metric) (l1 l2 : list Metric) :
  Forall (fun x => later x el = false) l1 ->
  match l2 with [] => True | y :: _ => later y el = true end ->
  place el (l1 ++ l2) = l1 ++ el :: l2.
Proof.
  intros Hl1 Hl2. induction Hl1 as [|x l1 Hx _ IH]; simpl.
  - destruct l2 as [|y l2]; simpl; [done|]. by rewrite Hl2.
  - by rewrite Hx, IH.
Qed.

Lemma place_perm (el : Metric) (xs : list Metric) : place el xs ≡ₚ el :: xs.
Proof.
  induction xs as [|x xs IH]; simpl; [done|].
  destruct (later x el); [done|]. rewrite IH. apply perm_swap.
Qed.

Lemma place_length (el : Metric) (xs : list Metric) :
  length (place el xs) = S (length xs).
Proof. by rewrite place_perm. Qed.

(** The timestamps of a queue in order whose last sample has one. *)
Lemma chronological_timestamps (xs : list Metric) (l : Metric) (tl : Z) :
  StronglySorted before xs -> last xs = Some l -> TimestampMs l = Some tl ->
  exists ts, TimestampMs <$> xs = Some <$> ts /\ StronglySorted Z.le ts /\
             Forall (fun t => (t <= tl)%Z) ts.
Proof.
  intros Hs. revert l tl. induction Hs as [|x xs Hs IH Hall]; intros l tl Hlast Htl.
  { done. }
  destruct xs as [|y ys].
  - simpl in Hlast. injection Hlast as <-. exists [tl]. simpl. rewrite Htl.
    split; [done|]. split; [repeat constructor|]. constructor; [lia|constructor].
  - change (last (x :: y :: ys)) with (last (y :: ys)) in Hlast.
    destruct (IH l tl Hlast Htl) as (ts & Hts & Hsorted & Hle).
    apply Forall_cons in Hall as Hall'. destruct Hall' as [(tx & ty & Htx & Hty & Hxy) Hrest].
    exists (tx :: ts). split; [by rewrite (fmap_cons TimestampMs), Htx, Hts|].
    assert (Forall (Z.le tx) ts) as Hxts.
    { apply Forall_forall. intros t Ht.
      apply list_elem_of_lookup in Ht as (i & Hi).
      assert ((Some <$> ts) !! i = Some (Some t)) as Hi' by (by rewrite list_lookup_fmap, Hi).
      rewrite <- Hts, list_lookup_fmap in Hi'.
      destruct ((y :: ys) !! i) as [z|] eqn:Hz; [|done]. simpl in Hi'.
      rewrite Forall_forall in Hall.
      destruct (Hall z) as (tx' & tz & Htx' & Htz & Hle'); [by eapply list_elem_of_lookup_2|].
      injection Hi' as Hi'. rewrite Htx in Htx'. injection Htx' as <-.
      rewrite Htz in Hi'. injection Hi' as <-. done. }
    split; [by constructor|]. constructor; [|done].
    assert (l ∈ y :: ys) as Hl.
    { apply last_Some in Hlast as (pre & Hpre). rewrite Hpre. apply elem_of_app. right. by left. }
    rewrite Forall_forall in Hall.
    destruct (Hall l Hl) as (tx' & tl' & Htx' & Htl' & Hle'). 
    rewrite Htx in Htx'. injection Htx' as <-. rewrite Htl in Htl'. injection Htl' as <-. done.
Qed.

Lemma sorted_timestamps (xs : list Metric) (ts : list Z) :
  TimestampMs <$> xs = Some <$> ts -> StronglySorted Z.le ts ->
  StronglySorted before xs.
Proof.
  revert ts. induction xs as [|x xs IH]; intros ts Hts Hs; [constructor|].
  destruct ts as [|t ts]; [done|]. rewrite !fmap_cons in Hts. injection Hts as Hx Hts.
  apply StronglySorted_inv in Hs as [Hs Hall]. constructor; [by eapply IH|].
  apply Forall_forall. intros y Hy. apply list_elem_of_lookup in Hy as (i & Hi).
  assert ((TimestampMs <$> xs) !! i = Some (TimestampMs y)) as Hi'
    by (by rewrite list_lookup_fmap, Hi).
  rewrite Hts, list_lookup_fmap in Hi'.
  destruct (ts !! i) as [ty|] eqn:Hty; [|done]. simpl in Hi'. injection Hi' as Hi'.
  exists t, ty. split; [done|]. split; [done|].
  rewrite Forall_forall in Hall. apply Hall. by eapply list_elem_of_lookup_2.
Qed.


Lemma index_view (q : slice) (i : nat) (x : Metric) (m : Mem) :
  view m q !! i = Some (Some x) -> index q i m = (Ok x, m).
Proof.
  unfold view, index. intros Hx. apply lookup_take_Some in Hx as [Hx Hi].
  assert ((i <? s_len q) = true) as -> by (by apply Nat.ltb_lt).
  mrun. destruct (m !! s_ptr q) as [a|]; simpl in Hx; [|by rewrite lookup_nil in Hx].
  by rewrite Hx.
Qed.

Lemma last_of_view (q : slice) (xs : list Metric) (l : Metric) (m : Mem) :
  wf_slice m q -> view m q = Some <$> xs -> last xs = Some l ->
  last_of q m = (Ok l, m).
Proof.
  intros Hwf Hview Hlast.
  assert (s_len q = length xs) as Hlen
    by (rewrite <- (view_length m q Hwf), Hview; apply length_fmap).
  rewrite last_lookup in Hlast. unfold last_of.
  destruct (s_len q) as [|n] eqn:Hn.
  { rewrite <- Hlen in Hlast. destruct xs; [done|simpl in Hlen; lia]. }
  rewrite <- Hlen in Hlast. simpl in Hlast.
  apply index_view. by rewrite Hview, list_lookup_fmap, Hlast.
Qed.

(** What the header given to [sortedInsert] shows afterwards: what it
    showed before, when the insertion went to a new array, and the queue
    returned less its last sample, when it was made in place. *)
Lemma sortedInsert_old_view (q q' : slice) (el : Metric) (m m' : Mem) :
  wf_slice m q -> sortedInsert q el m = (Ok q', m') ->
  view m' q = view m q \/ view m' q = take (s_len q) (view m' q').
Proof.
  intros Hwf. unfold sortedInsert. rewrite run_bind.
  destruct (Search_loop_readonly (later_than q el) 0 (s_len q) m
              (later_than_readonly q el)) as [Hmem Hidx].
  fold (Search (s_len q) (later_than q el)) in Hmem, Hidx.
  destruct (Search (s_len q) (later_than q el) m) as [[i|why] m0] eqn:Hsearch;
    simpl in Hmem; subst m0; [|done].
  assert (i <= s_len q) as Hi by (destruct (Hidx i eq_refl); lia). clear Hidx.
  destruct (append_spec q (Some emptyMetric) m Hwf)
    as (q1 & m1 & Happ & Hw1 & Hv1 & Hwf1 & Hptr & Hlen1 & Hview1).
  rewrite run_bind, Happ. destruct Hwf1 as (a1 & Ha1 & Hcap1 & Hle1).
  unfold copy_up, set_index. mrun. rewrite Hlen1.
  assert ((S i <=? S (s_len q)) = true) as -> by (apply Nat.leb_le; lia).
  assert ((i <? S (s_len q)) = true) as -> by (apply Nat.ltb_lt; lia).
  rewrite Ha1. simpl.
  rewrite list_lookup_insert_eq by (by eapply lookup_lt_Some). simpl.
  rewrite list_insert_insert_eq.
  intros [= <- <-].
  match goal with |- context [<[s_ptr q1 := ?a]> m1] => set (a3 := a) in * end.
  destruct Hptr as [Hsame|Hfresh].
  - right. unfold view. rewrite Hsame, Hlen1. rewrite take_take.
    by rewrite Nat.min_l by lia.
  - left. rewrite <- Hv1. destruct Hwf as (a & Ha & _). apply lookup_lt_Some in Ha.
    unfold view. by rewrite list_lookup_insert_ne by lia.
Qed.

Lemma shows_update (m m' : Mem) (qs : Queues) (aq : Contents) (name : string)
    (queue q' : slice) (ys : list Metric) :
  wf_queues m qs -> shows m qs aq -> qs !! name = Some queue ->
  writes_only (s_ptr queue) m m' -> view m' q' = Some <$> ys ->
  shows m' (<[name := q']> qs) (<[name := ys]> aq).
Proof.
  intros [Hwf Hinj] Hshows Hname Hw Hview k.
  destruct (decide (k = name)) as [->|Hne].
  - rewrite !lookup_insert_eq. simpl. by rewrite Hview.
  - rewrite !lookup_insert_ne by done. rewrite <- Hshows.
    destruct (qs !! k) as [qk|] eqn:Hk; [|done]. simpl. f_equal.
    eapply view_writes; [done|by eapply Hwf|].
    intros Heq. apply Hne. by eapply Hinj.
Qed.

Lemma shows_fresh (m : Mem) (qs : Queues) (aq : Contents) (name : string)
    (el : Metric) :
  wf_queues m qs -> shows m qs aq ->
  shows (m ++ [[Some el]]) (<[name := mkSlice (length m) 1 1]> qs)
        (<[name := [el]]> aq).
Proof.
  intros Hwf Hshows k. destruct (decide (k = name)) as [->|Hne].
  - rewrite !lookup_insert_eq. simpl. unfold view. simpl.
    by rewrite list_lookup_middle.
  - rewrite !lookup_insert_ne by done. rewrite <- Hshows.
    destruct (qs !! k) as [qk|] eqn:Hk; [|done]. simpl. f_equal.
    apply (view_writes (length m)); [apply writes_only_alloc|by eapply Hwf|].
    assert (s_ptr qk < length m); [|lia].
    eapply owns_valid; [done|]. by exists k, qk.
Qed.

Lemma chronological_insert (aq : Contents) (name : string) (ys : list Metric) :
  (forall k xs, aq !! k = Some xs -> chronological xs) -> chronological ys ->
  forall k xs, <[name := ys]> aq !! k = Some xs -> chronological xs.
Proof.
  intros Hall Hys k xs Hk. apply lookup_insert_Some in Hk as [[_ <-]|[_ Hk]]; eauto.
Qed.

Lemma place_timestamps (el : Metric) (te : Z) (xs : list Metric) (ts : list Z) :
  TimestampMs el = Some te ->
  TimestampMs <$> xs = Some <$> ts -> StronglySorted Z.le ts ->
  exists ts', TimestampMs <$> place el xs = Some <$> ts' /\ StronglySorted Z.le ts' /\
              (forall z, z ∈ ts' -> z = te \/ z ∈ ts).
Proof.
  intros Hte. revert ts. induction xs as [|x xs IH]; intros ts Hts Hs.
  { exists [te]. simpl. rewrite Hte. split; [done|]. split; [repeat constructor|].
    intros z Hz. left. by apply list_elem_of_singleton in Hz. }
  destruct ts as [|t ts]; [done|]. rewrite !fmap_cons in Hts. injection Hts as Hx Hts.
  apply StronglySorted_inv in Hs as [Hs Hall]. simpl.
  unfold later. rewrite Hx, Hte. destruct (t >? te)%Z eqn:Hgt.
  - exists (te :: t :: ts). rewrite !fmap_cons, Hte, Hx, Hts. split; [done|]. split.
    + constructor; [by constructor|]. constructor; [lia|].
      eapply Forall_impl; [exact Hall|]. intros; simpl in *; lia.
    + intros z Hz. apply elem_of_cons in Hz as [->|Hz]; [by left|by right].
  - destruct (IH ts Hts Hs) as (ts' & Hts' & Hs' & Hin).
    exists (t :: ts'). rewrite !fmap_cons, Hx, Hts'. split; [done|]. split.
    + constructor; [done|]. apply Forall_forall. intros z Hz.
      destruct (Hin z Hz) as [->|Hz']; [lia|].
      rewrite Forall_forall in Hall. by apply Hall.
    + intros z Hz. apply elem_of_cons in Hz as [->|Hz]; [right; by left|].
      destruct (Hin z Hz) as [?|?]; [by left|right; by right].
Qed.


Lemma timestamps_Forall (P : Z -> Prop) (Q : Metric -> Prop) (l : list Metric)
    (tl : list Z) :
  TimestampMs <$> l = Some <$> tl -> Forall P tl ->
  (forall x t, TimestampMs x = Some t -> P t -> Q x) -> Forall Q l.
Proof.
  intros Hts HP HQ. revert tl Hts HP. induction l as [|x l IH]; intros tl Hts HP; [done|].
  destruct tl as [|t tl]; [done|]. rewrite !fmap_cons in Hts. injection Hts as Hx Hts.
  apply Forall_cons in HP as [Ht HP]. constructor; eauto.
Qed.

Lemma removelast_snoc {A : Type} (l : list A) (x : A) : removelast (l ++ [x]) = l.
Proof. by rewrite removelast_app, app_nil_r. Qed.

Lemma removelast_take {A : Type} (l : list A) : removelast l = take (length l - 1) l.
Proof.
  destruct (decide (l = [])) as [->|Hne]; [done|].
  destruct (exists_last Hne) as (l' & x & ->).
  rewrite removelast_snoc, length_app. simpl.
  replace (length l' + 1 - 1) with (length l') by lia. by rewrite take_app_length.
Qed.

Lemma removelast_sorted {A : Type} (R : A -> A -> Prop) (l : list A) :
  StronglySorted R l -> StronglySorted R (removelast l).
Proof.
  intros Hs. rewrite removelast_take. rewrite <- (take_drop (length l - 1) l) in Hs.
  by apply StronglySorted_app in Hs as (_ & ? & _).
Qed.

Lemma merge_step_merged (fresh_family : bool) (familyName : string) (metric : Metric)
    (m : Mem) (qs : Queues) (aq : Contents) :
  wf_queues m qs -> shows m qs aq ->
  (forall k xs, aq !! k = Some xs -> chronological xs) ->
  exists r m' qs' aq',
    merge_step fresh_family familyName metric (m, qs) = (r, (m', qs')) /\
    shows m' qs' aq' /\
    (forall k xs, aq' !! k = Some xs -> chronological xs) /\
    merged fresh_family (fst (makeLabeledName metric familyName)) (canonical metric)
           aq r aq'.
Proof.
  intros Hwf Hshows Hchron.
  rewrite merge_step_eq. cbv zeta. unfold merged.
  set (name := fst (makeLabeledName metric familyName)).
  set (el := canonical metric).
  change (TimestampMs el) with (TimestampMs metric).
  pose proof (Hshows name) as Hname.
  destruct (qs !! name) as [queue|] eqn:Hq; destruct (aq !! name) as [xs|] eqn:Hxs;
    try done; simpl in Hname.
  2:{ eexists _, _, _, _. split; [reflexivity|]. split; [by apply shows_fresh|].
      split; [|done]. apply chronological_insert; [done|].
      split; [done|]. repeat constructor. }
  injection Hname as Hview.
  destruct (Hchron name xs Hxs) as [Hne Hsorted].
  assert (wf_slice m queue) as Hwfq by (destruct Hwf as [Hs _]; eauto).
  destruct (TimestampMs metric) as [t|] eqn:Ht.
  2:{ by eexists _, _, _, _. }
  destruct (last xs) as [l|] eqn:Hlast.
  2:{ apply last_None in Hlast. done. }
  rewrite (last_of_view queue xs l m Hwfq Hview Hlast).
  destruct (TimestampMs l) as [tl|] eqn:Htl.
  2:{ by eexists _, _, _, _. }
  destruct (chronological_timestamps xs l tl Hsorted Hlast Htl) as (ts & Hts & Hsts & Hle).
  assert (TimestampMs el = Some t) as Hte by done.
  destruct (place_timestamps el t xs ts Hte Hts Hsts) as (ts' & Hts' & Hsts' & _).
  assert (chronological (place el xs)) as Hplace.
  { split; [|by eapply sorted_timestamps].
    intros Hnil. pose proof (place_length el xs) as Hl. by rewrite Hnil in Hl. }
  destruct (t >=? tl)%Z eqn:Hge.
  - rewrite orb_true_r.
    destruct (append_spec queue (Some el) m Hwfq)
      as (q1 & m1 & -> & Hw & Hv & Hwf1 & Hptr & _ & Hview1).
    assert (place el xs = xs ++ [el]) as Hpl.
    { rewrite <- (app_nil_r xs) at 1. apply (place_split el xs []); [|done].
      eapply timestamps_Forall; [exact Hts|exact Hle|].
      intros x tx Hx Hxle. simpl in Hxle. unfold later. rewrite Hx, Hte. lia. }
    eexists _, _, _, _. split; [reflexivity|]. split; [|split; [|done]].
    + eapply shows_update; [done..|]. by rewrite Hview1, Hview, Hpl, fmap_app.
    + by apply chronological_insert.
  - rewrite orb_false_r.
    destruct (sortedInsert_sorted queue el m xs ts t Hwfq Hview Hts Hsts Hte)
      as (q1 & m1 & i & Hrun & Hview1 & Hbelow & Habove & _).
    destruct (sortedInsert_spec queue el m Hwfq) as (r & m1' & Hrun' & Hw & _ & _).
    rewrite Hrun in Hrun'. injection Hrun' as <- <-.
    assert (place el xs = take i xs ++ el :: drop i xs) as Hpl.
    { rewrite <- (take_drop i xs) at 1. apply place_split.
      - eapply timestamps_Forall; [by rewrite fmap_take, Hts, <- fmap_take|exact Hbelow|].
        intros x tx Hx Hxle. simpl in Hxle. unfold later. rewrite Hx, Hte. lia.
      - destruct (drop i xs) as [|y ys] eqn:Hdrop; [done|].
        assert (Forall (fun x => later x el = true) (y :: ys)) as Hall.
        { rewrite <- Hdrop.
          eapply timestamps_Forall; [by rewrite fmap_drop, Hts, <- fmap_drop|exact Habove|].
          intros x tx Hx Hxgt. simpl in Hxgt. unfold later. rewrite Hx, Hte. lia. }
        by apply Forall_cons in Hall as [? _]. }
    rewrite Hrun. rewrite <- Hpl in Hview1.
    destruct fresh_family.
    + eexists _, _, _, _. split; [reflexivity|]. split; [|split; [|done]].
      * by eapply shows_update.
      * by apply chronological_insert.
    + destruct (sortedInsert_old_view queue q1 el m m1 Hwfq Hrun) as [Hold|Hold].
      * exists (Ok tt), m1, qs, aq. split; [done|]. split; [|split; [done|]].
        -- rewrite <- (insert_id qs name queue Hq), <- (insert_id aq name xs Hxs).
           eapply shows_update; [done..|]. by rewrite Hold.
        -- split; [done|]. by left.
      * exists (Ok tt), m1, qs, (<[name := removelast (place el xs)]> aq).
        split; [done|]. 
        assert (s_len queue = length xs) as Hlen
          by (rewrite <- (view_length m queue Hwfq), Hview; apply length_fmap).
        split; [|split].
        -- rewrite <- (insert_id qs name queue Hq) at 1.
           eapply shows_update; [done..|].
           rewrite Hold, Hview1, <- fmap_take, removelast_take, place_length, Hlen.
           do 2 f_equal. lia.
        -- apply chronological_insert; [done|]. split.
           ++ rewrite removelast_take, place_length. 
              replace (S (length xs) - 1) with (length xs) by lia.
              intros Hnil. apply (f_equal length) in Hnil.
              rewrite length_take, place_length in Hnil. simpl in Hnil.
              destruct xs; [done|simpl in Hnil; lia].
           ++ apply removelast_sorted. by destruct Hplace.
        -- split; [done|]. by right.
Qed.

End order.

Section merge_steps.
Context `{Runtime}.

Lemma merge_loop_merged (fresh_family : bool) (familyName : string)
    (new : list Metric) (m : Mem) (qs : Queues) (aq : Contents) :
  wf_queues m qs -> shows m qs aq ->
  (forall k xs, aq !! k = Some xs -> chronological xs) ->
  exists r m' qs' aq',
    for_each new (merge_step fresh_family familyName) (m, qs) = (r, (m', qs')) /\
    wf_queues m' qs' /\ evolves m qs m' qs' new /\
    shows m' qs' aq' /\
    (forall k xs, aq' !! k = Some xs -> chronological xs) /\
    merged_all fresh_family familyName new aq r aq'.
Proof.
  intros Hwf Hshows Hchron.
  destruct (merge_loop_spec fresh_family familyName new m qs Hwf)
    as (r0 & m0 & qs0 & Hloop0 & Hwf0 & Hev0).
  enough (exists r m' qs' aq',
    for_each new (merge_step fresh_family familyName) (m, qs) = (r, (m', qs')) /\
    shows m' qs' aq' /\
    (forall k xs, aq' !! k = Some xs -> chronological xs) /\
    merged_all fresh_family familyName new aq r aq')
    as (r & m' & qs' & aq' & Hloop & ? & ? & ?).
  { rewrite Hloop in Hloop0. injection Hloop0 as <- <- <-. eauto 10. }
  clear r0 m0 qs0 Hloop0 Hwf0 Hev0.
  revert m qs aq Hwf Hshows Hchron.
  induction new as [|x new IH]; intros m qs aq Hwf Hshows Hchron.
  { exists (Ok tt), m, qs, aq. done. }
  destruct (merge_step_merged fresh_family familyName x m qs aq Hwf Hshows Hchron)
    as (r1 & m1 & qs1 & aq1 & Hstep & Hshows1 & Hchron1 & Hm1).
  destruct (merge_step_spec fresh_family familyName x m qs Hwf)
    as (r1' & m1' & qs1' & Hstep' & Hwf1 & _).
  rewrite Hstep in Hstep'. injection Hstep' as <- <- <-.
  simpl. rewrite run_bind, Hstep. destruct r1 as [[]|why].
  - destruct (IH m1 qs1 aq1 Hwf1 Hshows1 Hchron1)
      as (r & m' & qs' & aq' & Hloop & Hshows' & Hchron' & Hm').
    exists r, m', qs', aq'. split; [done|]. split; [done|]. split; [done|].
    exists (Ok tt), aq1. done.
  - exists (Panic why), m1, qs1, aq1. split; [done|]. split; [done|]. split; [done|].
    exists (Panic why), aq1. done.
Qed.

Lemma omap_id_Some {A : Type} (xs : list A) : omap id (Some <$> xs) = xs.
Proof. induction xs as [|x xs IH]; [done|]. simpl. f_equal. exact IH. Qed.

Lemma shows_contents (m : Mem) (qs : Queues) :
  (forall k q, qs !! k = Some q -> exists xs, view m q = Some <$> xs) ->
  shows m qs (contents_of m qs).
Proof.
  intros Hall k. unfold contents_of. rewrite lookup_fmap.
  destruct (qs !! k) as [q|] eqn:Hk; [|done]. simpl.
  destruct (Hall k q Hk) as (xs & ->). by rewrite omap_id_Some.
Qed.

Lemma shows_unique (m : Mem) (qs : Queues) (aq : Contents) :
  shows m qs aq -> aq = contents_of m qs.
Proof.
  intros Hshows. apply map_eq. intros k. unfold contents_of. rewrite lookup_fmap.
  specialize (Hshows k). destruct (qs !! k) as [q|], (aq !! k) as [xs|]; try done.
  simpl in *. injection Hshows as ->. by rewrite omap_id_Some.
Qed.

Lemma shows_lookup (m : Mem) (qs : Queues) (aq : Contents) (k : string) (q : slice) :
  shows m qs aq -> qs !! k = Some q ->
  exists xs, aq !! k = Some xs /\ view m q = Some <$> xs.
Proof.
  intros Hshows Hk. specialize (Hshows k). rewrite Hk in Hshows.
  destruct (aq !! k) as [xs|]; [|done]. simpl in Hshows. injection Hshows as ->. eauto.
Qed.

(** The queues of the families other than [name] show what they showed. *)
Lemma other_families_untouched (m m' : Mem) (fs : gmap string familyAndMetrics)
    (name : string) (qs' : Queues) (new : list Metric) :
  wf_store m fs ->
  evolves m (from_option metrics ∅ (fs !! name)) m' qs' new ->
  forall fk f k q, fs !! fk = Some f -> fk <> name -> metrics f !! k = Some q ->
                   view m' q = view m q.
Proof.
  intros [Hqs Hdisj] Hev fk f k q Hfk Hne Hk.
  eapply untouched; [done| |].
  - destruct (Hqs fk f Hfk) as [Hs _]. eauto.
  - intros Hown0. destruct (fs !! name) as [f0|] eqn:Hname; simpl in Hown0.
    + apply Hne. eapply (Hdisj fk name); [done..| |done]. by exists k, q.
    + by apply owns_empty in Hown0.
Qed.


Lemma contents_chronological (m : Mem) (fs : gmap string familyAndMetrics)
    (fk : string) (f : familyAndMetrics) :
  queues_are chronological m fs -> fs !! fk = Some f ->
  shows m (metrics f) (contents_of m (metrics f)) /\
  (forall k xs, contents_of m (metrics f) !! k = Some xs -> chronological xs).
Proof.
  intros Hq Hfk. split.
  - apply shows_contents. intros k q Hk. destruct (Hq fk f k q Hfk Hk) as (xs & ? & _). eauto.
  - intros k xs Hk. unfold contents_of in Hk. rewrite lookup_fmap in Hk.
    destruct (metrics f !! k) as [q|] eqn:Hqk; [|done]. simpl in Hk. injection Hk as <-.
    destruct (Hq fk f k q Hfk Hqk) as (xs & -> & Hxs). by rewrite omap_id_Some.
Qed.

(** One family of a push merged into a store whose queues are in
    timestamp order. *)
Lemma hubMetrics_step_merged (fam : MetricFamily) (w : World) :
  hub_inv w ->
  let fs := metricFamiliesByName (hub w) in
  let name := GetName fam in
  let old := from_option (fun f => contents_of (mem w) (metrics f)) ∅ (fs !! name) in
  exists r w' aq',
    hubMetrics_step fam w = (r, w') /\
    hub_inv w' /\
    merged_all (bool_decide (fs !! name = None)) name (Metrics fam) old r aq' /\
    (forall fk, fk <> name -> metricFamiliesByName (hub w') !! fk = fs !! fk) /\
    (forall fk f k q, fs !! fk = Some f -> fk <> name -> metrics f !! k = Some q ->
                      view (mem w') q = view (mem w) q) /\
    match metricFamiliesByName (hub w') !! name with
    | Some f' =>
        shows (mem w') (metrics f') aq' /\
        family f' = from_option family
                      (mkMetricFamily (Name fam) (Help fam) (Type_ fam) []) (fs !! name)
    | None => fs !! name = None /\ exists why, r = Panic why
    end.
Proof.
  intros (Hwf & Hkeyed & Hq). cbv zeta.
  pose proof (hubMetrics_step_spec fam w Hwf) as [Hwf' _].
  unfold hubMetrics_step in *. unfold wf_world in Hwf.
  destruct (metricFamiliesByName (hub w) !! GetName fam) as [f|] eqn:Hfam; simpl.
  - destruct (contents_chronological _ _ _ f Hq Hfam) as [Hshows Hchron].
    destruct (Hkeyed _ _ Hfam) as [Hname Hnil].
    destruct (merge_loop_merged false (GetName (family f)) (Metrics fam) (mem w)
                (metrics f) _ (proj1 Hwf _ _ Hfam) Hshows Hchron)
      as (r & m' & qs' & aq' & Hloop & Hwfq' & Hev & Hshows' & Hchron' & Hm).
    unfold addMetrics in *. change addMetrics_step with (merge_step false) in *.
    rewrite Hloop in *. simpl in *.
    eexists _, _, aq'. split; [reflexivity|]. unfold hub_inv, wf_world in *.
    unfold set_hub, set_families, set_mem in *. simpl in *.
    assert (forall fk f0 k q, metricFamiliesByName (hub w) !! fk = Some f0 ->
              fk <> GetName fam -> metrics f0 !! k = Some q ->
              view m' q = view (mem w) q) as Hother.
    { eapply other_families_untouched; [done|]. by rewrite Hfam. }
    split; [split; [done|split]|].
    + intros fk f0 Hfk. apply lookup_insert_Some in Hfk as [[<- <-]|[_ Hfk]]; [done|eauto].
    + intros fk f0 k q Hfk Hk.
      apply lookup_insert_Some in Hfk as [[<- <-]|[Hne Hfk]].
      * simpl in Hk. destruct (shows_lookup _ _ _ _ _ Hshows' Hk) as (xs & Hxs & ->). eauto.
      * destruct (Hq fk f0 k q Hfk Hk) as (xs & Hview & Hxs). exists xs.
        split; [|done]. rewrite <- Hview. eapply Hother; [done|congruence|done].
    + rewrite Hname in Hm. split; [done|].
      split; [intros fk Hne; by rewrite lookup_insert_ne|]. split; [done|].
      rewrite lookup_insert_eq. done.
  - destruct (merge_loop_merged true (GetName fam) (Metrics fam) (mem w) ∅ ∅)
      as (r & m' & qs' & aq' & Hloop & Hwfq' & Hev & Hshows' & Hchron' & Hm).
    { apply wf_queues_empty. } { by intros k. } { intros k xs Hk. by rewrite lookup_empty in Hk. }
    unfold newFamilyAndMetrics in *. change newFamily_step with (merge_step true) in *.
    rewrite Hloop in *.
    assert (forall fk f0 k q, metricFamiliesByName (hub w) !! fk = Some f0 ->
              metrics f0 !! k = Some q -> view m' q = view (mem w) q) as Hother.
    { intros fk f0 k q Hfk Hk.
      eapply (other_families_untouched _ _ _ (GetName fam)); [done| |done| |done].
      - by rewrite Hfam.
      - intros ->. congruence. }
    destruct r as [[]|why]; simpl in *.
    + eexists _, _, aq'. split; [reflexivity|]. unfold hub_inv, wf_world in *.
    unfold set_hub, set_families, set_mem in *. simpl in *.
      split; [split; [done|split]|].
      * intros fk f0 Hfk. apply lookup_insert_Some in Hfk as [[<- <-]|[_ Hfk]]; [done|eauto].
      * intros fk f0 k q Hfk Hk.
        apply lookup_insert_Some in Hfk as [[<- <-]|[Hne Hfk]].
        -- simpl in Hk. destruct (shows_lookup _ _ _ _ _ Hshows' Hk) as (xs & Hxs & ->). eauto.
        -- destruct (Hq fk f0 k q Hfk Hk) as (xs & Hview & Hxs). exists xs.
           split; [|done]. rewrite <- Hview. by eapply Hother.
      * split; [done|].
        split; [intros fk Hne; by rewrite lookup_insert_ne|].
        split; [intros; by eapply Hother|].
        rewrite lookup_insert_eq. done.
    + eexists _, _, aq'. split; [reflexivity|]. unfold hub_inv, wf_world in *.
    unfold set_hub, set_families, set_mem in *. simpl in *.
      split; [split; [done|split; [done|]]|].
      * intros fk f0 k q Hfk Hk. destruct (Hq fk f0 k q Hfk Hk) as (xs & Hview & Hxs).
        exists xs. split; [|done]. rewrite <- Hview. by eapply Hother.
      * split; [done|]. split; [done|]. split; [intros; by eapply Hother|].
        rewrite Hfam. eauto.
Qed.

Lemma hubMetrics_inv (fams : list MetricFamily) (w : World) :
  hub_inv w -> hub_inv (snd (hubMetrics fams w)).
Proof.
  unfold hubMetrics. apply for_each_preserves. clear w. intros fam w Hinv.
  destruct (hubMetrics_step_merged fam w Hinv) as (r & w' & aq' & -> & ? & _). done.
Qed.

End merge_steps.

(** ** The contents of a family after a merge *)

Section contents.

Lemma canonical_timestamp (x : Metric) : TimestampMs (canonical x) = TimestampMs x.
Proof. reflexivity. Qed.

Lemma before_refl_of (x y : Metric) :
  TimestampMs x = TimestampMs y -> forall z, before y z -> before x z.
Proof. intros Heq z (ty & tz & Hy & Hz & Hle). exists ty, tz. by rewrite Heq. Qed.

Lemma place_timestamped (el : Metric) (xs : list Metric) :
  timestamped el -> Forall timestamped xs -> Forall timestamped (place el xs).
Proof.
  intros Hel Hxs. apply Forall_forall. intros y Hy.
  apply (elem_of_Permutation_proper _ _ _ (place_perm el xs)) in Hy.
  apply elem_of_cons in Hy as [->|Hy]; [done|].
  rewrite Forall_forall in Hxs. by apply Hxs.
Qed.

Lemma removelast_Forall {A : Type} (P : A -> Prop) (l : list A) :
  Forall P l -> Forall P (removelast l).
Proof. rewrite removelast_take. apply Forall_take. Qed.

Lemma removelast_length_place (el : Metric) (xs : list Metric) :
  length (removelast (place el xs)) = length xs.
Proof. rewrite removelast_take, length_take, place_length. lia. Qed.

(** The timestamps of a queue whose samples all carry one. *)
Lemma timestamps_exist (xs : list Metric) :
  Forall timestamped xs -> exists ts, TimestampMs <$> xs = Some <$> ts.
Proof.
  induction 1 as [|x xs [t Ht] _ (ts & IH)]; [by exists []|].
  exists (t :: ts). by rewrite !fmap_cons, Ht, IH.
Qed.

Lemma timestamps_sorted (xs : list Metric) (ts : list Z) :
  TimestampMs <$> xs = Some <$> ts -> StronglySorted before xs ->
  StronglySorted Z.le ts.
Proof.
  revert ts. induction xs as [|x xs IH]; intros ts Hts Hs.
  { destruct ts; [constructor|done]. }
  destruct ts as [|t ts]; [done|]. rewrite !fmap_cons in Hts. injection Hts as Hx Hts.
  apply StronglySorted_inv in Hs as [Hs Hall]. constructor; [by apply IH|].
  apply Forall_forall. intros z Hz. apply list_elem_of_lookup in Hz as (i & Hi).
  assert ((Some <$> ts) !! i = Some (Some z)) as Hi' by (by rewrite list_lookup_fmap, Hi).
  rewrite <- Hts, list_lookup_fmap in Hi'.
  destruct (xs !! i) as [y|] eqn:Hy; [|done]. simpl in Hi'. injection Hi' as Hi'.
  rewrite Forall_forall in Hall.
  destruct (Hall y) as (tx & ty & Htx & Hty & Hle); [by eapply list_elem_of_lookup_2|].
  congruence.
Qed.

(** Placing a sample with a timestamp into a queue in order, whose
    samples all carry a timestamp, gives a queue in order. *)
Lemma place_chronological (el : Metric) (xs : list Metric) :
  timestamped el -> Forall timestamped xs -> StronglySorted before xs ->
  chronological (place el xs).
Proof.
  intros [te Hte] Hall Hs. destruct (timestamps_exist xs Hall) as (ts & Hts).
  destruct (place_timestamps el te xs ts Hte Hts (timestamps_sorted xs ts Hts Hs))
    as (ts' & Hts' & Hs' & _).
  split; [|by eapply sorted_timestamps].
  intros Hnil. pose proof (place_length el xs) as Hl. by rewrite Hnil in Hl.
Qed.

Lemma place_append (el : Metric) (xs : list Metric) :
  (forall y, y ∈ xs -> before y el) -> place el xs = xs ++ [el].
Proof.
  intros Hall. rewrite <- (app_nil_r xs) at 1. apply (place_split el xs []); [|done].
  apply Forall_forall. intros y Hy. destruct (Hall y Hy) as (ty & te & Hy' & He & Hle).
  unfold later. rewrite Hy', He. lia.
Qed.

(** With timestamps everywhere, merging a sample does not panic. *)
Lemma merged_timestamped (fresh_family : bool) (name : string) (el : Metric)
    (aq : Contents) (r : Res unit) (aq' : Contents) :
  (forall k xs, aq !! k = Some xs -> xs <> [] /\ Forall timestamped xs) ->
  timestamped el ->
  merged fresh_family name el aq r aq' ->
  r = Ok tt /\
  (forall k xs, aq' !! k = Some xs -> xs <> [] /\ Forall timestamped xs) /\
  (fresh_family = true -> aq' = <[name := place el (default [] (aq !! name))]> aq).
Proof.
  intros Hinv [t Ht] Hm. unfold merged in Hm.
  assert (forall ys, ys <> [] -> Forall timestamped ys ->
            forall k xs, <[name := ys]> aq !! k = Some xs ->
                         xs <> [] /\ Forall timestamped xs) as Hins.
  { intros ys Hne Hys k xs Hk.
    apply lookup_insert_Some in Hk as [[_ <-]|[_ Hk]]; eauto. }
  destruct (aq !! name) as [xs|] eqn:Hxs.
  2:{ destruct Hm as [-> ->]. split; [done|]. split; [|done].
      apply Hins; [done|]. repeat constructor. by exists t. }
  destruct (Hinv name xs Hxs) as [Hne Hall].
  rewrite Ht in Hm. destruct (last xs) as [l|] eqn:Hlast.
  2:{ by apply last_None in Hlast. }
  assert (timestamped l) as [tl Htl].
  { rewrite Forall_forall in Hall. apply Hall.
    apply last_Some in Hlast as (pre & ->). apply elem_of_app. right. by left. }
  rewrite Htl in Hm. destruct Hm as [-> Hm]. split; [done|].
  assert (place el xs <> []) as Hpne.
  { intros Hnil. pose proof (place_length el xs) as Hl. by rewrite Hnil in Hl. }
  assert (Forall timestamped (place el xs)) as Hpall
    by (apply place_timestamped; [by exists t|done]).
  destruct fresh_family; simpl in Hm.
  { subst aq'. split; [by apply Hins|done]. }
  split; [|done].
  destruct (t >=? tl)%Z; [subst aq'; by apply Hins|].
  destruct Hm as [->| ->]; [done|]. apply Hins.
  - intros Hnil. pose proof (removelast_length_place el xs) as Hl.
    rewrite Hnil in Hl. destruct xs; [done|simpl in Hl; lia].
  - by apply removelast_Forall.
Qed.

Lemma merged_all_timestamped (fresh_family : bool) (familyName : string)
    (new : list Metric) (aq : Contents) (r : Res unit) (aq' : Contents) :
  (forall k xs, aq !! k = Some xs -> xs <> [] /\ Forall timestamped xs) ->
  Forall timestamped new ->
  merged_all fresh_family familyName new aq r aq' ->
  r = Ok tt /\
  (forall k xs, aq' !! k = Some xs -> xs <> [] /\ Forall timestamped xs).
Proof.
  intros Hinv Hnew. revert aq Hinv.
  induction Hnew as [|x new Hx _ IH]; intros aq Hinv Hm.
  { by destruct Hm as [-> ->]. }
  destruct Hm as (r1 & aq1 & Hstep & Hrest).
  destruct (merged_timestamped _ _ (canonical x) _ _ _ Hinv Hx Hstep) as (-> & Hinv1 & _).
  by apply (IH aq1).
Qed.

(** A family built from a batch whose samples all carry a timestamp:
    every series gets the samples of the batch that belong to it, placed
    one after the other. *)
Lemma merged_all_fresh (familyName : string) (new : list Metric)
    (aq : Contents) (r : Res unit) (aq' : Contents) :
  (forall k xs, aq !! k = Some xs -> xs <> [] /\ Forall timestamped xs) ->
  Forall timestamped new ->
  merged_all true familyName new aq r aq' ->
  r = Ok tt /\
  forall k, aq' !! k = match series familyName k new with
                       | [] => aq !! k
                       | s => Some (sort_by_time (default [] (aq !! k)) s)
                       end.
Proof.
  intros Hinv Hnew. revert aq Hinv.
  induction Hnew as [|x new Hx _ IH]; intros aq Hinv Hm.
  { by destruct Hm as [-> ->]. }
  destruct Hm as (r1 & aq1 & Hstep & Hrest).
  destruct (merged_timestamped _ _ (canonical x) _ _ _ Hinv Hx Hstep) as (-> & Hinv1 & Haq1).
  specialize (Haq1 eq_refl).
  destruct (IH aq1 Hinv1 Hrest) as [-> Hk]. split; [done|].
  intros k. rewrite Hk. unfold series. rewrite filter_cons.
  destruct (decide (fst (makeLabeledName x familyName) = k)) as [<-|Hne].
  - rewrite Haq1, lookup_insert_eq. simpl.
    by destruct (filter _ new).
  - rewrite Haq1, lookup_insert_ne by done. done.
Qed.

(** A batch in time order, none of whose samples is earlier than a sample
    in the queues: every series gets its samples appended, in the order
    of the batch. *)
Lemma merged_all_in_order (fresh_family : bool) (familyName : string)
    (new : list Metric) (aq : Contents) (r : Res unit) (aq' : Contents) :
  (forall k xs, aq !! k = Some xs -> xs <> []) ->
  Forall timestamped new -> StronglySorted before new ->
  (forall k xs y x, aq !! k = Some xs -> y ∈ xs -> x ∈ new -> before y x) ->
  merged_all fresh_family familyName new aq r aq' ->
  r = Ok tt /\
  forall k, aq' !! k = match series familyName k new with
                       | [] => aq !! k
                       | s => Some (default [] (aq !! k) ++ (canonical <$> s))
                       end.
Proof.
  intros Hne Hts Hs. revert aq Hne.
  induction Hs as [|x new Hs IH Hall]; intros aq Hne Hold Hm.
  { by destruct Hm as [-> ->]. }
  apply Forall_cons in Hts as [[t Ht] Hts].
  destruct Hm as (r1 & aq1 & Hstep & Hrest).
  set (name := fst (makeLabeledName x familyName)) in *.
  assert (r1 = Ok tt /\ aq1 = <[name := default [] (aq !! name) ++ [canonical x]]> aq)
    as [-> Haq1].
  { unfold merged in Hstep. destruct (aq !! name) as [xs|] eqn:Hxs; [|exact Hstep].
    rewrite canonical_timestamp, Ht in Hstep.
    destruct (last xs) as [l|] eqn:Hlast.
    2:{ apply last_None in Hlast. by destruct (Hne name xs Hxs). }
    assert (forall y, y ∈ xs -> before y (canonical x)) as Hbefore.
    { intros y Hy. destruct (Hold name xs y x Hxs Hy) as (ty & tx & ? & ? & ?); [by left|].
      by exists ty, tx. }
    destruct (Hbefore l) as (tl & t' & Htl & Ht' & Hle).
    { apply last_Some in Hlast as (pre & ->). apply elem_of_app. right. by left. }
    rewrite canonical_timestamp, Ht in Ht'. injection Ht' as <-.
    rewrite Htl in Hstep. destruct Hstep as [-> Hstep]. split; [done|].
    assert ((t >=? tl)%Z = true) as Hge by lia. rewrite Hge, orb_true_r in Hstep.
    simpl. by rewrite <- (place_append _ _ Hbefore). }
  destruct (IH Hts aq1) as [-> Hk]; [| |done|].
  { intros k xs Hk. rewrite Haq1 in Hk.
    apply lookup_insert_Some in Hk as [[_ <-]|[_ Hk]]; [|by eapply Hne].
    by destruct (default [] (aq !! name)). }
  { intros k xs y x' Hk Hy Hx'. rewrite Haq1 in Hk.
    apply lookup_insert_Some in Hk as [[_ <-]|[_ Hk]].
    - apply elem_of_app in Hy as [Hy|Hy].
      + destruct (aq !! name) as [xs0|] eqn:Hxs0; simpl in Hy; [|by apply elem_of_nil in Hy].
        eapply Hold; [done..|by right].
      + apply list_elem_of_singleton in Hy as ->.
        apply (before_refl_of _ x); [done|].
        rewrite Forall_forall in Hall. by apply Hall.
    - eapply Hold; [done..|by right]. }
  split; [done|]. intros k. rewrite Hk. unfold series. rewrite filter_cons.
  destruct (decide (fst (makeLabeledName x familyName) = k)) as [<-|Hnek]; fold name.
  - rewrite Haq1, lookup_insert_eq. simpl.
    destruct (filter _ new); simpl; [done|]. by rewrite <- app_assoc.
  - rewrite Haq1, lookup_insert_ne by done. done.
Qed.

Lemma sort_by_time_perm (queue new : list Metric) :
  sort_by_time queue new ≡ₚ queue ++ (canonical <$> new).
Proof.
  unfold sort_by_time. revert queue. induction new as [|x new IH]; intros queue.
  { simpl. by rewrite app_nil_r. }
  rewrite fmap_cons. cbn [fold_left]. rewrite IH, place_perm.
  apply Permutation_middle.
Qed.

Lemma sort_by_time_chronological (queue new : list Metric) :
  chronological queue -> Forall timestamped queue -> Forall timestamped new ->
  chronological (sort_by_time queue new) /\ Forall timestamped (sort_by_time queue new).
Proof.
  unfold sort_by_time. intros Hq Hall Hnew. revert queue Hq Hall.
  induction Hnew as [|x new Hx _ IH]; intros queue Hq Hall; simpl; [done|].
  apply IH.
  - apply place_chronological; [done..|by destruct Hq].
  - by apply place_timestamped.
Qed.

End contents.

(** ** States a hub can reach *)

Section reachable.
Context `{Runtime} `{Expfmt}.

Lemma hub_inv_ext (w w' : World) :
  mem w' = mem w -> metricFamiliesByName (hub w') = metricFamiliesByName (hub w) ->
  hub_inv w -> hub_inv w'.
Proof. unfold hub_inv, wf_world. by intros -> ->. Qed.

Lemma hub_inv_empty (w : World) :
  metricFamiliesByName (hub w) = ∅ -> hub_inv w.
Proof.
  unfold hub_inv, wf_world. intros ->. split; [apply wf_store_empty|].
  split; intros fk f; intros; by rewrite lookup_empty in *.
Qed.

Lemma run_op_inv (o : Op) (w : World) : hub_inv w -> hub_inv (run_op o w).
Proof.
  intros Hinv. destruct o as [p|sch now|verbose hostname sch]; simpl.
  - destruct (push_store p w) as [[Hm Hf]|(fams & _ & Hm & Hf)].
    + by apply (hub_inv_ext w).
    + apply (hub_inv_ext (snd (hubMetrics fams w))); [done..|]. by apply hubMetrics_inv.
  - apply hub_inv_empty. apply Scrape_mem.
  - destruct (Debug_frame verbose hostname sch w). by apply (hub_inv_ext w).
Qed.

Lemma reachable_inv (limit timeout : Z) (ops : list Op) :
  hub_inv (run_ops ops (NewMetricHub limit timeout)).
Proof.
  unfold run_ops.
  assert (hub_inv (NewMetricHub limit timeout)) as Hinit by (by apply hub_inv_empty).
  revert Hinit. generalize (NewMetricHub limit timeout).
  induction ops as [|o ops IH]; intros w Hw; simpl; [done|].
  by apply IH, run_op_inv.
Qed.

Lemma hubMetrics_one (fam : MetricFamily) (w : World) :
  hubMetrics [fam] w = hubMetrics_step fam w.
Proof.
  unfold hubMetrics. simpl. rewrite run_bind.
  by destruct (hubMetrics_step fam w) as [[[]|why] w'].
Qed.

Lemma family_contents_inv (w : World) (fk : string) :
  hub_inv w ->
  forall k xs, family_contents w fk !! k = Some xs -> chronological xs.
Proof.
  intros (_ & _ & Hq) k xs. unfold family_contents.
  destruct (metricFamiliesByName (hub w) !! fk) as [f|] eqn:Hf; simpl.
  - by apply (contents_chronological _ _ _ _ Hq Hf).
  - by rewrite lookup_empty.
Qed.

End reachable.

(** ** Merging, in terms of what the queues show *)

Section store_order.
Context `{Runtime} `{Expfmt}.

(** X1.  Whatever is pushed, scraped or asked of a new hub, every family
    of its store is filed under its own name and keeps no sample outside
    its queues, and every queue is non-empty, holds no nil pointer and
    shows its samples in non-decreasing timestamp order. *)
Theorem queues_stay_in_time_order (limit timeout : Z) (ops : list Op) :
  let w := run_ops ops (NewMetricHub limit timeout) in
  keyed (metricFamiliesByName (hub w)) /\
  queues_are chronological (mem w) (metricFamiliesByName (hub w)).
Proof. cbv zeta. by destruct (reachable_inv limit timeout ops) as (_ & ? & ?). Qed.

Lemma popDatapoints_queues (m : Mem) (fs : gmap string familyAndMetrics)
    (fk : string) (f : familyAndMetrics) :
  keyed fs -> queues_are chronological m fs -> fs !! fk = Some f ->
  exists queues,
    Metrics (popDatapoints m f) = concat queues /\
    Forall chronological queues /\
    queues ≡ₚ (map_to_list (contents_of m (metrics f))).*2.
Proof.
  intros Hkeyed Hq Hf. destruct (Hkeyed fk f Hf) as [_ Hnil].
  exists ((fun kq => omap id (view m (snd kq))) <$> map_to_list (metrics f)).
  split; [|split].
  - unfold popDatapoints, copyFamily. simpl. by rewrite Hnil.
  - apply Forall_fmap, Forall_forall. intros [k q] Hkq. simpl.
    apply elem_of_map_to_list in Hkq.
    destruct (Hq fk f k q Hf Hkq) as (xs & -> & Hxs). by rewrite omap_id_Some.
  - unfold contents_of. rewrite map_to_list_fmap, <- list_fmap_compose.
    match goal with |- ?a ≡ₚ ?b => assert (a = b) as Heq; [|by rewrite Heq] end.
    apply list_fmap_ext. by intros _ [k q] _.
Qed.

(** X2.  In every state a hub can reach, the family that [popDatapoints]
    hands to the encoder carries the name, help and type of the stored
    family and lists the queues of the family one after the other, every
    queue once and in timestamp order. *)
Theorem popped_series_are_in_time_order (limit timeout : Z) (ops : list Op) :
  let w := run_ops ops (NewMetricHub limit timeout) in
  forall fk f, metricFamiliesByName (hub w) !! fk = Some f ->
    let pullFamily := popDatapoints (mem w) f in
    GetName pullFamily = fk /\
    (Name pullFamily, Help pullFamily, Type_ pullFamily)
      = (Name (family f), Help (family f), Type_ (family f)) /\
    exists queues,
      Metrics pullFamily = concat queues /\
      Forall chronological queues /\
      queues ≡ₚ (map_to_list (contents_of (mem w) (metrics f))).*2.
Proof.
  cbv zeta. intros fk f Hf.
  destruct (reachable_inv limit timeout ops) as (_ & Hkeyed & Hq).
  split; [apply (Hkeyed fk f Hf)|]. split; [done|].
  by eapply popDatapoints_queues.
Qed.

(** X3.  [newFamilyAndMetrics], on a family whose samples all carry a
    timestamp, returns: it keeps the name, help and type and clears the
    metric list, builds for every series of the batch one queue that
    shows the samples of the series, labels sorted, placed one after the
    other by timestamp (so a permutation of them, in timestamp order),
    builds no other queue, and leaves the arrays already in memory as
    they are. *)
Theorem new_family_queues (fam : MetricFamily) (m : Mem) :
  Forall timestamped (Metrics fam) ->
  exists f m',
    newFamilyAndMetrics fam m = (Ok f, m') /\
    family f = mkMetricFamily (Name fam) (Help fam) (Type_ fam) [] /\
    shows m' (metrics f) (contents_of m' (metrics f)) /\
    (forall k, contents_of m' (metrics f) !! k =
               match series (GetName fam) k (Metrics fam) with
               | [] => None
               | s => Some (sort_by_time [] s)
               end) /\
    (forall k ys, contents_of m' (metrics f) !! k = Some ys ->
       ys ≡ₚ canonical <$> series (GetName fam) k (Metrics fam) /\
       chronological ys) /\
    (forall i a, m !! i = Some a -> m' !! i = Some a).
Proof.
  intros Hts.
  destruct (merge_loop_merged true (GetName fam) (Metrics fam) m ∅ ∅)
    as (r & m' & qs' & aq' & Hloop & Hwf' & Hev & Hshows & Hchron & Hm).
  { apply wf_queues_empty. } { by intros k. }
  { intros k xs Hk. by rewrite lookup_empty in Hk. }
  destruct (merged_all_fresh (GetName fam) (Metrics fam) ∅ r aq') as [-> Hk]; [|done..|].
  { intros k xs Hk. by rewrite lookup_empty in Hk. }
  unfold newFamilyAndMetrics. change newFamily_step with (merge_step true).
  rewrite Hloop. eexists _, _. split; [reflexivity|]. simpl.
  pose proof (shows_unique _ _ _ Hshows) as <-.
  split; [done|]. split; [done|]. split; [|split].
  - intros k. rewrite Hk, lookup_empty. done.
  - intros k ys Hys. split; [|by eapply Hchron].
    rewrite Hk, lookup_empty in Hys.
    destruct (series (GetName fam) k (Metrics fam)) as [|x s] eqn:Hs; [done|].
    injection Hys as <-. simpl default. by rewrite sort_by_time_perm.
  - intros i a Hi. destruct Hev as (_ & Hkeep & _). apply Hkeep; [done|apply owns_empty].
Qed.

Lemma family_contents_held (w : World) (fk k : string) (xs : list Metric) :
  family_contents w fk !! k = Some xs ->
  is_Some (metricFamiliesByName (hub w) !! fk).
Proof.
  unfold family_contents. destruct (metricFamiliesByName (hub w) !! fk); [eauto|].
  simpl. by rewrite lookup_empty.
Qed.

(** One family merged, in terms of the contents of its queues. *)
Lemma hubMetrics_step_family (fam : MetricFamily) (w : World) :
  hub_inv w ->
  exists r w' aq',
    hubMetrics [fam] w = (r, w') /\
    hub_inv w' /\
    merged_all (bool_decide (metricFamiliesByName (hub w) !! GetName fam = None))
               (GetName fam) (Metrics fam) (family_contents w (GetName fam)) r aq' /\
    (is_Some (metricFamiliesByName (hub w) !! GetName fam) \/ r = Ok tt ->
     family_contents w' (GetName fam) = aq') /\
    (forall fk, fk <> GetName fam ->
       metricFamiliesByName (hub w') !! fk = metricFamiliesByName (hub w) !! fk /\
       family_contents w' fk = family_contents w fk).
Proof.
  intros Hinv. rewrite hubMetrics_one.
  destruct (hubMetrics_step_merged fam w Hinv)
    as (r & w' & aq' & Hrun & Hinv' & Hm & Hfs & Hviews & Hnew).
  exists r, w', aq'. split; [done|]. split; [done|]. split; [done|]. split.
  - intros Hcase. unfold family_contents.
    destruct (metricFamiliesByName (hub w') !! GetName fam) as [f'|].
    + destruct Hnew as [Hshows _]. simpl. symmetry. by apply shows_unique.
    + destruct Hnew as [Hnone [why ->]]. destruct Hcase as [[f Hf]|?]; congruence.
  - intros fk Hne. split; [by apply Hfs|]. unfold family_contents.
    rewrite (Hfs fk Hne).
    destruct (metricFamiliesByName (hub w) !! fk) as [f|] eqn:Hf; [|done]. simpl.
    unfold contents_of. apply map_fmap_ext. intros k q Hk. simpl.
    by rewrite (Hviews fk f k q Hf Hne Hk).
Qed.

(** X4.  A family pushed to a hub in any state it can reach, with samples
    that carry timestamps, stand in time order, and are not earlier than
    any sample the hub holds for the family: the merge returns, and every
    series of the batch has its samples, labels sorted, appended to its
    queue in the order of the batch; the other queues of the family are
    as they were. *)
Theorem batch_in_time_order_is_appended (limit timeout : Z) (ops : list Op)
    (fam : MetricFamily) :
  let w := run_ops ops (NewMetricHub limit timeout) in
  let name := GetName fam in
  Forall timestamped (Metrics fam) -> StronglySorted before (Metrics fam) ->
  (forall k xs y x, family_contents w name !! k = Some xs ->
                    y ∈ xs -> x ∈ Metrics fam -> before y x) ->
  exists w',
    hubMetrics [fam] w = (Ok tt, w') /\
    forall k, family_contents w' name !! k =
      match series name k (Metrics fam) with
      | [] => family_contents w name !! k
      | s => Some (default [] (family_contents w name !! k) ++ (canonical <$> s))
      end.
Proof.
  cbv zeta. intros Hts Hsorted Hold.
  pose proof (reachable_inv limit timeout ops) as Hinv.
  destruct (hubMetrics_step_family fam _ Hinv)
    as (r & w' & aq' & Hrun & _ & Hm & Hnew & _).
  destruct (merged_all_in_order _ _ _ _ _ _
              (fun k xs Hk => proj1 (family_contents_inv _ _ Hinv k xs Hk))
              Hts Hsorted Hold Hm) as [-> Hk].
  exists w'. split; [done|]. intros k. rewrite Hnew by (by right). apply Hk.
Qed.

(** X5.  A sample that is earlier than the last sample of its series,
    pushed for a family the hub holds: the merge returns, and the queue of
    the series is as long as it was.  It shows either what it showed, or
    the sample in its place and the latest sample gone; the other queues
    of the family are as they were. *)
Theorem late_sample_never_lengthens_queue (limit timeout : Z) (ops : list Op)
    (fam : MetricFamily) (x l : Metric) (xs : list Metric) (t tl : Z) :
  let w := run_ops ops (NewMetricHub limit timeout) in
  let name := GetName fam in
  let k := fst (makeLabeledName x name) in
  Metrics fam = [x] ->
  family_contents w name !! k = Some xs -> last xs = Some l ->
  TimestampMs x = Some t -> TimestampMs l = Some tl -> (t < tl)%Z ->
  exists w' ys,
    hubMetrics [fam] w = (Ok tt, w') /\
    family_contents w' name = <[k := ys]> (family_contents w name) /\
    (ys = xs \/ ys = removelast (place (canonical x) xs)) /\
    length ys = length xs /\ chronological ys.
Proof.
  cbv zeta. intros Hx Hxs Hlast Ht Htl Hlt.
  pose proof (family_contents_held _ _ _ _ Hxs) as Hfam.
  pose proof (reachable_inv limit timeout ops) as Hinv.
  destruct (hubMetrics_step_family fam _ Hinv)
    as (r & w' & aq' & Hrun & Hinv' & Hm & Hnew & _).
  specialize (Hnew (or_introl Hfam)).
  rewrite Hx in Hm. destruct Hm as (r1 & aq1 & Hstep & Hrest).
  rewrite bool_decide_eq_false_2 in Hstep by (destruct Hfam; congruence).
  unfold merged in Hstep. rewrite Hxs, canonical_timestamp, Ht, Hlast, Htl in Hstep.
  destruct Hstep as [-> Hstep]. destruct Hrest as [-> ->]. rewrite <- Hnew in *.
  assert ((t >=? tl)%Z = false) as Hge by lia. rewrite Hge in Hstep. simpl in Hstep.
  assert (forall ys, family_contents w' (GetName fam)
                     = <[fst (makeLabeledName x (GetName fam)) := ys]>
                         (family_contents (run_ops ops (NewMetricHub limit timeout))
                                          (GetName fam)) ->
                     chronological ys) as Hchron.
  { intros ys Hys. eapply (family_contents_inv w' (GetName fam) Hinv').
    rewrite Hys. apply lookup_insert_eq. }
  destruct Hstep as [Hsame|Hrepl].
  - exists w', xs. split; [done|]. rewrite Hsame, insert_id by done.
    split; [done|]. split; [by left|]. split; [done|].
    apply Hchron. by rewrite insert_id.
  - exists w', (removelast (place (canonical x) xs)). split; [done|]. split; [done|].
    split; [by right|]. split; [apply removelast_length_place|by apply Hchron].
Qed.

(** X6.  A sample pushed for a series that the hub holds panics the merge
    with a nil dereference when it carries no timestamp, and also when
    the last sample of the series carries none; the store then shows what
    it showed. *)
Theorem sample_without_timestamp_panics (limit timeout : Z) (ops : list Op)
    (fam : MetricFamily) (x l : Metric) (xs : list Metric) :
  let w := run_ops ops (NewMetricHub limit timeout) in
  let name := GetName fam in
  let k := fst (makeLabeledName x name) in
  Metrics fam = [x] ->
  family_contents w name !! k = Some xs -> last xs = Some l ->
  TimestampMs x = None \/ TimestampMs l = None ->
  exists w',
    hubMetrics [fam] w = (Panic nil_dereference, w') /\
    (forall fk, family_contents w' fk = family_contents w fk) /\
    same_settings w w'.
Proof.
  cbv zeta. intros Hx Hxs Hlast Hnone.
  pose proof (family_contents_held _ _ _ _ Hxs) as Hfam.
  pose proof (reachable_inv limit timeout ops) as Hinv.
  destruct (hubMetrics_step_family fam _ Hinv)
    as (r & w' & aq' & Hrun & Hinv' & Hm & Hnew & Hother).
  specialize (Hnew (or_introl Hfam)).
  rewrite Hx in Hm. destruct Hm as (r1 & aq1 & Hstep & Hrest).
  unfold merged in Hstep. rewrite Hxs, canonical_timestamp, Hlast in Hstep.
  assert (r1 = Panic nil_dereference /\
          aq1 = family_contents (run_ops ops (NewMetricHub limit timeout)) (GetName fam))
    as [-> ->].
  { destruct (TimestampMs x) as [t|]; [|done].
    destruct Hnone as [?|Hl]; [done|]. by rewrite Hl in Hstep. }
  destruct Hrest as [-> ->].
  exists w'. split; [done|]. split.
  - intros fk. destruct (decide (fk = GetName fam)) as [->|Hne]; [done|].
    by apply Hother.
  - pose proof (hubMetrics_settings [fam] (run_ops ops (NewMetricHub limit timeout))) as Hs.
    by rewrite Hrun in Hs.
Qed.

(** X7.  Merging a family, whether the merge returns or panics, leaves
    every other family of the store as it was: the same entry, and queues
    that show the same samples. *)
Theorem merge_leaves_other_families (limit timeout : Z) (ops : list Op)
    (fam : MetricFamily) :
  let w := run_ops ops (NewMetricHub limit timeout) in
  let w' := snd (hubMetrics [fam] w) in
  (forall fk, fk <> GetName fam ->
     metricFamiliesByName (hub w') !! fk = metricFamiliesByName (hub w) !! fk /\
     family_contents w' fk = family_contents w fk) /\
  same_settings w w'.
Proof.
  cbv zeta.
  pose proof (reachable_inv limit timeout ops) as Hinv.
  destruct (hubMetrics_step_family fam _ Hinv)
    as (r & w' & aq' & Hrun & _ & _ & _ & Hother).
  split; [by rewrite Hrun|]. apply hubMetrics_settings.
Qed.

End store_order.

(** ** Counters, gauges and settings *)

Section handlers.
Context `{Runtime} `{Expfmt}.

Lemma family_contents_ext (w w' : World) :
  mem w' = mem w -> metricFamiliesByName (hub w') = metricFamiliesByName (hub w) ->
  forall fk, family_contents w' fk = family_contents w fk.
Proof. intros Hm Hf fk. unfold family_contents. by rewrite Hm, Hf. Qed.

Lemma all_timestamped_ext (w w' : World) :
  mem w' = mem w -> metricFamiliesByName (hub w') = metricFamiliesByName (hub w) ->
  all_timestamped w -> all_timestamped w'.
Proof.
  intros Hm Hf Hall fk k xs. rewrite (family_contents_ext w w' Hm Hf). apply Hall.
Qed.

Lemma hubMetrics_timestamped (fams : list MetricFamily) (w : World) :
  hub_inv w -> all_timestamped w ->
  Forall (fun fam => Forall timestamped (Metrics fam)) fams ->
  exists w', hubMetrics fams w = (Ok tt, w') /\ hub_inv w' /\ all_timestamped w'.
Proof.
  intros Hinv Hall Hfams. revert w Hinv Hall.
  induction Hfams as [|fam fams Hfam _ IH]; intros w Hinv Hall.
  { exists w. done. }
  destruct (hubMetrics_step_family fam w Hinv)
    as (r & w1 & aq1 & Hrun & Hinv1 & Hm & Hnew & Hother).
  destruct (merged_all_timestamped _ _ _ _ _ _
              (fun k xs Hk => conj (proj1 (family_contents_inv _ _ Hinv k xs Hk))
                                   (Hall _ k xs Hk)) Hfam Hm) as [-> Hall1].
  rewrite hubMetrics_one in Hrun.
  destruct (IH w1 Hinv1) as (w' & Hrest & Hinv' & Hall').
  { intros fk k xs. destruct (decide (fk = GetName fam)) as [->|Hne].
    - rewrite Hnew by (by right). intros Hk. by destruct (Hall1 k xs Hk).
    - destruct (Hother fk Hne) as [_ ->]. apply Hall. }
  exists w'. split; [|done]. unfold hubMetrics in *. simpl. by rewrite run_bind, Hrun.
Qed.

Lemma run_op_timestamped (o : Op) (w : World) :
  hub_inv w -> all_timestamped w -> timestamped_op o -> all_timestamped (run_op o w).
Proof.
  intros Hinv Hall Ho. destruct o as [p|sch now|verbose hostname sch]; simpl.
  - destruct (push_store p w) as [[Hm Hf]|(fams & Hp & Hm & Hf)].
    + by apply (all_timestamped_ext w).
    + apply (all_timestamped_ext (snd (hubMetrics fams w))); [done..|].
      simpl in Ho. rewrite Hp in Ho.
      by destruct (hubMetrics_timestamped fams w Hinv Hall Ho) as (w' & -> & _ & ?).
  - intros fk k xs. unfold family_contents.
    rewrite (proj2 (Scrape_mem sch now w)), lookup_empty. simpl. by rewrite lookup_empty.
  - destruct (Debug_frame verbose hostname sch w). by apply (all_timestamped_ext w).
Qed.

Lemma reachable_timestamped (L T : Z) (ops : list Op) :
  Forall timestamped_op ops ->
  hub_inv (run_ops ops (NewMetricHub L T)) /\
  all_timestamped (run_ops ops (NewMetricHub L T)).
Proof.
  unfold run_ops.
  assert (hub_inv (NewMetricHub L T) /\ all_timestamped (NewMetricHub L T)) as Hinit.
  { split; [by apply hub_inv_empty|]. intros fk k xs. unfold family_contents. simpl.
    rewrite lookup_empty. simpl. by rewrite lookup_empty. }
  revert Hinit. generalize (NewMetricHub L T).
  induction ops as [|o ops IH]; intros w [Hinv Hall] Hops; simpl; [done|].
  apply Forall_cons in Hops as [Ho Hops].
  apply IH; [|done]. split; [by apply run_op_inv|by apply run_op_timestamped].
Qed.

(** What no operation changes: the limit, the timeout and the gauge
    [hub_limit]. *)
Lemma run_op_settings (o : Op) (w : World) :
  limit (hub (run_op o w)) = limit (hub w) /\
  scrapeTimeout (hub (run_op o w)) = scrapeTimeout (hub w) /\
  hubLimit (run_op o w) = hubLimit w.
Proof.
  destruct o as [[[err|fams] size now]|sch now|verbose hostname sch]; cbn [run_op].
  - done.
  - unfold push. cbn [parsed contentLength at_time]. rewrite Receive_eq. cbv zeta.
    destruct (_ && _); [done|].
    pose proof (hubMetrics_settings fams w) as (Hl & _ & Ht & _ & Hhl & _).
    by destruct (hubMetrics fams w) as [[[]|why] w1].
  - rewrite Scrape_eq. cbv zeta.
    pose proof (exposeMetrics_frame (metricFamiliesByName (hub w)) scrapeWorkerPoolSize sch
                  (set_hub (set_families ∅ (hub w)) w)) as (_ & Hh & _ & Hhl).
    destruct (exposeMetrics _ _ _ _) as [[text|why] w1]; simpl in *; by rewrite ?Hh, ?Hhl.
  - rewrite Debug_eq. cbv zeta. destruct (String.eqb verbose ""); [done|].
    match goal with |- context [exposeMetrics ?s ?n ?sc ?w0] =>
      pose proof (exposeMetrics_frame s n sc w0) as (_ & Hh & _ & Hhl);
      destruct (exposeMetrics s n sc w0) as [[text|why] w1] end;
      simpl in *; by rewrite ?Hh, ?Hhl.
Qed.

Lemma reachable_settings (L T : Z) (ops : list Op) :
  limit (hub (run_ops ops (NewMetricHub L T))) = L /\
  scrapeTimeout (hub (run_ops ops (NewMetricHub L T))) = T /\
  hubLimit (run_ops ops (NewMetricHub L T)) = L.
Proof.
  unfold run_ops.
  assert (limit (hub (NewMetricHub L T)) = L /\ scrapeTimeout (hub (NewMetricHub L T)) = T /\
          hubLimit (NewMetricHub L T) = L) as Hinit by done.
  revert Hinit. generalize (NewMetricHub L T).
  induction ops as [|o ops IH]; intros w Hw; simpl; [done|].
  apply IH. destruct (run_op_settings o w) as (-> & -> & ->). done.
Qed.


Lemma run_op_gauge (o : Op) (w : World) :
  is_debug o = false ->
  hubSize w = currentCountDatapoints (stats (hub w)) ->
  hubSize (run_op o w) = currentCountDatapoints (stats (hub (run_op o w))).
Proof.
  intros Ho Hw. destruct o as [[[err|fams] size now]|sch now|verbose hostname sch];
    cbn [run_op]; [done| | |done].
  - unfold push. cbn [parsed contentLength at_time]. rewrite Receive_eq. cbv zeta.
    destruct (_ && _); [done|].
    pose proof (hubMetrics_settings fams w) as (_ & Hs & _ & Hz & _).
    destruct (hubMetrics fams w) as [[[]|why] w1]; simpl in *; [done|congruence].
  - rewrite Scrape_eq. cbv zeta.
    pose proof (exposeMetrics_frame (metricFamiliesByName (hub w)) scrapeWorkerPoolSize sch
                  (set_hub (set_families ∅ (hub w)) w)) as (_ & Hh & Hz & _).
    destruct (exposeMetrics _ _ _ _) as [[text|why] w1]; simpl in *; [done|].
    by rewrite Hh, Hz.
Qed.


(** X10.  A push whose merge panics leaves the counter, the statistics,
    the gauges and the log as they were, whatever it had merged before
    the panic. *)
Theorem panicking_push_leaves_counters (fams : list MetricFamily) (size now : Z)
    (w w' : World) (why : string) :
  Receive (inr fams) size now w = (Panic why, w') -> same_settings w w'.
Proof.
  rewrite Receive_eq. cbv zeta. destruct (_ && _); [done|].
  pose proof (hubMetrics_settings fams w) as Hs.
  destruct (hubMetrics fams w) as [[[]|why'] w1]; [done|].
  by intros [= _ <-].
Qed.

(** X11.  A hub that has only been pushed samples with timestamps answers
    a push of samples with timestamps without panicking: with 400 when
    the body did not parse, with 406 when the push would overfill a
    positive limit, and with 200 otherwise; without a positive limit it
    never answers 406. *)
Theorem timestamped_pushes_never_panic (L T : Z) (ops : list Op) (p : Push) :
  Forall timestamped_op (OpPush p :: ops) ->
  exists r w',
    Receive (parsed p) (contentLength p) (at_time p) (run_ops ops (NewMetricHub L T))
      = (Ok r, w') /\
    (status r = StatusOK \/ status r = StatusNotAcceptable \/
     status r = StatusBadRequest) /\
    ((L <= 0)%Z -> status r <> StatusNotAcceptable) /\
    (status r = StatusBadRequest <-> exists err, parsed p = inl err).
Proof.
  intros Hops. apply Forall_cons in Hops as [Hp Hops].
  destruct (reachable_timestamped L T ops Hops) as [Hinv Hall].
  destruct (reachable_settings L T ops) as (HL & _).
  set (w := run_ops ops (NewMetricHub L T)) in *.
  simpl in Hp. destruct (parsed p) as [err|fams] eqn:Hparsed.
  { eexists _, _. split; [reflexivity|]. simpl.
    split; [tauto|]. split; [done|]. split; eauto. }
  rewrite Receive_eq. cbv zeta. rewrite HL.
  destruct (_ && _) eqn:Hfull.
  - eexists _, _. split; [reflexivity|]. simpl. split; [tauto|]. split.
    + intros HLe. apply andb_true_iff in Hfull as [Hpos _]. lia.
    + split; [done|]. intros [err ?]. done.
  - destruct (hubMetrics_timestamped fams w Hinv Hall Hp) as (w1 & -> & _).
    eexists _, _. split; [reflexivity|]. simpl. split; [tauto|]. split; [done|].
    split; [done|]. intros [err ?]. done.
Qed.

End handlers.

(** ** The debug page and the scrape *)

Section debug.
Context `{Runtime} `{Expfmt}.

Lemma wrap64_0 : wrap64 0 = 0%Z.
Proof. reflexivity. Qed.

Lemma int_add_wrap64_l (a b : Z) : int_add (wrap64 a) b = wrap64 (a + b).
Proof.
  unfold int_add, wrap64. f_equal.
  replace ((a + 2 ^ 63) mod 2 ^ 64 - 2 ^ 63 + b + 2 ^ 63)%Z
    with ((a + 2 ^ 63) mod 2 ^ 64 + b)%Z by lia.
  rewrite Z.add_mod_idemp_l by lia. f_equal. lia.
Qed.

Lemma int_add_wrap64_r (a b : Z) : int_add a (wrap64 b) = wrap64 (a + b).
Proof.
  unfold int_add, wrap64. f_equal.
  replace (a + ((b + 2 ^ 63) mod 2 ^ 64 - 2 ^ 63) + 2 ^ 63)%Z
    with (a + (b + 2 ^ 63) mod 2 ^ 64)%Z by lia.
  rewrite Z.add_mod_idemp_r by lia. f_equal. lia.
Qed.

Lemma foldr_int_add {A : Type} (g : A -> Z) (l : list A) :
  foldr (fun x n => int_add n (g x)) 0%Z l
  = wrap64 (foldr (fun x n => (g x + n)%Z) 0%Z l).
Proof.
  induction l as [|x l IH]; [done|]. simpl. rewrite IH, int_add_wrap64_l.
  f_equal. lia.
Qed.

Lemma foldr_uncurry_int_add {K A : Type} (g : A -> Z) (l : list (K * A)) :
  foldr (uncurry (fun (_ : K) x n => int_add n (g x))) 0%Z l
  = wrap64 (foldr (fun kx n => (g (snd kx) + n)%Z) 0%Z l).
Proof.
  induction l as [|[k x] l IH]; [done|]. simpl. rewrite IH, int_add_wrap64_l.
  f_equal. lia.
Qed.

Lemma foldr_int_add_wrapped {A : Type} (g : A -> Z) (l : list A) :
  foldr (fun x n => int_add n (wrap64 (g x))) 0%Z l
  = wrap64 (foldr (fun x n => (g x + n)%Z) 0%Z l).
Proof.
  induction l as [|x l IH]; [done|]. simpl.
  rewrite IH, int_add_wrap64_l. fold (int_add (foldr (fun x n => (g x + n)%Z) 0%Z l) (wrap64 (g x))).
  rewrite int_add_wrap64_r. f_equal. lia.
Qed.

Lemma length_bind {A B : Type} (g : A -> list B) (l : list A) :
  Z.of_nat (length (l ≫= g))
  = foldr (fun x n => (Z.of_nat (length (g x)) + n)%Z) 0%Z l.
Proof.
  induction l as [|x l IH]; [done|].
  rewrite bind_cons, length_app, Nat2Z.inj_add, IH. done.
Qed.

Lemma length_concat_fmap {A B : Type} (g : A -> list B) (l : list A) :
  Z.of_nat (length (concat (g <$> l)))
  = foldr (fun x n => (Z.of_nat (length (g x)) + n)%Z) 0%Z l.
Proof.
  induction l as [|x l IH]; [done|].
  rewrite fmap_cons. cbn [concat foldr]. by rewrite length_app, Nat2Z.inj_add, IH.
Qed.

Lemma foldr_ext_in {A : Type} (g1 g2 : A -> Z) (l : list A) :
  (forall x, x ∈ l -> g1 x = g2 x) ->
  foldr (fun x n => (g1 x + n)%Z) 0%Z l = foldr (fun x n => (g2 x + n)%Z) 0%Z l.
Proof.
  induction l as [|x l IH]; intros Hg; [done|]. simpl.
  rewrite (Hg x) by (by left). rewrite IH; [done|]. intros y Hy. apply Hg. by right.
Qed.

(** The number of samples a family of a well-kept store would emit. *)
Lemma family_datapoints_popped (m : Mem) (fs : gmap string familyAndMetrics)
    (fk : string) (f : familyAndMetrics) :
  wf_store m fs -> keyed fs -> queues_are chronological m fs -> fs !! fk = Some f ->
  family_datapoints f = wrap64 (Z.of_nat (length (Metrics (popDatapoints m f)))).
Proof.
  intros [Hwf _] Hkeyed Hq Hf. destruct (Hkeyed fk f Hf) as [_ Hnil].
  unfold family_datapoints, popDatapoints, copyFamily. simpl. rewrite Hnil. simpl.
  rewrite map_fold_foldr.
  rewrite (foldr_uncurry_int_add (fun q => Z.of_nat (s_len q))). f_equal.
  rewrite length_concat_fmap.
  apply foldr_ext_in. intros [k q] Hkq. simpl. apply elem_of_map_to_list in Hkq.
  destruct (Hq fk f k q Hf Hkq) as (xs & Hview & _).
  rewrite Hview, omap_id_Some.
  rewrite <- (view_length m q) by (by eapply (Hwf fk f Hf)).
  by rewrite Hview, length_fmap.
Qed.

Lemma store_datapoints_buffered (w : World) :
  hub_inv w ->
  store_datapoints (metricFamiliesByName (hub w)) = wrap64 (Z.of_nat (length (buffered w))).
Proof.
  intros (Hwf & Hkeyed & Hq). unfold store_datapoints, buffered.
  rewrite map_fold_foldr, length_bind.
  set (l := map_to_list (metricFamiliesByName (hub w))).
  assert (forall kf, kf ∈ l ->
            family_datapoints (snd kf)
            = wrap64 (Z.of_nat (length (Metrics (popDatapoints (mem w) (snd kf))))))
    as Hfam.
  { intros [k f] Hkf. apply elem_of_map_to_list in Hkf.
    by eapply family_datapoints_popped. }
  clearbody l. induction l as [|[k f] l IH]; [done|]. simpl.
  pose proof (Hfam (k, f) ltac:(by left)) as Hf. simpl in Hf. rewrite Hf.
  rewrite IH by (intros; apply Hfam; by right).
  rewrite int_add_wrap64_l.
  match goal with |- wrap64 (?a + wrap64 ?b) = _ => fold (int_add a (wrap64 b)) end.
  rewrite int_add_wrap64_r. f_equal. apply Z.add_comm.
Qed.

Lemma store_series_count (w : World) :
  store_series (metricFamiliesByName (hub w)) = wrap64 (series_count w).
Proof.
  unfold store_series, series_count. rewrite map_fold_foldr.
  induction (map_to_list (metricFamiliesByName (hub w))) as [|[k f] l IH]; [done|].
  simpl. rewrite IH, int_add_wrap64_l. f_equal. apply Z.add_comm.
Qed.

(** X12.  In every state a hub can reach, a debug call that returns
    answers 200 with statistics in which the count of families is the
    number of families in the store, the count of datapoints is the
    number of samples a scrape would hand to the encoder, and the count
    of series is the number of queues (the last two as 64-bit integers);
    it keeps these statistics, and leaves the store, the memory and the
    gauge [hub_size] as they were. *)
Theorem debug_counts_the_store (L T : Z) (ops : list Op)
    (verbose hostname : string) (sch : Schedule) :
  let w := run_ops ops (NewMetricHub L T) in
  forall r w', Debug verbose hostname sch w = (Ok r, w') ->
  status r = StatusOK /\
  (exists limitValue utilization exposition,
     body r = DebugText hostname limitValue utilization (stats (hub w')) exposition) /\
  currentCountFamilies (stats (hub w'))
    = Z.of_nat (size (metricFamiliesByName (hub w))) /\
  currentCountSeries (stats (hub w')) = wrap64 (series_count w) /\
  currentCountDatapoints (stats (hub w')) = wrap64 (Z.of_nat (length (buffered w))) /\
  metricFamiliesByName (hub w') = metricFamiliesByName (hub w) /\
  mem w' = mem w /\ hubSize w' = hubSize w.
Proof.
  cbv zeta. intros r w'.
  pose proof (reachable_inv L T ops) as Hinv.
  set (w := run_ops ops (NewMetricHub L T)) in *.
  rewrite Debug_eq. cbv zeta.
  rewrite (store_datapoints_buffered w Hinv), (store_series_count w).
  destruct (String.eqb verbose "").
  - intros [= <- <-]. simpl. split; [done|]. split; [eauto|]. done.
  - match goal with |- context [exposeMetrics ?s ?n ?sc ?w0] =>
      pose proof (exposeMetrics_frame s n sc w0) as (Hm & Hh & Hz & _);
      destruct (exposeMetrics s n sc w0) as [[text|why] w1] end; [|done].
    intros [= <- <-]. simpl in *. rewrite Hh, Hm, Hz. simpl.
    split; [done|]. split; [eauto|]. done.
Qed.

Lemma processFamilyWorker_cons (f : familyAndMetrics) (fams : list familyAndMetrics)
    (w : World) :
  processFamilyWorker (f :: fams) w =
  match familyToString (popDatapoints (mem w) f) with
  | inl _ =>
      match Name (family f) with
      | Some name => processFamilyWorker fams (add_log (LogDropped name) w)
      | None => (Panic nil_dereference, w)
      end
  | inr familyStr =>
      match processFamilyWorker fams w with
      | (Ok results, w') => (Ok (familyStr :: results), w')
      | (Panic why, w') => (Panic why, w')
      end
  end.
Proof.
  cbn [processFamilyWorker]. rewrite run_bind. unfold gets at 1. cbv beta iota.
  destruct (familyToString (popDatapoints (mem w) f)) as [err|str].
  - rewrite run_bind. change (Name (popDatapoints (mem w) f)) with (Name (family f)).
    destruct (Name (family f)) as [name|]; [|done].
    unfold deref, ret at 1. cbv beta iota. by rewrite run_bind.
  - by rewrite run_bind.
Qed.

Lemma processFamilyWorker_mem_only (fams : list familyAndMetrics) (w1 w2 : World) :
  mem w1 = mem w2 ->
  fst (processFamilyWorker fams w1) = fst (processFamilyWorker fams w2).
Proof.
  revert w1 w2. induction fams as [|f fams IH]; intros w1 w2 Hmem; [done|].
  rewrite !processFamilyWorker_cons, Hmem.
  destruct (familyToString (popDatapoints (mem w2) f)) as [err|str].
  - destruct (Name (family f)) as [name|]; [|done]. by apply IH.
  - specialize (IH w1 w2 Hmem).
    destruct (processFamilyWorker fams w1) as [[r1|why1] w1'],
             (processFamilyWorker fams w2) as [[r2|why2] w2']; simpl in *; congruence.
Qed.

Lemma exposeMetrics_mem_only (snapshot : gmap string familyAndMetrics)
    (workers : nat) (sch : Schedule) (w1 w2 : World) :
  mem w1 = mem w2 ->
  fst (exposeMetrics snapshot workers sch w1)
  = fst (exposeMetrics snapshot workers sch w2).
Proof.
  intros Hmem. unfold exposeMetrics. rewrite !run_bind.
  pose proof (processFamilyWorker_mem_only (arrived snapshot sch) w1 w2 Hmem) as Heq.
  destruct (processFamilyWorker (arrived snapshot sch) w1) as [[r1|why1] w1'],
           (processFamilyWorker (arrived snapshot sch) w2) as [[r2|why2] w2'];
    simpl in Heq; try done.
  - injection Heq as <-. by destruct (timer_first sch).
  - by injection Heq as <-.
Qed.

(** X13.  The verbose debug page shows, as the current exposition text,
    the text that a scrape under the same schedule would answer, and it
    panics when that scrape would; unlike the scrape it leaves the store
    as it was. *)
Theorem debug_previews_scrape (w : World) (verbose hostname : string)
    (sch : Schedule) (now : Z) :
  verbose <> ""%string ->
  match fst (Scrape sch now w), fst (Debug verbose hostname sch w) with
  | Ok scraped, Ok shown =>
      exists text limitValue utilization st,
        scraped = mkResponse StatusOK (Text text) /\
        shown = mkResponse StatusOK
                  (DebugText hostname limitValue utilization st (Some text))
  | Panic why, Panic why' => why = why'
  | _, _ => False
  end /\
  metricFamiliesByName (hub (snd (Debug verbose hostname sch w)))
  = metricFamiliesByName (hub w) /\
  mem (snd (Debug verbose hostname sch w)) = mem w.
Proof.
  intros Hverbose. split; [|by destruct (Debug_frame verbose hostname sch w)].
  rewrite Scrape_eq, Debug_eq. cbv zeta.
  assert (String.eqb verbose "" = false) as -> by (by apply String.eqb_neq).
  set (fs := metricFamiliesByName (hub w)).
  set (w0 := set_hub (set_families ∅ (hub w)) w).
  set (w1 := set_hub (set_stats _ (hub w)) w).
  change (metricFamiliesByName (hub w1)) with fs.
  pose proof (exposeMetrics_mem_only fs scrapeWorkerPoolSize sch w0 w1 eq_refl) as Heq.
  destruct (exposeMetrics fs scrapeWorkerPoolSize sch w0) as [[t0|why0] w0'],
           (exposeMetrics fs scrapeWorkerPoolSize sch w1) as [[t1|why1] w1'];
    simpl in Heq; try done.
  - injection Heq as <-. simpl. eauto 8.
  - by injection Heq as <-.
Qed.

Lemma processFamilyWorker_panics (fams : list familyAndMetrics) (w : World)
    (f : familyAndMetrics) (err : string) :
  f ∈ fams -> Name (family f) = None ->
  MetricFamilyToText (popDatapoints (mem w) f) = inl err ->
  exists w', processFamilyWorker fams w = (Panic nil_dereference, w') /\
             same_but_log w w'.
Proof.
  intros Hin Hname Herr. revert w Herr.
  induction fams as [|f0 fams IH]; intros w Herr; [by apply elem_of_nil in Hin|].
  rewrite processFamilyWorker_cons.
  destruct (familyToString (popDatapoints (mem w) f0)) as [err0|str] eqn:Hstr.
  - destruct (Name (family f0)) as [name|] eqn:Hname0; [|by exists w].
    apply elem_of_cons in Hin as [->|Hin]; [congruence|].
    destruct (IH Hin (add_log (LogDropped name) w) Herr) as (w' & -> & Hsame).
    exists w'. split; [done|]. by destruct Hsame as (? & ? & ? & ?).
  - apply elem_of_cons in Hin as [->|Hin].
    { unfold familyToString in Hstr. by rewrite Herr in Hstr. }
    destruct (IH Hin w Herr) as (w' & -> & Hsame). eauto.
Qed.

(** X14.  A scrape of a store that holds a family without a name pointer
    which the encoder refuses panics on the warning it means to log, as
    soon as a worker takes that family or another such one: by then the
    store has been emptied, so the snapshot is lost, while the counter,
    the statistics and the gauges are as they were before the scrape. *)
Theorem scrape_panics_on_refused_unnamed_family (w : World) (sch : Schedule)
    (now : Z) (k : string) (f : familyAndMetrics) (err : string) :
  metricFamiliesByName (hub w) !! k = Some f -> k ∈ arrival sch ->
  Name (family f) = None ->
  MetricFamilyToText (popDatapoints (mem w) f) = inl err ->
  exists w',
    Scrape sch now w = (Panic nil_dereference, w') /\
    metricFamiliesByName (hub w') = ∅ /\ mem w' = mem w /\
    stats (hub w') = stats (hub w) /\ hubSize w' = hubSize w /\
    hubLimit w' = hubLimit w.
Proof.
  intros Hk Hsch Hname Herr. rewrite Scrape_eq. cbv zeta.
  unfold exposeMetrics. rewrite run_bind.
  destruct (processFamilyWorker_panics (arrived (metricFamiliesByName (hub w)) sch)
              (set_hub (set_families ∅ (hub w)) w) f err)
    as (w' & -> & Hm & Hh & Hz & Hl); [|done..|].
  { unfold arrived. apply list_elem_of_omap. exists k. done. }
  exists w'. split; [done|]. by rewrite Hh, Hm, Hz, Hl.
Qed.

End debug.

(** ** [sortedInsert] and [makeLabeledName] once more *)

Section sorted_insert.
Context `{Runtime}.

(** X15.  [sortedInsert], given a queue whose samples carry timestamps and
    stand in time order and a sample with a timestamp, returns a queue
    that is longer by one and shows the sample placed in front of the
    first sample that is later than it (behind its equals), at the end
    when there is none.  The header it was given shows afterwards what it
    showed, when the insertion moved to a new array, and else the new
    queue less its last sample.  No other array of the memory changes. *)
Theorem sortedInsert_places (q : slice) (el : Metric) (m : Mem) (xs : list Metric) :
  wf_slice m q -> view m q = Some <$> xs ->
  Forall timestamped xs -> StronglySorted before xs -> timestamped el ->
  exists q' m',
    sortedInsert q el m = (Ok q', m') /\
    wf_slice m' q' /\ s_len q' = S (s_len q) /\
    view m' q' = Some <$> place el xs /\
    (view m' q = Some <$> xs \/ view m' q = Some <$> removelast (place el xs)) /\
    (forall p a, p <> s_ptr q -> m !! p = Some a -> m' !! p = Some a).
Proof.
  intros Hwf Hview Hall Hsorted [te Hte].
  destruct (timestamps_exist xs Hall) as (ts & Hts).
  pose proof (timestamps_sorted xs ts Hts Hsorted) as Hsts.
  destruct (sortedInsert_sorted q el m xs ts te Hwf Hview Hts Hsts Hte)
    as (q' & m' & i & Hrun & Hview' & Hbelow & Habove & _).
  destruct (sortedInsert_spec q el m Hwf) as (r & m1 & Hrun' & Hw & _ & Hr).
  rewrite Hrun in Hrun'. injection Hrun' as <- <-.
  destruct Hr as (Hwf' & _ & Hlen & _).
  assert (place el xs = take i xs ++ el :: drop i xs) as Hpl.
  { rewrite <- (take_drop i xs) at 1. apply place_split.
    - eapply timestamps_Forall; [by rewrite fmap_take, Hts, <- fmap_take|exact Hbelow|].
      intros x tx Hx Hxle. simpl in Hxle. unfold later. rewrite Hx, Hte. lia.
    - destruct (drop i xs) as [|y ys] eqn:Hdrop; [done|].
      assert (Forall (fun x => later x el = true) (y :: ys)) as Hlater.
      { rewrite <- Hdrop.
        eapply timestamps_Forall; [by rewrite fmap_drop, Hts, <- fmap_drop|exact Habove|].
        intros x tx Hx Hxgt. simpl in Hxgt. unfold later. rewrite Hx, Hte. lia. }
      by apply Forall_cons in Hlater as [? _]. }
  rewrite <- Hpl in Hview'.
  assert (s_len q = length xs) as Hn
    by (rewrite <- (view_length m q Hwf), Hview; apply length_fmap).
  exists q', m'. split; [done|]. split; [done|]. split; [done|]. split; [done|]. split.
  - destruct (sortedInsert_old_view q q' el m m' Hwf Hrun) as [Hold|Hold].
    + left. by rewrite Hold.
    + right. rewrite Hold, Hview', <- fmap_take, removelast_take, place_length, Hn.
      do 2 f_equal. lia.
  - intros p a Hp Ha. destruct Hw as [_ Hw].
    destruct (Hw p a Ha) as (a' & Ha' & _ & Heq). by rewrite Heq in Ha'.
Qed.

Lemma Search_empty {St : Type} (f : nat -> M St bool) (s : St) :
  Search 0 f s = (Ok 0, s).
Proof. unfold Search. by funelim (Search_loop f 0 0); [lia|]. Qed.

Lemma Search_first_probe_panics {St : Type} (f : nat -> M St bool) (n : nat)
    (s : St) (why : string) :
  0 < n -> (forall h, h < n -> f h s = (Panic why, s)) ->
  Search n f s = (Panic why, s).
Proof.
  intros Hn Hf. unfold Search. funelim (Search_loop f 0 n); [|lia].
  assert ((0 + j) / 2 < j) as Hm by (apply Nat.Div0.div_lt_upper_bound; lia).
  set (h := (0 + j) / 2) in *. clearbody h.
  by rewrite run_bind, (Hf h Hm).
Qed.

(** X16.  [sortedInsert] at its edges.  On an empty queue it never looks
    at a timestamp: it returns the queue of the one sample, whether or
    not the sample carries a timestamp.  On a queue that is not empty it
    panics with a nil dereference when the sample carries no timestamp.
    And whenever it panics it has not written to the memory. *)
Theorem sortedInsert_edges (q : slice) (el : Metric) (m : Mem) :
  wf_slice m q ->
  (s_len q = 0 ->
   exists q' m', sortedInsert q el m = (Ok q', m') /\ view m' q' = [Some el]) /\
  (0 < s_len q -> (forall c, c ∈ view m q -> c <> None) -> TimestampMs el = None ->
   sortedInsert q el m = (Panic nil_dereference, m)) /\
  (forall why m', sortedInsert q el m = (Panic why, m') -> m' = m).
Proof.
  intros Hwf.
  destruct (sortedInsert_spec q el m Hwf) as (r & m1 & Hrun & _ & _ & Hr).
  split; [|split].
  - intros Hlen. rewrite Hlen, Search_empty in Hr.
    destruct r as [q'|why]; [|by destruct Hr].
    destruct Hr as (_ & _ & _ & i & [= <-] & _ & Hview).
    exists q', m1. split; [done|]. rewrite Hview.
    pose proof (view_length m q Hwf) as Hv. rewrite Hlen in Hv.
    by destruct (view m q).
  - intros Hlen Hcells Hel.
    assert (Search (s_len q) (later_than q el) m = (Panic nil_dereference, m)) as Hs.
    { apply Search_first_probe_panics; [done|]. intros h Hh.
      pose proof (view_length m q Hwf) as Hv.
      destruct (lookup_lt_is_Some_2 (view m q) h) as [c Hc]; [lia|].
      destruct c as [x|]; [|by destruct (Hcells None (list_elem_of_lookup_2 _ _ _ Hc))].
      unfold later_than. rewrite run_bind, (index_view q h x m Hc).
      rewrite run_bind. destruct (TimestampMs x); simpl; [|done].
      by rewrite run_bind, Hel. }
    rewrite Hs in Hr. destruct r as [q'|why].
    + by destruct Hr as (_ & _ & _ & i & ? & _).
    + destruct Hr as [-> [= <-]]. done.
  - intros why m' Hrun'. rewrite Hrun in Hrun'. injection Hrun' as -> <-.
    by destruct Hr.
Qed.

End sorted_insert.

Section label_order.

Lemma fold_sink_sorted_input (l acc : list LabelPair) :
  StronglySorted name_le l ->
  (forall y x, y ∈ acc -> x ∈ l -> name_le y x) ->
  fold_left (fun acc x => sink x acc) l acc = rev l ++ acc.
Proof.
  revert acc. induction l as [|x l IH]; intros acc Hs Hacc; [done|].
  apply StronglySorted_inv in Hs as [Hs Hall]. simpl.
  assert (sink x acc = x :: acc) as ->.
  { destruct acc as [|y acc]; [done|]. simpl.
    assert (name_le y x) as Hyx by (apply Hacc; by left).
    unfold name_le in Hyx. by rewrite Hyx. }
  rewrite IH; [by rewrite <- app_assoc|done|].
  intros y z Hy Hz. apply elem_of_cons in Hy as [->|Hy].
  - rewrite Forall_forall in Hall. by apply Hall.
  - apply Hacc; [done|by right].
Qed.

Lemma sortSlice_sorted_id (l : list LabelPair) :
  StronglySorted name_le l -> sortSlice l = l.
Proof.
  intros Hs. unfold sortSlice. rewrite fold_sink_sorted_input; [|done|].
  - by rewrite app_nil_r, rev_involutive.
  - intros y x Hy. by apply elem_of_nil in Hy.
Qed.

(** X17.  [makeLabeledName] is idempotent: on the metric it leaves
    behind, with its labels sorted, it computes the same name and leaves
    the metric as it is.  A sample read back from the hub and pushed
    again therefore joins the series it came from. *)
Theorem makeLabeledName_idempotent (metric : Metric) (metricName : string) :
  makeLabeledName (snd (makeLabeledName metric metricName)) metricName
  = makeLabeledName metric metricName.
Proof.
  unfold makeLabeledName. simpl.
  by rewrite (sortSlice_sorted_id _ (sortSlice_sorted (Label metric))).
Qed.

End label_order.

(** ** From push to scrape *)

Section round_trip.
Context `{Runtime} `{Expfmt}.

Lemma hubMetrics_step_named (fam : MetricFamily) (w : World) :
  is_Some (Name fam) -> all_named (metricFamiliesByName (hub w)) ->
  all_named (metricFamiliesByName (hub (snd (hubMetrics_step fam w)))).
Proof.
  intros Hfam Hall. unfold hubMetrics_step.
  destruct (metricFamiliesByName (hub w) !! GetName fam) as [f|] eqn:Hf.
  - destruct (addMetrics _ _ _) as [r [m' queues]]. simpl.
    intros fk f' Hfk. apply lookup_insert_Some in Hfk as [[_ <-]|[_ Hfk]]; [|eauto].
    simpl. eauto.
  - unfold newFamilyAndMetrics.
    destruct (for_each _ _ _) as [[[]|why] [m' queues]]; simpl; [|done].
    intros fk f' Hfk. apply lookup_insert_Some in Hfk as [[_ <-]|[_ Hfk]]; [done|eauto].
Qed.

Lemma run_op_named (o : Op) (w : World) :
  named_op o -> all_named (metricFamiliesByName (hub w)) ->
  all_named (metricFamiliesByName (hub (run_op o w))).
Proof.
  intros Ho Hall. destruct o as [p|sch now|verbose hostname sch]; simpl.
  - destruct (push_store p w) as [[_ ->]|(fams & Hp & _ & ->)]; [done|].
    simpl in Ho. rewrite Hp in Ho. clear Hp. revert w Hall. unfold hubMetrics.
    induction Ho as [|fam fams Hfam _ IH]; intros w Hall; [done|].
    simpl. rewrite run_bind.
    pose proof (hubMetrics_step_named fam w Hfam Hall) as Hstep.
    destruct (hubMetrics_step fam w) as [[[]|why] w1]; simpl in *; [by apply IH|done].
  - rewrite (proj2 (Scrape_mem sch now w)). intros fk f Hfk. by rewrite lookup_empty in Hfk.
  - by rewrite (proj2 (Debug_frame verbose hostname sch w)).
Qed.

Lemma reachable_named (L T : Z) (ops : list Op) :
  Forall named_op ops ->
  all_named (metricFamiliesByName (hub (run_ops ops (NewMetricHub L T)))).
Proof.
  unfold run_ops.
  assert (all_named (metricFamiliesByName (hub (NewMetricHub L T)))) as Hinit.
  { intros fk f Hfk. simpl in Hfk. by rewrite lookup_empty in Hfk. }
  revert Hinit. generalize (NewMetricHub L T).
  induction ops as [|o ops IH]; intros w Hw Hops; simpl; [done|].
  apply Forall_cons in Hops as [Ho Hops]. apply IH; [|done]. by apply run_op_named.
Qed.

Lemma exposeMetrics_named (snapshot : gmap string familyAndMetrics) (workers : nat)
    (sch : Schedule) (w : World) :
  all_named snapshot ->
  exists w',
    exposeMetrics snapshot workers sch w
    = (Ok (if timer_first sch then ""%string
           else join (omap (rendered (mem w)) (arrived snapshot sch))), w') /\
    same_but_log w w'.
Proof.
  intros Hall. pose proof (exposeMetrics_frame snapshot workers sch w) as Hframe.
  unfold exposeMetrics in *. rewrite run_bind in *.
  rewrite processFamilyWorker_eq in * by (by apply arrived_names).
  rewrite processFamilyStringsWorker_eq in *.
  destruct (timer_first sch); eexists; (split; [reflexivity|exact Hframe]).
Qed.

(** X18.  A hub whose pushes all came with a name pointer on every family,
    as those of the text parser do, never panics on a scrape or on a
    debug call.  The scrape answers 200 with the texts of the families
    the encoder accepts, in the order in which the workers deliver them,
    or with the empty text when the timer fires first. *)
Theorem named_pushes_never_panic_a_scrape (L T : Z) (ops : list Op)
    (sch : Schedule) (now : Z) (verbose hostname : string) :
  Forall named_op ops ->
  let w := run_ops ops (NewMetricHub L T) in
  (exists w',
     Scrape sch now w
     = (Ok (mkResponse StatusOK
              (Text (if timer_first sch then ""%string
                     else join (omap (rendered (mem w))
                                     (arrived (metricFamiliesByName (hub w)) sch))))),
        w')) /\
  (exists r w', Debug verbose hostname sch w = (Ok r, w') /\ status r = StatusOK).
Proof.
  intros Hops. cbv zeta. pose proof (reachable_named L T ops Hops) as Hall.
  set (w := run_ops ops (NewMetricHub L T)) in *. split.
  - rewrite Scrape_eq. cbv zeta.
    destruct (exposeMetrics_named (metricFamiliesByName (hub w)) scrapeWorkerPoolSize sch
                (set_hub (set_families ∅ (hub w)) w) Hall) as (w1 & -> & _).
    eexists. reflexivity.
  - rewrite Debug_eq. cbv zeta. destruct (String.eqb verbose ""); [by eexists _, _|].
    match goal with |- context [exposeMetrics ?s ?n ?sc ?w0] =>
      destruct (exposeMetrics_named s n sc w0 Hall) as (w1 & -> & _) end.
    by eexists _, _.
Qed.

Lemma concat_values_perm (l1 l2 : list (string * list Metric)) :
  l1 ≡ₚ l2 -> concat l1.*2 ≡ₚ concat l2.*2.
Proof.
  induction 1 as [|[k x] l1 l2 _ IH|[k1 x1] [k2 x2] l|l1 l2 l3 _ IH1 _ IH2]; simpl.
  - done.
  - by rewrite IH.
  - rewrite !app_assoc. by rewrite (Permutation_app_comm x2 x1).
  - by rewrite IH1.
Qed.

Lemma all_samples_insert (aq : Contents) (k : string) (ys : list Metric) :
  all_samples (<[k := ys]> aq) ≡ₚ ys ++ all_samples (delete k aq).
Proof.
  unfold all_samples. rewrite <- insert_delete_eq.
  apply (concat_values_perm _ ((k, ys) :: map_to_list (delete k aq))).
  apply map_to_list_insert, lookup_delete_eq.
Qed.

Lemma all_samples_lookup (aq : Contents) (k : string) :
  all_samples aq ≡ₚ default [] (aq !! k) ++ all_samples (delete k aq).
Proof.
  unfold all_samples. destruct (aq !! k) as [xs|] eqn:Hk; simpl.
  - apply (concat_values_perm _ ((k, xs) :: map_to_list (delete k aq))).
    symmetry. by apply map_to_list_delete.
  - by rewrite delete_id.
Qed.

(** A family built from a batch with timestamps holds every sample of
    the batch once. *)
Lemma merged_all_fresh_total (familyName : string) (new : list Metric)
    (aq : Contents) (r : Res unit) (aq' : Contents) :
  (forall k xs, aq !! k = Some xs -> xs <> [] /\ Forall timestamped xs) ->
  Forall timestamped new ->
  merged_all true familyName new aq r aq' ->
  all_samples aq' ≡ₚ all_samples aq ++ (canonical <$> new).
Proof.
  intros Hinv Hnew. revert aq Hinv.
  induction Hnew as [|x new Hx _ IH]; intros aq Hinv Hm.
  { destruct Hm as [_ ->]. by rewrite app_nil_r. }
  destruct Hm as (r1 & aq1 & Hstep & Hrest).
  destruct (merged_timestamped _ _ (canonical x) _ _ _ Hinv Hx Hstep) as (-> & Hinv1 & Haq1).
  specialize (Haq1 eq_refl). rewrite (IH aq1 Hinv1 Hrest), Haq1.
  rewrite all_samples_insert, place_perm.
  rewrite (all_samples_lookup aq (fst (makeLabeledName x familyName))).
  rewrite fmap_cons, <- !app_comm_cons. apply Permutation_middle.
Qed.

(** What the first push of a family to a new hub stores. *)
Lemma first_push_stored (L T : Z) (fam : MetricFamily) :
  Forall timestamped (Metrics fam) ->
  exists w1 f,
    hubMetrics [fam] (NewMetricHub L T) = (Ok tt, w1) /\
    metricFamiliesByName (hub w1) = {[ GetName fam := f ]} /\
    family f = mkMetricFamily (Name fam) (Help fam) (Type_ fam) [] /\
    Metrics (popDatapoints (mem w1) f) ≡ₚ canonical <$> Metrics fam.
Proof.
  intros Hts. rewrite hubMetrics_one. unfold hubMetrics_step. simpl.
  rewrite lookup_empty.
  destruct (merge_loop_merged true (GetName fam) (Metrics fam) [] ∅ ∅)
    as (r & m' & qs' & aq' & Hloop & Hwf' & Hev & Hshows & Hchron & Hm).
  { apply wf_queues_empty. } { by intros k. }
  { intros k xs Hk. by rewrite lookup_empty in Hk. }
  assert (forall k xs, (∅ : Contents) !! k = Some xs -> xs <> [] /\ Forall timestamped xs)
    as Hempty by (intros k xs Hk; by rewrite lookup_empty in Hk).
  destruct (merged_all_fresh (GetName fam) (Metrics fam) ∅ r aq' Hempty Hts Hm) as [-> _].
  pose proof (merged_all_fresh_total (GetName fam) (Metrics fam) ∅ _ aq' Hempty Hts Hm)
    as Htotal.
  unfold newFamilyAndMetrics. change newFamily_step with (merge_step true).
  rewrite Hloop. eexists _, _. split; [reflexivity|]. simpl.
  split; [by rewrite insert_empty|]. split; [done|].
  unfold popDatapoints, copyFamily. simpl.
  transitivity (all_samples aq').
  - rewrite (shows_unique _ _ _ Hshows). symmetry.
    unfold all_samples, contents_of. rewrite map_to_list_fmap, <- list_fmap_compose.
    match goal with |- concat ?a ≡ₚ concat ?b => assert (a = b) as Heq; [|by rewrite Heq] end.
    apply list_fmap_ext. by intros _ [k q] _.
  - rewrite Htotal. unfold all_samples at 1. by rewrite map_to_list_empty.
Qed.

(** X19.  From push to scrape.  A family with a name pointer and
    timestamps on all its samples, pushed to a new hub whose limit it does
    not exceed, is answered 200; the scrape that follows hands the encoder
    one family, with the name, help and type pushed and with exactly the
    samples pushed, labels sorted, each once; it answers 200 with the
    text of that family, or with the empty text when the encoder refuses
    it, and leaves the store empty. *)
Theorem push_then_scrape_round_trip (L T : Z) (fam : MetricFamily)
    (size now now' : Z) (sch : Schedule) :
  is_Some (Name fam) -> Forall timestamped (Metrics fam) ->
  (L <= 0 \/ len (Metrics fam) <= L)%Z -> (len (Metrics fam) < 2 ^ 63)%Z ->
  arrival sch = [GetName fam] -> timer_first sch = false ->
  exists w1 w2 pulled,
    Receive (inr [fam]) size now (NewMetricHub L T)
      = (Ok (mkResponse StatusOK NoContent), w1) /\
    Scrape sch now' w1
      = (Ok (mkResponse StatusOK
               (Text (match MetricFamilyToText pulled with
                      | inr text => text
                      | inl _ => ""%string
                      end))), w2) /\
    (Name pulled, Help pulled, Type_ pulled) = (Name fam, Help fam, Type_ fam) /\
    Metrics pulled ≡ₚ canonical <$> Metrics fam /\
    metricFamiliesByName (hub w2) = ∅.
Proof.
  intros Hname Hts Hlimit Hsmall Harrival Htimer.
  destruct (first_push_stored L T fam Hts) as (w0 & f & Hmerge & Hfs & Hfam & Hperm).
  assert (count_new [fam] = len (Metrics fam)) as Hcount.
  { rewrite count_new_exact; simpl; unfold len in *; lia. }
  rewrite Receive_eq. cbv zeta. rewrite Hcount.
  assert ((limit (hub (NewMetricHub L T)) >? 0)%Z
          && (int_add (currentCountDatapoints (stats (hub (NewMetricHub L T))))
                      (len (Metrics fam)) >? limit (hub (NewMetricHub L T)))%Z = false)
    as ->.
  { simpl. unfold int_add. rewrite wrap64_small by (unfold len in *; lia).
    apply andb_false_iff. unfold len in *. lia. }
  rewrite Hmerge.
  set (w1 := accepted_state [fam] size now w0).
  assert (mem w1 = mem w0 /\ metricFamiliesByName (hub w1) = {[ GetName fam := f ]})
    as [Hmem1 Hfs1] by done.
  exists w1.
  pose proof (Scrape_mem sch now' w1) as [_ Hempty].
  rewrite Scrape_eq in *. cbv zeta in *. rewrite Hfs1 in *.
  destruct (exposeMetrics_named {[ GetName fam := f ]} scrapeWorkerPoolSize sch
              (set_hub (set_families ∅ (hub w1)) w1)) as (w2 & Hexp & _).
  { intros fk f' Hfk. apply lookup_singleton_Some in Hfk as [_ <-]. by rewrite Hfam. }
  rewrite Hexp in *. rewrite Htimer. unfold arrived. rewrite Harrival. simpl.
  rewrite lookup_singleton_eq. simpl. rewrite ?Hmem1.
  eexists _, (popDatapoints (mem w0) f). split; [reflexivity|].
  assert (join (match rendered (mem w0) f with Some y => [y] | None => [] end)
          = match MetricFamilyToText (popDatapoints (mem w0) f) with
            | inl _ => ""%string
            | inr text => text
            end) as Htext.
  { unfold rendered, familyToString.
    destruct (MetricFamilyToText (popDatapoints (mem w0) f)); simpl; [done|].
    by rewrite append_empty_r. }
  rewrite Htext in *.
  split; [reflexivity|].
  split; [unfold popDatapoints, copyFamily; simpl; by rewrite Hfam|].
  split; [done|]. exact Hempty.
Qed.

End round_trip.

(** ** The internal metrics *)

Section internal_metrics.
Context `{Gatherer} `{Expfmt}.

Lemma writeFamilies_spec (metrics : list MetricFamily) (str : string) :
  (exists texts, Forall2 encodes metrics texts /\
                 writeFamilies metrics str = inr (str +:+ join texts)) \/
  (exists before_ fam after texts err,
     metrics = before_ ++ fam :: after /\ Forall2 encodes before_ texts /\
     MetricFamilyToText fam = inl err /\ writeFamilies metrics str = inl err).
Proof.
  revert str. induction metrics as [|fam metrics IH]; intros str.
  { left. exists []. split; [constructor|]. simpl. by rewrite append_empty_r. }
  simpl. destruct (MetricFamilyToText fam) as [err|text] eqn:Hfam.
  - right. exists [], fam, metrics, [], err. split; [done|]. split; [constructor|done].
  - destruct (IH (str +:+ text)) as [(texts & Hall & ->)|
                                     (before_ & bad & after & texts & err & -> & Hall & Hbad & ->)].
    + left. exists (text :: texts). split; [by constructor|].
      simpl. by rewrite append_assoc.
    + right. exists (fam :: before_), bad, after, (text :: texts), err.
      split; [done|]. split; [by constructor|done].
Qed.

(** X20.  The page of internal metrics is all or nothing.  It answers 200
    with the texts of all gathered families, one after the other in the
    order gathered, when the registry reports no error and the encoder
    accepts every family; when the registry reports an error, or the
    encoder refuses a family, it answers 500 without a body, whatever the
    families before the refused one rendered to. *)
Theorem internal_metrics_all_or_nothing :
  (exists texts,
     snd Gather = None /\ Forall2 encodes (fst Gather) texts /\
     WriteInternalMetrics = inr (join texts) /\
     serveInternalMetrics = mkResponse StatusOK (Text (join texts))) \/
  ((is_Some (snd Gather) \/
    exists fam err, fam ∈ fst Gather /\ MetricFamilyToText fam = inl err) /\
   (exists err, WriteInternalMetrics = inl err) /\
   serveInternalMetrics = mkResponse StatusInternalServerError NoContent).
Proof.
  unfold serveInternalMetrics, WriteInternalMetrics.
  destruct Gather as [metrics [e|]]; simpl.
  { right. split; [left; eauto|]. split; [eauto|done]. }
  destruct (writeFamilies_spec metrics "")
    as [(texts & Hall & ->)|(before_ & fam & after & texts & err & -> & _ & Hbad & ->)].
  - left. exists texts. done.
  - right. split; [|split; [eauto|done]]. right. exists fam, err. split; [|done].
    apply elem_of_app. right. by left.
Qed.

End internal_metrics.

(** ** The distributor once more *)

Section routing_split.

(** X21.  Where the ring finds, for every key, a hub the distributor was
    given, [ReceiveGRPC] splits a batch without loss: it returns and logs
    nothing, keeps one slot per hub, gives every hub under each family
    name exactly the samples whose key the ring assigns to it, in the
    order of the batch, and every family it hands over carries the name,
    help and type of a family of the batch.  (Label names must not be
    nil.) *)
Theorem ReceiveGRPC_splits_batch (d : Distributor) (families : list MetricFamily)
    (s : DistState) :
  Forall (fun fam => Forall named (Metrics fam)) families ->
  (forall key, exists hub, ring d key = Some hub /\ hub ∈ edgeHubArray d) ->
  exists ds,
    ReceiveGRPC d families s = (Ok ds, mkDistState ds (dist_logged s)) /\
    slots_of d ds /\
    (forall h n, placed ds h n = owed d families h n) /\
    from_batch families ds.
Proof.
  intros Hnamed Hring.
  destruct (ReceiveGRPC_places d families s Hnamed Hring) as (ds & Hrun & Hdom & Hplaced).
  exists ds. split; [done|]. split; [done|]. split; [done|].
  by eapply ReceiveGRPC_metadata.
Qed.

(** X22.  [getKeyLabelValue] reads the labels in order: it returns the
    value of the first label named [keyLabel] (the empty string when the
    value pointer is nil), whatever follows it; it returns the empty
    string when all labels have other names; and it panics with a nil
    dereference when it meets a label without a name pointer before one
    named [keyLabel]. *)
Theorem getKeyLabelValue_cases {St : Type} (keyLabel : string)
    (before_ after : list LabelPair) (l : LabelPair) (s : St) :
  Forall (other_label keyLabel) before_ ->
  (lp_Name l = Some keyLabel ->
   getKeyLabelValue (before_ ++ l :: after) keyLabel s = (Ok (lp_GetValue l), s)) /\
  (lp_Name l = None ->
   getKeyLabelValue (before_ ++ l :: after) keyLabel s = (Panic nil_dereference, s)) /\
  getKeyLabelValue before_ keyLabel s = (Ok ""%string, s).
Proof.
  intros Hbefore.
  induction Hbefore as [|x before_ (n & Hn & Hne) _ (IH1 & IH2 & IH3)].
  - simpl. split; [|split; [|done]]; intros Hl; rewrite run_bind, Hl; simpl; [|done].
    by rewrite String.eqb_refl.
  - assert (String.eqb n keyLabel = false) as Hneq by (by apply String.eqb_neq).
    simpl. rewrite !run_bind, Hn. simpl. rewrite Hneq. done.
Qed.

Lemma route_failure (d : Distributor) (fam : MetricFamily) (met : Metric)
    (s : DistState) :
  named met -> ring d (key_of d met) = None -> distSet s !! ""%string = None ->
  route d fam met s
  = (Panic nil_map_assignment,
     mkDistState (distSet s) (HashPositionNotFound met :: dist_logged s)).
Proof.
  intros Hnamed Hring Hslot. unfold route.
  rewrite run_bind, getKeyLabelValue_eq by done. cbv beta iota. rewrite Hring.
  cbv beta iota. rewrite run_bind. unfold modify at 1. cbv beta iota.
  rewrite run_bind. unfold gets at 1. cbv beta iota. simpl. by rewrite Hslot.
Qed.

(** The inner loop of [ReceiveGRPC]: it places every sample, or panics at
    the first sample for which the ring has no hub. *)
Lemma route_loop (d : Distributor) (fam : MetricFamily) (mets : list Metric)
    (s : DistState) :
  Forall named mets -> ring_within d -> slots_of d (distSet s) ->
  ""%string ∉ edgeHubArray d ->
  exists r s',
    for_each mets (route d fam) s = (r, s') /\
    match r with
    | Ok _ =>
        Forall (fun met => is_Some (ring d (key_of d met))) mets /\
        dist_logged s' = dist_logged s /\ slots_of d (distSet s')
    | Panic why =>
        why = nil_map_assignment /\
        exists met, met ∈ mets /\ ring d (key_of d met) = None /\
                    dist_logged s' = HashPositionNotFound met :: dist_logged s
    end.
Proof.
  intros Hnamed Hwithin Hslots Hblank. revert s Hslots.
  induction Hnamed as [|met mets Hmet _ IH]; intros s Hslots.
  { exists (Ok tt), s. done. }
  simpl. rewrite run_bind.
  destruct (ring d (key_of d met)) as [hub|] eqn:Hring.
  - destruct (route_success d fam met s hub Hmet Hring) as (s1 & -> & Hlog & Hdom & _).
    { apply Hslots. by eapply Hwithin. }
    destruct (IH s1) as (r & s' & -> & Hr).
    { intros h. rewrite Hdom. apply Hslots. }
    exists r, s'. split; [done|]. destruct r as [[]|why].
    + destruct Hr as (Hall & Hlog' & Hslots'). split; [|split; [congruence|done]].
      constructor; [by rewrite Hring|done].
    + destruct Hr as (-> & met' & Hin & Hnone & Hlog'). split; [done|].
      exists met'. split; [by right|]. split; [done|]. congruence.
  - rewrite route_failure; [|done..|].
    + eexists _, _. split; [reflexivity|]. split; [done|].
      exists met. split; [by left|]. done.
    + destruct (distSet s !! ""%string) eqn:Hslot; [|done].
      exfalso. apply Hblank, Hslots. by rewrite Hslot.
Qed.

Lemma route_loops (d : Distributor) (families : list MetricFamily) (s : DistState) :
  Forall (fun fam => Forall named (Metrics fam)) families ->
  ring_within d -> slots_of d (distSet s) -> ""%string ∉ edgeHubArray d ->
  exists r s',
    for_each families (fun fam => for_each (Metrics fam) (route d fam)) s = (r, s') /\
    match r with
    | Ok _ =>
        Forall (fun fam => Forall (fun met => is_Some (ring d (key_of d met)))
                                  (Metrics fam)) families /\
        dist_logged s' = dist_logged s /\ slots_of d (distSet s')
    | Panic why =>
        why = nil_map_assignment /\
        exists fam met, fam ∈ families /\ met ∈ Metrics fam /\
                        ring d (key_of d met) = None /\
                        dist_logged s' = HashPositionNotFound met :: dist_logged s
    end.
Proof.
  intros Hnamed Hwithin Hslots Hblank. revert s Hslots.
  induction Hnamed as [|fam families Hfam _ IH]; intros s Hslots.
  { exists (Ok tt), s. done. }
  simpl. rewrite run_bind.
  destruct (route_loop d fam (Metrics fam) s Hfam Hwithin Hslots Hblank)
    as (r1 & s1 & -> & Hr1).
  destruct r1 as [[]|why].
  - destruct Hr1 as (Hall1 & Hlog1 & Hslots1).
    destruct (IH s1 Hslots1) as (r & s' & -> & Hr).
    exists r, s'. split; [done|]. destruct r as [[]|why].
    + destruct Hr as (Hall & Hlog & Hslots'). split; [by constructor|].
      split; [congruence|done].
    + destruct Hr as (-> & fam' & met & Hin & Hmet & Hnone & Hlog). split; [done|].
      exists fam', met. split; [by right|]. split; [done|]. split; [done|]. congruence.
  - destruct Hr1 as (-> & met & Hin & Hnone & Hlog).
    eexists _, _. split; [reflexivity|]. split; [done|].
    exists fam, met. split; [by left|]. done.
Qed.

(** X23.  When the ring has no hub for the key of some sample of a batch,
    [ReceiveGRPC] does not drop that sample: it logs that no hash position
    was found for the first such sample and panics on the assignment to
    the nil map of the hub named by the empty string, so that nothing of
    the batch is handed over for sending.  (For a distributor whose ring
    names its own hubs only, none of them the empty string, and a batch
    without nil label names.) *)
Theorem failed_lookup_panics_the_batch (d : Distributor)
    (families : list MetricFamily) (s : DistState) (fam : MetricFamily)
    (met : Metric) :
  Forall (fun fam => Forall named (Metrics fam)) families ->
  ring_within d -> ""%string ∉ edgeHubArray d ->
  fam ∈ families -> met ∈ Metrics fam -> ring d (key_of d met) = None ->
  exists s' fam' met',
    ReceiveGRPC d families s = (Panic nil_map_assignment, s') /\
    fam' ∈ families /\ met' ∈ Metrics fam' /\ ring d (key_of d met') = None /\
    dist_logged s' = HashPositionNotFound met' :: dist_logged s.
Proof.
  intros Hnamed Hwithin Hblank Hfam Hmet Hnone. unfold ReceiveGRPC.
  rewrite run_bind. unfold modify at 1. cbv beta iota.
  set (s0 := mkDistState _ _).
  destruct (route_loops d families s0 Hnamed Hwithin) as (r & s' & Hrun & Hr);
    [intros h; apply distSet_init|done|].
  rewrite run_bind, Hrun. destruct r as [[]|why].
  - destruct Hr as (Hall & _). exfalso.
    rewrite Forall_forall in Hall. specialize (Hall fam Hfam).
    rewrite Forall_forall in Hall. specialize (Hall met Hmet).
    rewrite Hnone in Hall. by destruct Hall.
  - destruct Hr as (-> & fam' & met' & ? & ? & ? & ?). exists s', fam', met'. done.
Qed.

End routing_split.

(** ** Names that tell series apart *)

Section plain_names.

Lemma append_cons (c : ascii) (a r : string) : String c a +:+ r = String c (a +:+ r).
Proof. reflexivity. Qed.

Lemma append_inj_l (n a b : string) : n +:+ a = n +:+ b -> a = b.
Proof.
  induction n as [|c n IH]; [done|]. rewrite !append_cons. intros [= Heq]. by apply IH.
Qed.

(** Where a string without underscores ends, when what follows is empty
    or starts with an underscore. *)
Lemma plain_split (a a' r r' : string) :
  plain a = true -> plain a' = true ->
  (r = ""%string \/ exists r0, r = String "_" r0) ->
  (r' = ""%string \/ exists r0, r' = String "_" r0) ->
  a +:+ r = a' +:+ r' -> a = a' /\ r = r'.
Proof.
  revert a'. induction a as [|c a IH]; intros [|c' a'] Ha Ha' Hr Hr' Heq.
  - done.
  - exfalso. change ("" +:+ r)%string with r in Heq. rewrite append_cons in Heq.
    simpl in Ha'. apply andb_true_iff in Ha' as [Hc _].
    destruct Hr as [->|[r0 ->]]; [done|]. injection Heq as <- _. done.
  - exfalso. change ("" +:+ r')%string with r' in Heq. rewrite append_cons in Heq.
    simpl in Ha. apply andb_true_iff in Ha as [Hc _].
    destruct Hr' as [->|[r0 ->]]; [done|]. injection Heq as -> _. done.
  - rewrite !append_cons in Heq. injection Heq as -> Heq.
    simpl in Ha, Ha'. apply andb_true_iff in Ha as [_ Ha].
    apply andb_true_iff in Ha' as [_ Ha'].
    destruct (IH a' Ha Ha' Hr Hr' Heq) as [-> ->]. done.
Qed.

Lemma join_segments_cons (l : LabelPair) (labels : list LabelPair) :
  join (segment <$> l :: labels)
  = String "_" (lp_GetName l +:+ String "_" (lp_GetValue l +:+ join (segment <$> labels))).
Proof.
  rewrite fmap_cons.
  change (join (segment l :: (segment <$> labels)))
    with (segment l +:+ join (segment <$> labels)).
  unfold segment at 1. rewrite !append_cons.
  repeat change (String.append EmptyString ?x) with x.
  f_equal. rewrite append_assoc. f_equal.
Qed.

Lemma join_segments_boundary (labels : list LabelPair) :
  join (segment <$> labels) = ""%string \/
  exists r0, join (segment <$> labels) = String "_" r0.
Proof.
  destruct labels as [|l labels]; [by left|]. right.
  rewrite join_segments_cons. eauto.
Qed.

Lemma join_segments_inj (l1 l2 : list LabelPair) :
  Forall (fun l => plain (lp_GetName l) = true /\ plain (lp_GetValue l) = true) l1 ->
  Forall (fun l => plain (lp_GetName l) = true /\ plain (lp_GetValue l) = true) l2 ->
  join (segment <$> l1) = join (segment <$> l2) -> pairs l1 = pairs l2.
Proof.
  intros H1. revert l2. induction H1 as [|a l1 [Hna Hva] _ IH]; intros l2 H2 Heq.
  - destruct l2 as [|b l2]; [done|]. by rewrite join_segments_cons in Heq.
  - destruct H2 as [|b l2 [Hnb Hvb] H2]; [by rewrite join_segments_cons in Heq|].
    rewrite !join_segments_cons in Heq. injection Heq as Heq.
    apply plain_split in Heq as [Hn Heq]; [|done|done|right; eauto..].
    injection Heq as Heq.
    apply plain_split in Heq as [Hv Heq]; [|done|done|apply join_segments_boundary..].
    unfold pairs. rewrite !fmap_cons, Hn, Hv. f_equal. by apply IH.
Qed.

(** X24.  Among samples whose label names and values hold no underscore,
    the labeled name tells series apart: two samples of one family get
    the same name only if, sorted by label name, they carry the same
    label names and values in the same order. *)
Theorem labeled_name_injective_on_plain_labels (x y : Metric) (metricName : string) :
  plain_labels x -> plain_labels y ->
  fst (makeLabeledName x metricName) = fst (makeLabeledName y metricName) ->
  pairs (Label (snd (makeLabeledName x metricName)))
  = pairs (Label (snd (makeLabeledName y metricName))).
Proof.
  intros Hx Hy. rewrite !makeLabeledName_fst, !makeLabeledName_snd. simpl.
  intros Heq. apply append_inj_l in Heq. apply join_segments_inj; [| |done].
  - unfold plain_labels in Hx. by rewrite (sortSlice_perm (Label x)).
  - unfold plain_labels in Hy. by rewrite (sortSlice_perm (Label y)).
Qed.

End plain_names.

(** ** Examples *)

Ltac timestamps :=
  repeat match goal with
         | |- Forall _ [] => apply Forall_nil_2
         | |- Forall _ (_ :: _) => apply Forall_cons_2
         | |- timestamped _ => by eexists
         | |- before _ _ => eexists _, _; split; [reflexivity|split; [reflexivity|lia]]
         | |- StronglySorted _ [] => constructor
         | |- StronglySorted _ (_ :: _) => constructor
         end.

Section further_examples.

#[local] Existing Instance example_runtime.
#[local] Existing Instance example_encoder.

Lemma popped_series_are_in_time_order_witness :
  exists f,
    metricFamiliesByName (hub (run_ops [pushed [mf]] (NewMetricHub 0 10))) !! "mf1"%string
      = Some f /\
    GetName (popDatapoints (mem (run_ops [pushed [mf]] (NewMetricHub 0 10))) f)
      = "mf1"%string.
Proof.
  assert (exists f,
            metricFamiliesByName (hub (run_ops [pushed [mf]] (NewMetricHub 0 10)))
              !! "mf1"%string = Some f) as [f Hf] by (vm_compute; eauto).
  exists f. split; [exact Hf|].
  exact (proj1 (popped_series_are_in_time_order 0 10 [pushed [mf]] "mf1" f Hf)).
Defined.

Lemma new_family_queues_witness :
  exists f m',
    newFamilyAndMetrics mf [] = (Ok f, m') /\
    family f = mkMetricFamily (Some "mf1"%string) None None [].
Proof.
  assert (Forall timestamped (Metrics mf)) as Hts by (unfold mf, Metrics; timestamps).
  destruct (new_family_queues mf [] Hts) as (f & m' & Hrun & Hfam & _).
  exists f, m'. split; [exact Hrun|exact Hfam].
Defined.

Lemma batch_in_time_order_is_appended_witness :
  exists w',
    hubMetrics [mf1 [3; 4]%Z] (run_ops [pushed [mf1 [1; 2]%Z]] (NewMetricHub 0 10))
    = (Ok tt, w') /\
    family_contents w' "mf1" !! "mf1"%string
    = Some [counter 1 1; counter 2 2; counter 3 3; counter 4 4].
Proof.
  assert (family_contents (run_ops [pushed [mf1 [1; 2]%Z]] (NewMetricHub 0 10))
                          (GetName (mf1 [3; 4]%Z))
          = {[ "mf1"%string := [counter 1 1; counter 2 2] ]}) as Hold
    by (vm_compute; reflexivity).
  destruct (batch_in_time_order_is_appended 0 10 [pushed [mf1 [1; 2]%Z]] (mf1 [3; 4]%Z))
    as (w' & Hrun & Hk).
  - unfold mf1, Metrics. simpl. timestamps.
  - unfold mf1, Metrics. simpl. timestamps.
  - intros k xs y x Hxs Hy Hx. rewrite Hold in Hxs.
    apply lookup_singleton_Some in Hxs as [_ <-].
    repeat (apply elem_of_cons in Hy as [->|Hy]); [| |by apply elem_of_nil in Hy];
      simpl in Hx;
      repeat (apply elem_of_cons in Hx as [->|Hx]); try (by apply elem_of_nil in Hx);
      timestamps.
  - exists w'. split; [exact Hrun|].
    specialize (Hk "mf1"%string). rewrite Hold in Hk. exact Hk.
Defined.

Lemma late_sample_never_lengthens_queue_witness :
  exists w' ys,
    hubMetrics [mf1 [3%Z]] (run_ops [pushed [mf1 [5%Z]]] (NewMetricHub 0 10))
    = (Ok tt, w') /\
    family_contents w' "mf1" !! "mf1"%string = Some ys /\ length ys = 1.
Proof.
  destruct (late_sample_never_lengthens_queue 0 10 [pushed [mf1 [5%Z]]] (mf1 [3%Z])
              (counter 3 3) (counter 5 5) [counter 5 5] 3 5)
    as (w' & ys & Hrun & Hnew & _ & Hlen & _);
    [reflexivity|vm_compute; reflexivity|reflexivity|reflexivity|reflexivity|lia|].
  exists w', ys. split; [exact Hrun|]. split; [|exact Hlen].
  change (family_contents w' "mf1") with (family_contents w' (GetName (mf1 [3%Z]))).
  rewrite Hnew. apply lookup_insert_eq.
Defined.

Lemma sample_without_timestamp_panics_witness :
  exists w',
    hubMetrics [untimedFamily] (run_ops [pushed [untimedFamily]] (NewMetricHub 0 10))
    = (Panic nil_dereference, w').
Proof.
  destruct (sample_without_timestamp_panics 0 10 [pushed [untimedFamily]] untimedFamily
              untimed untimed [untimed])
    as (w' & Hrun & _);
    [reflexivity|vm_compute; reflexivity|reflexivity|by left|].
  exists w'. exact Hrun.
Defined.


Lemma panicking_push_leaves_counters_witness :
  same_settings
    (run_ops [pushed [untimedFamily]] (NewMetricHub 0 10))
    (snd (Receive (inr [untimedFamily]) 64 1559953048
                  (run_ops [pushed [untimedFamily]] (NewMetricHub 0 10)))).
Proof.
  apply (panicking_push_leaves_counters [untimedFamily] 64 1559953048 _ _ nil_dereference).
  vm_compute. reflexivity.
Defined.

Lemma timestamped_pushes_never_panic_witness :
  exists r w',
    Receive (inr [mf1 [3%Z]]) 64 1559953048 (run_ops [pushed [mf]] (NewMetricHub 0 10))
    = (Ok r, w').
Proof.
  destruct (timestamped_pushes_never_panic 0 10 [pushed [mf]]
              (mkPush (inr [mf1 [3%Z]]) 64 1559953048)) as (r & w' & Hrun & _).
  - repeat (apply Forall_cons_2 || apply Forall_nil_2); simpl; timestamps.
  - exists r, w'. exact Hrun.
Defined.

Lemma debug_counts_the_store_witness :
  currentCountDatapoints
    (stats (hub (snd (Debug "" "edge-hub" (mkSchedule [] false)
                            (run_ops [pushed [mf]] (NewMetricHub 0 10))))))
  = wrap64 (Z.of_nat (length (buffered (run_ops [pushed [mf]] (NewMetricHub 0 10))))).
Proof.
  assert (exists r, Debug "" "edge-hub" (mkSchedule [] false)
                          (run_ops [pushed [mf]] (NewMetricHub 0 10))
                    = (Ok r, snd (Debug "" "edge-hub" (mkSchedule [] false)
                                   (run_ops [pushed [mf]] (NewMetricHub 0 10)))))
    as [r Hr] by (vm_compute; eauto).
  destruct (debug_counts_the_store 0 10 [pushed [mf]] "" "edge-hub" (mkSchedule [] false)
              r _ Hr) as (_ & _ & _ & _ & Hcount & _).
  exact Hcount.
Defined.

Lemma debug_previews_scrape_witness :
  mem (snd (Debug "1" "edge-hub" (mkSchedule ["mf1"%string] false)
                  (run_ops [pushed [mf]] (NewMetricHub 0 10))))
  = mem (run_ops [pushed [mf]] (NewMetricHub 0 10)).
Proof.
  assert ("1"%string <> ""%string) as Hverbose by discriminate.
  exact (proj2 (proj2 (debug_previews_scrape (run_ops [pushed [mf]] (NewMetricHub 0 10))
                         "1" "edge-hub" (mkSchedule ["mf1"%string] false) 1559953050
                         Hverbose))).
Defined.

Lemma scrape_panics_on_refused_unnamed_family_witness :
  exists w',
    Scrape (mkSchedule [""%string] false) 1559953050
           (run_ops [pushed [unnamedFamily]] (NewMetricHub 0 10))
    = (Panic nil_dereference, w') /\
    metricFamiliesByName (hub w') = ∅.
Proof.
  assert (exists f,
            metricFamiliesByName
              (hub (run_ops [pushed [unnamedFamily]] (NewMetricHub 0 10))) !! ""%string
            = Some f /\
            Name (family f) = None /\
            MetricFamilyToText
              (popDatapoints (mem (run_ops [pushed [unnamedFamily]] (NewMetricHub 0 10))) f)
            = inl "MetricFamily has no name"%string) as (f & Hf & Hname & Herr).
  { eexists. split; [vm_compute; reflexivity|]. split; vm_compute; reflexivity. }
  destruct (scrape_panics_on_refused_unnamed_family
              (run_ops [pushed [unnamedFamily]] (NewMetricHub 0 10))
              (mkSchedule [""%string] false) 1559953050 "" f _ Hf
              (list_elem_of_here _ _) Hname Herr) as (w' & Hrun & Hempty & _).
  exists w'. split; [exact Hrun|exact Hempty].
Defined.

Lemma sortedInsert_places_witness :
  exists q' m',
    sortedInsert (mkSlice 0 2 2) (counter 2 2)
                 [[Some (counter 1 1); Some (counter 3 3)]] = (Ok q', m') /\
    view m' q' = [Some (counter 1 1); Some (counter 2 2); Some (counter 3 3)].
Proof.
  destruct (sortedInsert_places (mkSlice 0 2 2) (counter 2 2)
              [[Some (counter 1 1); Some (counter 3 3)]] [counter 1 1; counter 3 3])
    as (q' & m' & Hrun & _ & _ & Hview & _).
  - eexists. split; [reflexivity|]. split; [reflexivity|simpl; lia].
  - reflexivity.
  - timestamps.
  - timestamps.
  - by eexists.
  - exists q', m'. split; [exact Hrun|exact Hview].
Defined.

Lemma sortedInsert_edges_witness :
  sortedInsert (mkSlice 0 1 1) untimed [[Some (counter 1 1)]]
  = (Panic nil_dereference, [[Some (counter 1 1)]]).
Proof.
  assert (wf_slice [[Some (counter 1 1)]] (mkSlice 0 1 1)) as Hwf.
  { eexists. split; [reflexivity|]. split; [reflexivity|simpl; lia]. }
  destruct (sortedInsert_edges (mkSlice 0 1 1) untimed [[Some (counter 1 1)]] Hwf)
    as (_ & Hpanic & _).
  apply Hpanic; [simpl; lia| |reflexivity].
  intros c Hc. apply list_elem_of_singleton in Hc. by subst c.
Defined.

Lemma named_pushes_never_panic_a_scrape_witness :
  exists w',
    Scrape (mkSchedule ["mf1"%string] false) 1559953050
           (run_ops [pushed [mf]] (NewMetricHub 0 10))
    = (Ok (mkResponse StatusOK (Text expectedExpositionText)), w').
Proof.
  assert (Forall named_op [pushed [mf]]) as Hops.
  { apply Forall_cons_2; [|apply Forall_nil_2]. simpl.
    apply Forall_cons_2; [by eexists|apply Forall_nil_2]. }
  destruct (named_pushes_never_panic_a_scrape 0 10 [pushed [mf]]
              (mkSchedule ["mf1"%string] false) 1559953050 "" "edge-hub" Hops)
    as [[w' Hscrape] _].
  exists w'. rewrite Hscrape. reflexivity.
Defined.

Lemma push_then_scrape_round_trip_witness :
  exists w1 w2,
    Receive (inr [mf]) 64 1559953047 (NewMetricHub 0 10)
      = (Ok (mkResponse StatusOK NoContent), w1) /\
    fst (Scrape (mkSchedule ["mf1"%string] false) 1559953050 w1)
      = Ok (mkResponse StatusOK (Text expectedExpositionText)) /\
    metricFamiliesByName (hub w2) = ∅.
Proof.
  destruct (push_then_scrape_round_trip 0 10 mf 64 1559953047 1559953050
              (mkSchedule ["mf1"%string] false))
    as (w1 & w2 & pulled & Hpush & Hscrape & _ & _ & Hempty).
  - by eexists.
  - unfold mf, Metrics. timestamps.
  - left. lia.
  - vm_compute. reflexivity.
  - reflexivity.
  - reflexivity.
  - exists w1, w2. split; [exact Hpush|]. split; [|exact Hempty].
    clear Hscrape. rewrite Receive_eq in Hpush. 
    injection Hpush as <-. vm_compute. reflexivity.
Defined.

Lemma ReceiveGRPC_splits_batch_witness :
  exists ds,
    ReceiveGRPC one_hub [cpu_usage] (mkDistState ∅ []) = (Ok ds, mkDistState ds []) /\
    placed ds "hub1:9092" "cpu_usage" = [hostA].
Proof.
  destruct (ReceiveGRPC_splits_batch one_hub [cpu_usage] (mkDistState ∅ []))
    as (ds & Hrun & _ & Hplaced & _).
  - repeat (apply Forall_cons_2 || apply Forall_nil_2). by eexists.
  - intros key. exists "hub1:9092"%string. split; [reflexivity|apply list_elem_of_here].
  - exists ds. split; [exact Hrun|]. rewrite Hplaced. reflexivity.
Defined.

Lemma getKeyLabelValue_cases_witness :
  getKeyLabelValue [mkLabelPair (Some "code"%string) (Some "200"%string);
                    mkLabelPair (Some "host"%string) (Some "A"%string);
                    mkLabelPair None (Some "B"%string)] "host" tt
  = (Ok "A"%string, tt).
Proof.
  refine (proj1 (getKeyLabelValue_cases "host"
                   [mkLabelPair (Some "code"%string) (Some "200"%string)]
                   [mkLabelPair None (Some "B"%string)]
                   (mkLabelPair (Some "host"%string) (Some "A"%string)) tt _) eq_refl).
  apply Forall_cons_2; [|apply Forall_nil_2].
  exists "code"%string. split; [reflexivity|discriminate].
Defined.

Lemma failed_lookup_panics_the_batch_witness :
  exists s',
    ReceiveGRPC no_hub [cpu_usage] (mkDistState ∅ []) = (Panic nil_map_assignment, s') /\
    dist_logged s' = [HashPositionNotFound hostA].
Proof.
  destruct (failed_lookup_panics_the_batch no_hub [cpu_usage] (mkDistState ∅ [])
              cpu_usage hostA)
    as (s' & fam' & met' & Hrun & Hfam & Hmet & _ & Hlog).
  - repeat (apply Forall_cons_2 || apply Forall_nil_2). by eexists.
  - intros key hub Hring. discriminate Hring.
  - apply not_elem_of_nil.
  - apply list_elem_of_here.
  - apply list_elem_of_here.
  - reflexivity.
  - exists s'. split; [exact Hrun|].
    apply list_elem_of_singleton in Hfam. subst fam'.
    apply list_elem_of_singleton in Hmet. subst met'. exact Hlog.
Defined.

Lemma labeled_name_injective_on_plain_labels_witness :
  pairs (Label (snd (makeLabeledName
                       (mkMetric [mkLabelPair (Some "method"%string) (Some "post"%string);
                                  mkLabelPair (Some "code"%string) (Some "200"%string)]
                                 (CounterValue 1) (Some 1%Z)) "requests")))
  = pairs (Label (snd (makeLabeledName
                         (mkMetric [mkLabelPair (Some "code"%string) (Some "200"%string);
                                    mkLabelPair (Some "method"%string) (Some "post"%string)]
                                   (CounterValue 2) (Some 2%Z)) "requests"))).
Proof.
  apply labeled_name_injective_on_plain_labels.
  - repeat (apply Forall_cons_2 || apply Forall_nil_2); split; reflexivity.
  - repeat (apply Forall_cons_2 || apply Forall_nil_2); split; reflexivity.
  - reflexivity.
Defined.

End further_examples.
